(** * Ephemeral-message relay: decision and lifecycle pipeline

    A shallow embedding of the server-side services of the relay
    (ephemeral store, anomaly scorer, policy engine, metadata sanitizer,
    audit log) together with the properties stated about them.

    Conventions of the embedding.
    - A Python [str] is its UTF-8 byte string (a Rocq [string]); lengths and
      case folding are therefore exact for ASCII text.
    - A Python [bytes]/[bytearray] is a [list byte].
    - A clock reading ([time.time()]) is a rational number of seconds.
    - A Python [float] holding data is an extended rational ([pyfloat]):
      a finite value, an infinity or NaN; every constant the code compares
      against is represented exactly.
    - [hashlib.sha256], HMAC and PBKDF2 are written out and executable. *)

From Stdlib Require Import ZArith QArith Qround Lqa Lia Bool Ascii.
From Stdlib.Strings Require Import Byte.
From stdpp Require Import gmap strings list.

Open Scope Z_scope.

(* ===================================================================== *)
(** * hashlib: SHA-256, HMAC-SHA-256, PBKDF2 *)
(* ===================================================================== *)

Module Hashlib.

Definition bytes := list byte.

Definition byte_to_Z (b : byte) : Z := Z.of_N (Byte.to_N b).

Definition byte_of_Z (z : Z) : byte :=
  match Byte.of_N (Z.to_N (z mod 256)) with
  | Some b => b
  | None => x00
  end.

(** [str.encode()] on the byte-string model. *)
Definition encode (s : string) : bytes := String.list_byte_of_string s.

Definition mask32 : Z := 0xffffffff.
Definition add32 (a b : Z) : Z := Z.land (a + b) mask32.
Definition rotr (n x : Z) : Z :=
  Z.lor (Z.shiftr x n) (Z.land (Z.shiftl x (32 - n)) mask32).
Definition shr (n x : Z) : Z := Z.shiftr x n.
Definition not32 (x : Z) : Z := Z.lxor x mask32.

Definition Ch (x y z : Z) : Z := Z.lxor (Z.land x y) (Z.land (not32 x) z).
Definition Maj (x y z : Z) : Z :=
  Z.lxor (Z.lxor (Z.land x y) (Z.land x z)) (Z.land y z).
Definition Sigma0 (x : Z) : Z := Z.lxor (Z.lxor (rotr 2 x) (rotr 13 x)) (rotr 22 x).
Definition Sigma1 (x : Z) : Z := Z.lxor (Z.lxor (rotr 6 x) (rotr 11 x)) (rotr 25 x).
Definition sigma0 (x : Z) : Z := Z.lxor (Z.lxor (rotr 7 x) (rotr 18 x)) (shr 3 x).
Definition sigma1 (x : Z) : Z := Z.lxor (Z.lxor (rotr 17 x) (rotr 19 x)) (shr 10 x).

(** The round constants and the initial hash value are the first 32 bits
    of the fractional parts of the cube roots, respectively square roots,
    of the first primes. *)
Definition is_prime (n : nat) : bool :=
  forallb (fun d => negb (n mod d =? 0)%nat) (seq 2 (n - 2)).

Definition first_primes (count : nat) : list Z :=
  map Z.of_nat (firstn count (List.filter is_prime (seq 2 310))).

(** Largest [r] below [2 ^ bits] with [r ^ 3 <= n]. *)
Fixpoint cube_root (bits : nat) (n r : Z) : Z :=
  match bits with
  | O => r
  | S b =>
      let r' := r + 2 ^ Z.of_nat b in
      cube_root b n (if r' * r' * r' <=? n then r' else r)
  end.

Definition K256 : list Z :=
  Eval vm_compute in
    map (fun p => Z.land (cube_root 36 (p * 2 ^ 96) 0) mask32) (first_primes 64).

Definition H256 : list Z :=
  Eval vm_compute in
    map (fun p => Z.land (Z.sqrt (p * 2 ^ 64)) mask32) (first_primes 8).

(** Big-endian packing of bytes into an integer and back. *)
Definition be_to_Z (bs : bytes) : Z :=
  fold_left (fun acc b => acc * 256 + byte_to_Z b) bs 0.

Fixpoint Z_to_be (n : nat) (z : Z) : bytes :=
  match n with
  | O => []
  | S n' => Z_to_be n' (z / 256) ++ [byte_of_Z z]
  end.

(** Message padding: 0x80, zeros up to 56 mod 64, then the bit length on
    eight bytes. *)
Definition pad (msg : bytes) : bytes :=
  let len := Z.of_nat (length msg) in
  let zeros := Z.to_nat ((55 - len) mod 64) in
  msg ++ [x80] ++ repeat x00 zeros ++ Z_to_be 8 (8 * len).

Fixpoint chunks (fuel : nat) (n : nat) {A} (l : list A) : list (list A) :=
  match fuel with
  | O => []
  | S fuel' =>
      match l with
      | [] => []
      | _ => firstn n l :: chunks fuel' n (skipn n l)
      end
  end.

Definition words_of_block (blk : bytes) : list Z :=
  map be_to_Z (chunks 16 4 blk).

(** Message schedule; [w] holds the words computed so far, most recent
    first. *)
Fixpoint schedule (n : nat) (w : list Z) : list Z :=
  match n with
  | O => w
  | S n' =>
      let wt := add32 (add32 (sigma1 (nth 1 w 0)) (nth 6 w 0))
                      (add32 (sigma0 (nth 14 w 0)) (nth 15 w 0)) in
      schedule n' (wt :: w)
  end.

Definition round (st : list Z) (kw : Z * Z) : list Z :=
  match st with
  | [a; b; c; d; e; f; g; h] =>
      let t1 := add32 (add32 (add32 h (Sigma1 e)) (add32 (Ch e f g) (fst kw))) (snd kw) in
      let t2 := add32 (Sigma0 a) (Maj a b c) in
      [add32 t1 t2; a; b; c; add32 d t1; e; f; g]
  | _ => st
  end.

Fixpoint zip_with_add (l1 l2 : list Z) : list Z :=
  match l1, l2 with
  | x :: l1', y :: l2' => add32 x y :: zip_with_add l1' l2'
  | _, _ => []
  end.

Definition compress (h : list Z) (blk : bytes) : list Z :=
  let w := rev (schedule 48 (rev (words_of_block blk))) in
  zip_with_add h (fold_left round (combine K256 w) h).

Definition sha256 (msg : bytes) : bytes :=
  let p := pad msg in
  let blocks := chunks (S (length p)) 64 p in
  flat_map (Z_to_be 4) (fold_left compress blocks H256).

Definition hex_digit (z : Z) : ascii :=
  nth (Z.to_nat z)
    ["0"; "1"; "2"; "3"; "4"; "5"; "6"; "7"; "8"; "9";
     "a"; "b"; "c"; "d"; "e"; "f"]%char "0"%char.

(** [bytes.hex()] *)
Fixpoint hex (bs : bytes) : string :=
  match bs with
  | [] => ""
  | b :: bs' =>
      String (hex_digit (byte_to_Z b / 16))
        (String (hex_digit (byte_to_Z b mod 16)) (hex bs'))
  end.

(** [hashlib.sha256(data).hexdigest()] *)
Definition sha256_hexdigest (msg : bytes) : string := hex (sha256 msg).

Definition xor_bytes (a b : bytes) : bytes :=
  map (fun p => byte_of_Z (Z.lxor (byte_to_Z (fst p)) (byte_to_Z (snd p)))) (combine a b).

Definition hmac_sha256 (key msg : bytes) : bytes :=
  let k0 := if (64 <? Z.of_nat (length key)) then sha256 key else key in
  let k := k0 ++ repeat x00 (64 - length k0) in
  let ipad := map (fun b => byte_of_Z (Z.lxor (byte_to_Z b) 0x36)) k in
  let opad := map (fun b => byte_of_Z (Z.lxor (byte_to_Z b) 0x5c)) k in
  sha256 (opad ++ sha256 (ipad ++ msg)).

Fixpoint pbkdf2_loop (password : bytes) (n : nat) (u t : bytes) : bytes :=
  match n with
  | O => t
  | S n' =>
      let u' := hmac_sha256 password u in
      pbkdf2_loop password n' u' (xor_bytes t u')
  end.

(** [hashlib.pbkdf2_hmac('sha256', password, salt, iterations)] with the
    default derived-key length (one 32-byte block). *)
Definition pbkdf2_hmac_sha256 (password salt : bytes) (iterations : nat) : bytes :=
  let u1 := hmac_sha256 password (salt ++ Z_to_be 4 1) in
  pbkdf2_loop password (iterations - 1) u1 u1.

End Hashlib.


(* ===================================================================== *)
(** * Python values used by the services *)
(* ===================================================================== *)

Module Py.

(** Strict order on rationals as a boolean. *)
Definition Qltb (x y : Q) : bool :=
  (Qnum x * Zpos (Qden y) <? Qnum y * Zpos (Qden x)).

(** A [float]: finite, infinite or NaN. *)
Inductive pyfloat : Type :=
| Fin (q : Q)
| PInf
| NInf
| NaN.

Definition of_Z (z : Z) : pyfloat := Fin (inject_Z z).

(** [a < b] *)
Definition flt (a b : pyfloat) : bool :=
  match a, b with
  | NaN, _ | _, NaN => false
  | Fin x, Fin y => Qltb x y
  | NInf, NInf => false
  | NInf, _ => true
  | _, PInf => match a with PInf => false | _ => true end
  | _, _ => false
  end.

(** [a > b], [a >= b], [a <= b] *)
Definition fgt (a b : pyfloat) : bool := flt b a.
Definition fle (a b : pyfloat) : bool :=
  match a, b with
  | NaN, _ | _, NaN => false
  | Fin x, Fin y => Qle_bool x y
  | NInf, _ => true
  | _, PInf => true
  | _, _ => false
  end.
Definition fge (a b : pyfloat) : bool := fle b a.

(** Truth value of a float: everything but zero, NaN included. *)
Definition truthy (a : pyfloat) : bool :=
  match a with
  | Fin q => negb (Qeq_bool q 0)
  | _ => true
  end.

Definition fadd (a b : pyfloat) : pyfloat :=
  match a, b with
  | NaN, _ | _, NaN => NaN
  | Fin x, Fin y => Fin (x + y)
  | PInf, NInf | NInf, PInf => NaN
  | PInf, _ | _, PInf => PInf
  | NInf, _ | _, NInf => NInf
  end.

Definition fmul (a b : pyfloat) : pyfloat :=
  let sgn q := if Qltb 0 q then Some true else if Qltb q 0 then Some false else None in
  let inf (pos : bool) := if pos then PInf else NInf in
  match a, b with
  | NaN, _ | _, NaN => NaN
  | Fin x, Fin y => Fin (x * y)
  | PInf, Fin q | Fin q, PInf =>
      match sgn q with Some s => inf s | None => NaN end
  | NInf, Fin q | Fin q, NInf =>
      match sgn q with Some s => inf (negb s) | None => NaN end
  | PInf, PInf | NInf, NInf => PInf
  | PInf, NInf | NInf, PInf => NaN
  end.

(** [min(a, b)] and [max(a, b)] as the builtins compute them: the first
    argument is kept unless the second compares strictly below (above). *)
Definition py_min (a b : pyfloat) : pyfloat := if flt b a then b else a.
Definition py_max (a b : pyfloat) : pyfloat := if fgt b a then b else a.

(** [int(x)]: truncation toward zero; raises on infinities and NaN. *)
Definition py_int (a : pyfloat) : option Z :=
  match a with
  | Fin q => Some (Z.quot (Qnum q) (Zpos (Qden q)))
  | _ => None
  end.

(** An element handed to [float(x)]: either it converts, or [float]
    raises (None, a non-numeric string, ...). *)
Inductive pyobj : Type :=
| Num (f : pyfloat)
| NotNum.

Definition float (x : pyobj) : option pyfloat :=
  match x with
  | Num f => Some f
  | NotNum => None
  end.

(** [[float(x) for x in vector]]; [None] when a conversion raises. *)
Fixpoint floats (vector : list pyobj) : option (list pyfloat) :=
  match vector with
  | [] => Some []
  | x :: v' =>
      match float x, floats v' with
      | Some f, Some fs => Some (f :: fs)
      | _, _ => None
      end
  end.

Definition finite (a : pyfloat) : bool :=
  match a with Fin _ => true | _ => false end.

(** Text is processed as a list of characters. *)
Definition text := list ascii.
Definition text_of (s : string) : text := String.list_ascii_of_string s.
Definition to_string (t : text) : string := String.string_of_list_ascii t.

(** [c.isspace()] on the ASCII range. *)
Definition is_space (c : ascii) : bool :=
  let n := nat_of_ascii c in
  ((9 <=? n) && (n <=? 13) || (28 <=? n) && (n <=? 32))%nat.

Fixpoint lstrip (t : text) : text :=
  match t with
  | c :: t' => if is_space c then lstrip t' else t
  | [] => []
  end.

(** [s.strip()] *)
Definition strip (t : text) : text := rev (lstrip (rev (lstrip t))).

(** [c.isdigit()] and [s.lower()] on the ASCII range. *)
Definition is_digit (c : ascii) : bool :=
  let n := nat_of_ascii c in ((48 <=? n) && (n <=? 57))%nat.

Definition lower_char (c : ascii) : ascii :=
  let n := nat_of_ascii c in
  if ((65 <=? n) && (n <=? 90))%nat then ascii_of_nat (n + 32) else c.

Fixpoint lower (s : string) : string :=
  match s with
  | EmptyString => EmptyString
  | String c s' => String (lower_char c) (lower s')
  end.

(** [pattern in s] for strings. *)
Fixpoint contains (pattern s : string) : bool :=
  String.prefix pattern s ||
  match s with
  | EmptyString => false
  | String _ s' => contains pattern s'
  end.

(** [any(pattern in s for pattern in patterns)] *)
Definition any_in (patterns : list string) (s : string) : bool :=
  existsb (fun pattern => contains pattern s) patterns.

Fixpoint has_char (p : ascii -> bool) (s : string) : bool :=
  match s with
  | EmptyString => false
  | String c s' => p c || has_char p s'
  end.

End Py.

(* ===================================================================== *)
(** * services/ml_adapter.py: ProductionMLAdapter *)
(* ===================================================================== *)

Module MlAdapter.
Import Py.

Section Adapter.

(** The fitted scikit-learn objects are external; a call that raises
    yields [None]. *)
Variables Model Scaler : Type.
Variable transform : Scaler -> list pyfloat -> option (list pyfloat).
Variable decision_function : Model -> list pyfloat -> option pyfloat.
(** Module constant: whether the metrics counters exist. *)
Variable PROM_AVAILABLE : bool.

Record Adapter : Type := mkAdapter {
  _model : option Model;
  _scaler : option Scaler;
  _buffer : list (list pyfloat);
  _max_buffer : Z;
  _min_samples : Z;
  _trained : bool;
  SCORE_CALLS : Z;
  OBSERVATIONS : Z
}.

Definition set_buffer (self : Adapter) (b : list (list pyfloat)) : Adapter :=
  mkAdapter (_model self) (_scaler self) b (_max_buffer self)
            (_min_samples self) (_trained self) (SCORE_CALLS self) (OBSERVATIONS self).

Definition inc_observations (self : Adapter) : Adapter :=
  mkAdapter (_model self) (_scaler self) (_buffer self) (_max_buffer self)
            (_min_samples self) (_trained self) (SCORE_CALLS self) (OBSERVATIONS self + 1).

Definition inc_score_calls (self : Adapter) : Adapter :=
  mkAdapter (_model self) (_scaler self) (_buffer self) (_max_buffer self)
            (_min_samples self) (_trained self) (SCORE_CALLS self + 1) (OBSERVATIONS self).

(** [add_observation]: the only check is the conversion to float. *)
Definition add_observation (self : Adapter) (vector : list pyobj) : Adapter :=
  match floats vector with
  | None => self
  | Some vec =>
      let buf := _buffer self ++ [vec] in
      let buf := if (_max_buffer self <? Z.of_nat (length buf)) then tail buf else buf in
      let self := set_buffer self buf in
      if PROM_AVAILABLE then inc_observations self else self
  end.

(** [vector[i]] converted, or the default when the vector is shorter. *)
Definition component (vector : list pyobj) (i : nat) (default : pyfloat) : option pyfloat :=
  match nth_error vector i with
  | Some x => float x
  | None => Some default
  end.

Definition _heuristic_score (vector : list pyobj) : Z :=
  let '(padded_size, interval, dest_count, device_change) :=
    match component vector 0 (of_Z 0), component vector 1 (of_Z 0),
          component vector 2 (of_Z 1), component vector 3 (of_Z 0) with
    | Some p, Some i, Some d, Some c => (p, i, d, c)
    | _, _, _, _ => (of_Z 0, of_Z 0, of_Z 1, of_Z 0)
    end in
  let score := 70 in
  let score :=
    if fgt padded_size (of_Z (50 * 1024)) then score - 35
    else if fgt padded_size (of_Z (10 * 1024)) then score - 20
    else if fgt padded_size (of_Z (2 * 1024)) then score - 10
    else score in
  let score :=
    if flt interval (of_Z 1) then score - 30
    else if flt interval (of_Z 5) then score - 10
    else score in
  let score :=
    if fge dest_count (of_Z 10) then score - 30
    else if fge dest_count (of_Z 3) then score - 12
    else score in
  let score := if truthy device_change then score - 30 else score in
  Z.max 0 (Z.min 100 score).

(** [score]: result and adapter state after the call. *)
Definition score (self : Adapter) (vector : list pyobj) : Z * Adapter :=
  let self := if PROM_AVAILABLE then inc_score_calls self else self in
  match floats vector with
  | None => (0, self)
  | Some vec =>
      match _trained self, _model self with
      | true, Some model =>
          let vec_scaled :=
            match _scaler self with
            | Some scaler =>
                match transform scaler vec with
                | Some v => v
                | None => vec
                end
            | None => vec
            end in
          match decision_function model vec_scaled with
          | Some df =>
              let x := fadd (of_Z 50) (fmul df (of_Z 50)) in
              match py_int (py_max (of_Z 0) (py_min (of_Z 100) x)) with
              | Some scaled => (scaled, self)
              | None => (_heuristic_score vector, self)
              end
          | None => (_heuristic_score vector, self)
          end
      | _, _ => (_heuristic_score vector, self)
      end
  end.

(** Training. [StandardScaler().fit_transform] and
    [IsolationForest(...).fit] are external and may raise ([None]);
    [SCALE_FEATURES] is a module constant. *)
Variable SCALE_FEATURES : bool.
Variable fit_transform : list (list pyfloat) -> option (list (list pyfloat) * Scaler).
Variable fit : list (list pyfloat) -> option Model.

(** [np.array(buffer, dtype=float)]: raises when the rows differ in
    length. *)
Definition np_array (buffer : list (list pyfloat)) : option (list (list pyfloat)) :=
  match buffer with
  | [] => Some []
  | row :: rows =>
      if forallb (fun r => (length r =? length row)%nat) rows then Some buffer else None
  end.

(** The outcome of a call: a value, or an exception leaving the call. *)
Inductive Outcome (A : Type) : Type :=
| Returns (a : A)
| Raises.

(** [_prepare_training_data]: nothing when the buffer is short, else the
    matrix and the scaler fitted on it. *)
Definition _prepare_training_data (self : Adapter)
    : Outcome (option (list (list pyfloat) * option Scaler)) :=
  if Z.of_nat (length (_buffer self)) <? _min_samples self then Returns _ None
  else
    match np_array (_buffer self) with
    | None => Raises _
    | Some X =>
        if SCALE_FEATURES then
          match fit_transform X with
          | Some (Xs, scaler) => Returns _ (Some (Xs, Some scaler))
          | None => Raises _
          end
        else Returns _ (Some (X, None))
    end.

(** [_train_model]: [None] when fitting raises. *)
Definition _train_model (self : Adapter) (X : list (list pyfloat))
    (scaler : option Scaler) : option Adapter :=
  match fit X with
  | Some model =>
      Some (mkAdapter (Some model) scaler (_buffer self) (_max_buffer self)
              (_min_samples self) true (SCORE_CALLS self) (OBSERVATIONS self))
  | None => None
  end.

(** [force_retrain]: the preparation runs outside the [try], so what it
    raises leaves the call; a failing fit is caught and gives [False]. *)
Definition force_retrain (self : Adapter) : Outcome (bool * Adapter) :=
  match _prepare_training_data self with
  | Raises _ => Raises _
  | Returns _ None => Returns _ (false, self)
  | Returns _ (Some (X, scaler)) =>
      match _train_model self X scaler with
      | Some self' => Returns _ (true, self')
      | None => Returns _ (false, self)
      end
  end.

End Adapter.

Arguments _model {Model Scaler} _.
Arguments _scaler {Model Scaler} _.
Arguments _buffer {Model Scaler} _.
Arguments _max_buffer {Model Scaler} _.
Arguments _min_samples {Model Scaler} _.
Arguments _trained {Model Scaler} _.
Arguments SCORE_CALLS {Model Scaler} _.
Arguments OBSERVATIONS {Model Scaler} _.
Arguments mkAdapter {Model Scaler} _ _ _ _ _ _ _ _.
Arguments add_observation {Model Scaler} _ _ _.
Arguments score {Model Scaler} _ _ _ _ _.
Arguments Returns {A} _.
Arguments Raises {A}.
Arguments force_retrain {Model Scaler} _ _ _ _.
Arguments _prepare_training_data {Model Scaler} _ _ _.

(** The heuristic as the specification words it, on the four named
    components. *)
Definition size_penalty (padded_size : pyfloat) : Z :=
  if fgt padded_size (of_Z 51200) then 35
  else if fgt padded_size (of_Z 10240) then 20
  else if fgt padded_size (of_Z 2048) then 10 else 0.

Definition interval_penalty (interval : pyfloat) : Z :=
  if flt interval (of_Z 1) then 30 else if flt interval (of_Z 5) then 10 else 0.

Definition dest_penalty (dest_count : pyfloat) : Z :=
  if fge dest_count (of_Z 10) then 30 else if fge dest_count (of_Z 3) then 12 else 0.

Definition device_penalty (device_change : pyfloat) : Z :=
  if truthy device_change then 30 else 0.

Definition clamp (lo hi x : Z) : Z := Z.max lo (Z.min hi x).

Definition heuristic_spec (padded_size interval dest_count device_change : pyfloat) : Z :=
  clamp 0 100 (70 - size_penalty padded_size - interval_penalty interval
               - dest_penalty dest_count - device_penalty device_change).

End MlAdapter.

(* ===================================================================== *)
(** * services/policy.py: the policy engine *)
(* ===================================================================== *)

Module Policy.

Inductive Action : Type :=
| allow
| require_reauth
| block
| pending_approval.

(** The module-level configuration. *)
Record Config : Type := mkConfig {
  THRESH_ALLOW : Z;
  THRESH_REAUTH : Z;
  SHADOW_MODE : bool;
  CANARY_FRACTION : Q;
  EXCEPTION_QUOTA : Z;
  EXCEPTION_WINDOW_SEC : Z
}.

(** What [decide_action] reads from [metadata_summary]:
    the truth value of ["exception_flag"] and the two summary numbers. *)
Record MetadataSummary : Type := mkSummary {
  exception_flag : bool;
  padded_size : option Z;
  dest_count : option Z
}.

Record AuditEvent : Type := mkEvent {
  ev_ts : Z;
  ev_token_hash : string;
  ev_action : Action;
  ev_policy : Action;
  ev_risk : Z;
  ev_reason : string;
  ev_client_ip_hash : option string;
  ev_padded_size : option Z;
  ev_dest_count : option Z;
  ev_exception_flag : bool;
  ev_actor : option string
}.

(** Mutable module state: the exception ledger and the audit file (the
    lines appended so far). *)
Record State : Type := mkState {
  _exception_events : gmap string (list Q);
  audit_log : list AuditEvent
}.

Record Decision : Type := mkDecision {
  action : Action;
  policy : Action;
  enforced : bool;
  reason : string;
  token_hash : string
}.

Definition _opaque_id (val : string) : string :=
  Hashlib.sha256_hexdigest (Hashlib.encode val).

(** [int(time.time())] *)
Definition int_of_time (now : Q) : Z := Z.quot (Qnum now) (Zpos (Qden now)).

Definition record_audit (now : Q) (ev : Z -> AuditEvent) (st : State) : State :=
  mkState (_exception_events st) (audit_log st ++ [ev (int_of_time now)]).

(** [_within_exception_quota]: check and update, under the lock. *)
Definition _within_exception_quota (cfg : Config) (now : Q) (key : string)
    (events_map : gmap string (list Q)) : bool * gmap string (list Q) :=
  let window_start := (now - inject_Z (EXCEPTION_WINDOW_SEC cfg))%Q in
  let events := default [] (events_map !! key) in
  let events := List.filter (fun ts => Qle_bool window_start ts) events in
  if (EXCEPTION_QUOTA cfg <=? Z.of_nat (length events)) then
    (false, <[key := events]> events_map)
  else
    (true, <[key := events ++ [now]]> events_map).

(** The double nearest to the integer [n] (ties to even), for
    [0 <= n < 2^64]; this is the conversion of the left operand in
    [int / float]. *)
Definition float_of_int (n : Z) : Z :=
  if n <? 2 ^ 53 then n
  else
    let k := Z.log2 n - 52 in
    let q := Z.shiftr n k in
    let r := Z.land n (2 ^ k - 1) in
    let half := 2 ^ (k - 1) in
    if (half <? r) || ((r =? half) && Z.odd q) then (q + 1) * 2 ^ k
    else q * 2 ^ k.

(** [int.from_bytes(h[:8], "big") / float(2**64)] *)
Definition canary_val (token : string) : Q :=
  let h := Hashlib.sha256 (Hashlib.encode token) in
  Qmake (float_of_int (Hashlib.be_to_Z (firstn 8 h))) (2 ^ 64).

Definition _should_enforce_canary (cfg : Config) (token : string) : bool :=
  if Qle_bool 1 (CANARY_FRACTION cfg) then true
  else if Qle_bool (CANARY_FRACTION cfg) 0 then false
  else Py.Qltb (canary_val token) (CANARY_FRACTION cfg).

(** Step 1: the action the thresholds give. *)
Definition threshold_action (cfg : Config) (risk_score : Z) : Action * string :=
  if THRESH_ALLOW cfg <=? risk_score then (allow, "risk >= allow_threshold")
  else if THRESH_REAUTH cfg <=? risk_score then (require_reauth, "risk in reauth range")
  else (block, "risk < reauth_threshold (suspicious)").

Definition action_eqb (a b : Action) : bool :=
  match a, b with
  | allow, allow | require_reauth, require_reauth
  | block, block | pending_approval, pending_approval => true
  | _, _ => false
  end.

(** [actor or token] *)
Definition quota_key (actor : option string) (token : string) : string :=
  match actor with
  | Some a => if String.eqb a "" then token else a
  | None => token
  end.

(** Step 2: the exception logic; returns the raw action, the reason and
    the ledger. *)
Definition apply_exception (cfg : Config) (now : Q) (token : string)
    (metadata_summary : option MetadataSummary) (actor : option string)
    (raw : Action * string) (events_map : gmap string (list Q))
    : Action * string * gmap string (list Q) :=
  let flag := match metadata_summary with Some m => exception_flag m | None => false end in
  if flag then
    let '(ok, events_map) :=
      _within_exception_quota cfg now (quota_key actor token) events_map in
    if ok then
      if action_eqb (fst raw) block then
        (pending_approval, "exception requested by user; queued for admin review", events_map)
      else (fst raw, "exception used; allowed but logged", events_map)
    else (block, "exception quota exceeded; blocked", events_map)
  else (fst raw, snd raw, events_map).

Definition decide_action (cfg : Config) (now : Q) (risk_score : Z) (token : string)
    (metadata_summary : option MetadataSummary) (client_ip : option string)
    (actor : option string) (st : State) : Decision * State :=
  let token_hash := _opaque_id token in
  let client_ip_hash := option_map _opaque_id client_ip in
  let '(raw_action, reason, events_map) :=
    apply_exception cfg now token metadata_summary actor
      (threshold_action cfg risk_score) (_exception_events st) in
  let enforce :=
    if SHADOW_MODE cfg then false
    else if negb (_should_enforce_canary cfg token) then false
    else true in
  let policy := raw_action in
  let action := if negb enforce then allow else raw_action in
  let summary_get {A} (f : MetadataSummary -> option A) :=
    match metadata_summary with Some m => f m | None => None end in
  let event ts :=
    mkEvent ts token_hash action policy risk_score reason client_ip_hash
      (summary_get padded_size) (summary_get dest_count)
      (match metadata_summary with Some m => exception_flag m | None => false end)
      (match actor with
       | Some a => if String.eqb a "" then None else Some (_opaque_id a)
       | None => None
       end) in
  let st := record_audit now event (mkState events_map (audit_log st)) in
  (mkDecision action policy enforce reason token_hash, st).

(** The raw action of a decision: the threshold action, possibly changed
    by the exception step. *)
Definition raw_action (cfg : Config) (now : Q) (risk : Z) (token : string)
    (summary : option MetadataSummary) (actor : option string) (st : State) : Action :=
  fst (fst (apply_exception cfg now token summary actor (threshold_action cfg risk)
              (_exception_events st))).

(** A submission handed to the engine at clock reading [c_now]. *)
Record Call : Type := mkCall {
  c_now : Q;
  c_risk : Z;
  c_token : string;
  c_summary : option MetadataSummary;
  c_client_ip : option string;
  c_actor : option string
}.

Definition call (cfg : Config) (c : Call) (st : State) : Decision * State :=
  decide_action cfg (c_now c) (c_risk c) (c_token c) (c_summary c)
    (c_client_ip c) (c_actor c) st.

(** A sequence of submissions served one after the other. *)
Fixpoint run (cfg : Config) (cs : list Call) (st : State) : list Decision * State :=
  match cs with
  | [] => ([], st)
  | c :: cs' =>
      let '(d, st') := call cfg c st in
      let '(ds, st'') := run cfg cs' st' in
      (d :: ds, st'')
  end.

Definition initial_state : State := mkState ∅ [].

(** The timestamps recorded for [key] within the last window. *)
Definition recent_exceptions (cfg : Config) (now : Q) (key : string)
    (events_map : gmap string (list Q)) : list Q :=
  List.filter (fun ts => Qle_bool (now - inject_Z (EXCEPTION_WINDOW_SEC cfg))%Q ts)
    (default [] (events_map !! key)).

(** The ledger key a submission is counted under, and whether it carries
    the exception flag. *)
Definition call_key (c : Call) : string := quota_key (c_actor c) (c_token c).

Definition flagged (c : Call) : bool :=
  match c_summary c with
  | Some m => exception_flag m
  | None => false
  end.

(** A served submission of [key] that was downgraded from block to pending
    approval at a time within the window [a, a + EXCEPTION_WINDOW_SEC]. *)
Definition downgraded_in_window (cfg : Config) (key : string) (a : Q)
    (cd : Call * Decision) : bool :=
  flagged (fst cd) && String.eqb (call_key (fst cd)) key
  && action_eqb (policy (snd cd)) pending_approval
  && Qle_bool a (c_now (fst cd))
  && Qle_bool (c_now (fst cd)) (a + inject_Z (EXCEPTION_WINDOW_SEC cfg))%Q.

(** Clock readings of a served sequence never go back. *)
Fixpoint nondecreasing (ts : list Q) : Prop :=
  match ts with
  | [] => True
  | t :: ts' => Forall (fun t' => (t <= t')%Q) ts' /\ nondecreasing ts'
  end.

Definition default_config : Config :=
  mkConfig 70 40 false 1 5 (24 * 3600).

End Policy.

(* ===================================================================== *)
(** * services/forensic_resistant_storage.py: the ephemeral store *)
(* ===================================================================== *)

Module Storage.

Abbreviation bytes := (list byte).

(** Byte buffers ([bytearray] and [bytes] objects) live in a heap and are
    held by reference. *)
Abbreviation loc := positive.

(** [secrets]: an unbounded supply of random bytes and a cursor. *)
Record Entropy : Type := mkEntropy {
  source : nat -> byte;
  cursor : nat
}.

(** [secrets.token_bytes(n)] *)
Definition token_bytes (n : nat) (e : Entropy) : bytes * Entropy :=
  (map (fun i => source e (cursor e + i)%nat) (seq 0 n),
   mkEntropy (source e) (cursor e + n)).

Record Entry : Type := mkEntry {
  ciphertext : loc;
  expire_at : Q;
  read : bool;
  created_at : Q;
  access_count : Z;
  forensic_id : string
}.

Record Store : Type := mkStore {
  _store : gmap string Entry;
  _deletion_queue : list string;
  heap : gmap loc bytes;
  entropy : Entropy
}.

(** The dictionary [get] hands out. *)
Record Fetched : Type := mkFetched {
  f_ciphertext : loc;
  f_expire_at : Q;
  f_read : bool;
  f_forensic_id : string
}.

(** A new object holding [data]. *)
Definition alloc (data : bytes) (h : gmap loc bytes) : loc * gmap loc bytes :=
  let l := fresh (dom h) in (l, <[l := data]> h).

Definition empty_store (e : Entropy) : Store := mkStore ∅ [] ∅ e.

Section Store.

(** Module constant [SECURE_DELETE_PASSES] and the text of a clock
    reading inside an f-string. *)
Variable SECURE_DELETE_PASSES : Z.
Variable str_of_time : Q -> string.

(** [SecureMemoryManager.secure_allocate]: a fresh buffer of random
    bytes. *)
Definition secure_allocate (size : nat) (st : Store) : loc * Store :=
  let '(data, e) := token_bytes size (entropy st) in
  let '(l, h) := alloc data (heap st) in
  (l, mkStore (_store st) (_deletion_queue st) h e).

(** [SecureMemoryManager.secure_deallocate]: the buffer after the
    overwrite passes (zeros, ones, random, then further random ones).
    Reading [data[0]] after a pass raises on an empty buffer, which
    ends the passes. *)
Definition secure_deallocate (l : loc) (passes : Z) (st : Store) : Store :=
  match heap st !! l with
  | None => st
  | Some data =>
      let n := length data in
      let '(rnd, e) := token_bytes n (entropy st) in
      if (n =? 0)%nat then
        mkStore (_store st) (_deletion_queue st) (heap st) e
      else
        let final :=
          if passes <=? 0 then data
          else if passes =? 1 then repeat x00 n
          else if passes =? 2 then repeat xff n
          else rnd in
        let '(final, e) :=
          if 3 <? passes then
            fold_left (fun acc _ => token_bytes n (snd acc))
                      (seq 0 (Z.to_nat (passes - 3))) (final, e)
          else (final, e) in
        mkStore (_store st) (_deletion_queue st) (<[l := final]> (heap st)) e
  end.

Definition _generate_forensic_id (now : Q) (token : string) (st : Store)
    : string * Store :=
  let '(rnd, e) := token_bytes 8 (entropy st) in
  let data := token +:+ "_" +:+ str_of_time now +:+ "_" +:+ Hashlib.hex rnd in
  (String.substring 0 16 (Hashlib.sha256_hexdigest (Hashlib.encode data)),
   mkStore (_store st) (_deletion_queue st) (heap st) e).

(** [put]; [now], [now_created] and [now_id] are the three successive
    clock readings of the call. *)
Definition put (now now_created now_id : Q) (token : string) (data : bytes)
    (ttl_seconds : Z) (st : Store) : Store :=
  let expire_at := (now + inject_Z ttl_seconds)%Q in
  let '(secure_ciphertext, st) := secure_allocate (length data) st in
  let st := mkStore (_store st) (_deletion_queue st)
              (<[secure_ciphertext := data]> (heap st)) (entropy st) in
  let '(fid, st) := _generate_forensic_id now_id token st in
  let entry := mkEntry secure_ciphertext expire_at false now_created 0 fid in
  mkStore (<[token := entry]> (_store st)) (_deletion_queue st) (heap st) (entropy st).

Definition _queue_secure_deletion (token : string) (st : Store) : Store :=
  if bool_decide (token ∈ _deletion_queue st) then st
  else mkStore (_store st) (_deletion_queue st ++ [token]) (heap st) (entropy st).

Definition get (now : Q) (token : string) (st : Store) : option Fetched * Store :=
  match _store st !! token with
  | None => (None, st)
  | Some entry =>
      if Py.Qltb (expire_at entry) now then
        (None, _queue_secure_deletion token st)
      else
        let entry' := mkEntry (ciphertext entry) (expire_at entry) (read entry)
                        (created_at entry) (access_count entry + 1)
                        (forensic_id entry) in
        let '(copy, h) := alloc (default [] (heap st !! ciphertext entry)) (heap st) in
        (Some (mkFetched copy (expire_at entry) (read entry) (forensic_id entry)),
         mkStore (<[token := entry']> (_store st)) (_deletion_queue st) h (entropy st))
  end.

Definition mark_read_and_delete (token : string) (st : Store) : bool * Store :=
  match _store st !! token with
  | None => (false, st)
  | Some _ => (true, _queue_secure_deletion token st)
  end.

(** [int(max(0, expire_at - now))] *)
Definition remaining_seconds (expire now : Q) : Z :=
  let d := (expire - now)%Q in
  if Py.Qltb 0 d then Z.quot (Qnum d) (Zpos (Qden d)) else 0.

Definition ttl_remaining (now : Q) (token : string) (st : Store) : option Z * Store :=
  match _store st !! token with
  | None => (None, st)
  | Some entry =>
      let remaining := remaining_seconds (expire_at entry) now in
      if remaining =? 0 then (None, _queue_secure_deletion token st)
      else (Some remaining, st)
  end.

(** [_secure_delete_entry]: the entry leaves the map and its buffer is
    overwritten, once for the ciphertext and once more in the sweep over
    the entry's fields. *)
Definition _secure_delete_entry (token : string) (st : Store) : Store :=
  match _store st !! token with
  | None => st
  | Some entry =>
      let st := mkStore (delete token (_store st)) (_deletion_queue st)
                  (heap st) (entropy st) in
      let st := secure_deallocate (ciphertext entry) SECURE_DELETE_PASSES st in
      secure_deallocate (ciphertext entry) SECURE_DELETE_PASSES st
  end.

(** Tokens of the entries with [expire_at <= now], in dictionary order. *)
Definition expired_tokens (now : Q) (st : Store) : list string :=
  map fst (List.filter (fun kv => Qle_bool (expire_at (snd kv)) now)
             (map_to_list (_store st))).

(** One iteration of [_secure_cleanup_loop] at clock reading [now]. *)
Definition _secure_cleanup_tick (now : Q) (st : Store) : Store :=
  let tokens_to_delete := _deletion_queue st in
  let st := mkStore (_store st) [] (heap st) (entropy st) in
  let st := fold_left (fun s t => _secure_delete_entry t s) tokens_to_delete st in
  fold_left (fun s t => _queue_secure_deletion t s) (expired_tokens now st) st.

(** [force_secure_cleanup]: everything is queued, then the queue is
    drained from the front. *)
Fixpoint drain (fuel : nat) (st : Store) (deleted : Z) : Z * Store :=
  match fuel with
  | O => (deleted, st)
  | S fuel' =>
      match _deletion_queue st with
      | [] => (deleted, st)
      | token :: q =>
          let st := mkStore (_store st) q (heap st) (entropy st) in
          drain fuel' (_secure_delete_entry token st) (deleted + 1)
      end
  end.

Definition force_secure_cleanup (st : Store) : Z * Store :=
  let st := fold_left (fun s t => _queue_secure_deletion t s)
              (map fst (map_to_list (_store st))) st in
  drain (length (_deletion_queue st)) st 0.

(** A holder of the object at [l] overwriting its content. *)
Definition overwrite (l : loc) (data : bytes) (st : Store) : Store :=
  mkStore (_store st) (_deletion_queue st) (<[l := data]> (heap st)) (entropy st).

(** The bytes a reader finds behind what [get] returned. *)
Definition fetched_bytes (r : option Fetched * Store) : option bytes :=
  match fst r with
  | Some f => heap (snd r) !! f_ciphertext f
  | None => None
  end.

(** The bytes the store holds for [token]. *)
Definition stored_bytes (token : string) (st : Store) : option bytes :=
  match _store st !! token with
  | Some entry => heap st !! ciphertext entry
  | None => None
  end.

(** The calls made on the store, by clients and by the cleanup thread,
    with the clock readings each one takes. *)
Inductive Op : Type :=
| op_put (now now_created now_id : Q) (token : string) (data : bytes) (ttl_seconds : Z)
| op_get (now : Q) (token : string)
| op_mark_read_and_delete (token : string)
| op_ttl_remaining (now : Q) (token : string)
| op_cleanup_tick (now : Q)
| op_force_secure_cleanup.

Definition apply_op (op : Op) (st : Store) : Store :=
  match op with
  | op_put now now_created now_id token data ttl_seconds =>
      put now now_created now_id token data ttl_seconds st
  | op_get now token => snd (get now token st)
  | op_mark_read_and_delete token => snd (mark_read_and_delete token st)
  | op_ttl_remaining now token => snd (ttl_remaining now token st)
  | op_cleanup_tick now => _secure_cleanup_tick now st
  | op_force_secure_cleanup => snd (force_secure_cleanup st)
  end.

(** Calls served one at a time. *)
Definition serve (ops : list Op) (st : Store) : Store :=
  fold_left (fun s op => apply_op op s) ops st.

End Store.

End Storage.

(* ===================================================================== *)
(** * schemas.py: the request models of the wire surface *)
(* ===================================================================== *)

Module Schemas.

(** [constr(strip_whitespace=True)] *)
Definition strip (s : string) : string :=
  Py.to_string (Py.strip (Py.text_of s)).



End Schemas.

(* ===================================================================== *)
(** * services/metadata_sanitizer.py: analyzer and sanitizer *)
(* ===================================================================== *)

Module Sanitizer.
Import Py.

(** A metadata value. [VOther] is any object that is neither a string nor
    a number (None, a list, ...), carried with its [str()] text. *)
Inductive pyval : Type :=
| VStr (s : string)
| VInt (z : Z)
| VFloat (f : pyfloat)
| VBool (b : bool)
| VOther (repr : string).

(** A [dict] with string keys, in insertion order. *)
Definition Metadata := list (string * pyval).

(** [d[k] = v] *)
Fixpoint dict_set (d : Metadata) (k : string) (v : pyval) : Metadata :=
  match d with
  | [] => [(k, v)]
  | (k', v') :: d' =>
      if String.eqb k' k then (k, v) :: d' else (k', v') :: dict_set d' k v
  end.

Fixpoint dict_get (d : Metadata) (k : string) : option pyval :=
  match d with
  | [] => None
  | (k', v') :: d' => if String.eqb k' k then Some v' else dict_get d' k
  end.

Definition keys (d : Metadata) : list string := map fst d.

Record Config : Type := mkConfig {
  METADATA_SANITIZATION_ENABLED : bool;
  SENSITIVE_FIELD_THRESHOLD : Q;
  ENABLE_METADATA_OBFUSCATION : bool
}.

Definition default_config : Config := mkConfig true (7 # 10) true.

(** [secrets.randbelow]: a supply of raw draws and a cursor. *)
Record Rng : Type := mkRng {
  draws : nat -> Z;
  next : nat
}.

Definition randbelow (n : Z) (r : Rng) : Z * Rng :=
  (draws r (next r) mod n, mkRng (draws r) (S (next r))).

Definition _sensitive_fields : list string :=
  [ "user_id"; "username"; "email"; "phone"; "device_id"; "device_fingerprint";
    "ip_address"; "mac_address"; "location"; "gps"; "coordinates"; "address";
    "browser_info"; "user_agent"; "session_id"; "cookie"; "token_raw";
    "timestamp_raw"; "exact_time"; "precise_location"; "personal_info";
    "contact_info"; "identity"; "real_name"; "social_security"; "passport";
    "credit_card"; "bank_account"; "financial_info"; "medical_info";
    "biometric_data"; "face_id"; "fingerprint"; "voice_print" ].

Definition _medium_risk_fields : list string :=
  [ "timestamp"; "time"; "date"; "created_at"; "updated_at"; "last_seen";
    "message_count"; "frequency"; "pattern"; "behavior"; "activity";
    "network_info"; "connection_type"; "bandwidth"; "latency" ].

Definition _low_risk_fields : list string :=
  [ "message_size"; "padded_size"; "ttl"; "priority"; "type"; "category" ].

(** Numeric view of a value for [isinstance(value, (int, float))];
    [bool] is a subclass of [int]. *)
Definition as_number (v : pyval) : option pyfloat :=
  match v with
  | VInt z => Some (of_Z z)
  | VFloat f => Some f
  | VBool b => Some (of_Z (if b then 1 else 0))
  | _ => None
  end.

Definition Qmin (a b : Q) : Q := if Qltb b a then b else a.

Definition _ai_assess_field (field_name : string) (value : pyval) : Q :=
  let risk_score := 0%Q in
  let risk_score :=
    match value with
    | VStr s =>
        let r := if (0 <? String.length s)%nat && has_char is_digit s
                 then (risk_score + (3 # 10))%Q else risk_score in
        let r := if contains "@" s then (r + (8 # 10))%Q
                 else if contains "." s then (r + (6 # 10))%Q
                 else r in
        if (String.length s =? 36)%nat && contains "-" s then (r + (5 # 10))%Q else r
    | _ =>
        match as_number value with
        | Some x =>
            if fgt x (of_Z 1000000000) && flt x (of_Z 2000000000)
            then (risk_score + (4 # 10))%Q else risk_score
        | None => risk_score
        end
    end in
  let suspicious_keywords :=
    ["id"; "key"; "secret"; "private"; "personal"; "user"; "client"] in
  let risk_score :=
    if any_in suspicious_keywords (lower field_name)
    then (risk_score + (3 # 10))%Q else risk_score in
  Qmin 1 risk_score.

Inductive RiskLevel : Type := high | medium | low.

Definition _assess_field_risk (field_name : string) (value : pyval) : RiskLevel :=
  if any_in _sensitive_fields field_name then high
  else if any_in _medium_risk_fields field_name then medium
  else if any_in _low_risk_fields field_name then low
  else
    let risk_score := _ai_assess_field field_name value in
    if Qltb (7 # 10) risk_score then high
    else if Qltb (4 # 10) risk_score then medium
    else low.

Record Analysis : Type := mkAnalysis {
  a_risk_score : Q;
  a_sensitive_fields : list string;
  a_medium_risk_fields : list string;
  a_low_risk_fields : list string;
  a_sanitization_required : bool
}.

(** [analyze_metadata]. The recommendation texts and the analyzer's
    pattern history, which nothing in the sanitizer reads, are left
    out. *)
Definition analyze_metadata (metadata : Metadata) : Analysis :=
  let step (a : Analysis) (kv : string * pyval) : Analysis :=
    let field := fst kv in
    match _assess_field_risk (lower field) (snd kv) with
    | high =>
        mkAnalysis (a_risk_score a + (8 # 10))%Q (a_sensitive_fields a ++ [field])
          (a_medium_risk_fields a) (a_low_risk_fields a) true
    | medium =>
        mkAnalysis (a_risk_score a + (4 # 10))%Q (a_sensitive_fields a)
          (a_medium_risk_fields a ++ [field]) (a_low_risk_fields a)
          (a_sanitization_required a)
    | low =>
        mkAnalysis (a_risk_score a + (1 # 10))%Q (a_sensitive_fields a)
          (a_medium_risk_fields a) (a_low_risk_fields a ++ [field])
          (a_sanitization_required a)
    end in
  let a := fold_left step metadata (mkAnalysis 0 [] [] [] false) in
  mkAnalysis (Qmin 1 (a_risk_score a)) (a_sensitive_fields a)
    (a_medium_risk_fields a) (a_low_risk_fields a) (a_sanitization_required a).

(** Rounding of a rational to the nearest integer, ties to even. *)
Definition round_half_even (q : Q) : Z :=
  let f := Qfloor q in
  let twice := (2 * (q - inject_Z f))%Q in
  if Qltb twice 1 then f
  else if Qltb 1 twice then f + 1
  else if Z.even f then f else f + 1.

(** [round(x, 2)] *)
Definition round2 (x : pyfloat) : pyfloat :=
  match x with
  | Fin q => Fin (Qmake (round_half_even (q * 100)) 100)
  | _ => x
  end.

Definition _obfuscate_value_str (cfg : Config) (field value : string) : pyval :=
  if negb (ENABLE_METADATA_OBFUSCATION cfg) then VStr value
  else if (0 <? String.length value)%nat then
    let hash_input := field +:+ ":" +:+ value in
    let obfuscated :=
      String.substring 0 8 (Hashlib.sha256_hexdigest (Hashlib.encode hash_input)) in
    VStr ("obf_" +:+ obfuscated)
  else VStr value.

Definition _obfuscate_value (cfg : Config) (field : string) (value : pyval) (r : Rng)
    : pyval * Rng :=
  if negb (ENABLE_METADATA_OBFUSCATION cfg) then (value, r)
  else
    match value with
    | VStr s => (_obfuscate_value_str cfg field s, r)
    | VFloat f =>
        let '(n, r) := randbelow 100 r in
        let noise := Fin (Qmake n 1000) in
        (VFloat (round2 (fadd f noise)), r)
    | VInt z =>
        let '(n, r) := randbelow 10 r in
        (VInt (z + (n - 5)), r)
    | VBool b =>
        let '(n, r) := randbelow 10 r in
        (VInt ((if b then 1 else 0) + (n - 5)), r)
    | VOther repr => (_obfuscate_value_str cfg field repr, r)
    end.

(** [value // 60] on floats, then [int(...)]; raises on NaN and
    infinities. *)
Definition floor_div_60 (f : pyfloat) : option Z :=
  match f with
  | Fin q => Some (Qfloor (q / 60))
  | _ => None
  end.

(** [_quantize_value]; [None] when the conversion to [int] raises. *)
Definition _quantize_value (field : string) (value : pyval) : option pyval :=
  match value with
  | VFloat f =>
      if contains "time" (lower field) || contains "timestamp" (lower field) then
        match floor_div_60 f with
        | Some k => Some (VInt (k * 60))
        | None => None
        end
      else Some (VFloat (round2 f))
  | VInt z => Some (VInt ((z / 10) * 10))
  | VBool b => Some (VInt (((if b then 1 else 0) / 10) * 10))
  | VStr s =>
      let length := String.length s in
      if (length <=? 5)%nat then Some (VStr "short")
      else if (length <=? 20)%nat then Some (VStr "medium")
      else Some (VStr "long")
  | VOther _ => Some value
  end.

Definition _calculate_final_risk_score (sanitized_metadata : Metadata) : Q :=
  match sanitized_metadata with
  | [] => 0
  | _ =>
      let step (risk_score : Q) (kv : string * pyval) : Q :=
        let field_lower := lower (fst kv) in
        if any_in _sensitive_fields field_lower then (risk_score + (8 # 10))%Q
        else if any_in _medium_risk_fields field_lower then (risk_score + (3 # 10))%Q
        else (risk_score + (1 # 10))%Q in
      let risk_score := fold_left step sanitized_metadata 0%Q in
      Qmin 1 (risk_score / inject_Z (Z.of_nat (length sanitized_metadata)))
  end.

Record Report : Type := mkReport {
  original_fields : Z;
  sanitized_fields : Z;
  removed_fields : list string;
  obfuscated_fields : list string;
  quantized_fields : list string;
  risk_score : Q;
  sanitization_applied : bool;
  final_risk_score : Q
}.

(** The second component of the result: the report, or the
    ["status": "disabled"] dictionary. *)
Inductive Outcome : Type :=
| Disabled
| Sanitized (report : Report).

(** Loop state of [sanitize_metadata]. *)
Record Acc : Type := mkAcc {
  acc_sanitized : Metadata;
  acc_removed : list string;
  acc_obfuscated : list string;
  acc_quantized : list string;
  acc_applied : bool;
  acc_rng : Rng
}.

(** One iteration of the loop over [metadata.items()]; [None] when
    [_quantize_value] raises. *)
Definition sanitize_field (cfg : Config) (risk_threshold : Q) (analysis : Analysis)
    (acc : Acc) (kv : string * pyval) : option Acc :=
  let '(field, value) := kv in
  let field_lower := lower field in
  if any_in _sensitive_fields field_lower then
    Some (mkAcc (acc_sanitized acc) (acc_removed acc ++ [field]) (acc_obfuscated acc)
            (acc_quantized acc) true (acc_rng acc))
  else if any_in _medium_risk_fields field_lower then
    let '(obfuscated_value, r) := _obfuscate_value cfg field value (acc_rng acc) in
    Some (mkAcc (dict_set (acc_sanitized acc) field obfuscated_value) (acc_removed acc)
            (acc_obfuscated acc ++ [field]) (acc_quantized acc) true r)
  else if any_in _low_risk_fields field_lower then
    match _quantize_value field value with
    | Some quantized_value =>
        Some (mkAcc (dict_set (acc_sanitized acc) field quantized_value) (acc_removed acc)
                (acc_obfuscated acc) (acc_quantized acc ++ [field]) (acc_applied acc)
                (acc_rng acc))
    | None => None
    end
  else if Qltb risk_threshold (a_risk_score analysis) then
    Some (mkAcc (acc_sanitized acc) (acc_removed acc ++ [field]) (acc_obfuscated acc)
            (acc_quantized acc) true (acc_rng acc))
  else
    let '(obfuscated_value, r) := _obfuscate_value cfg field value (acc_rng acc) in
    Some (mkAcc (dict_set (acc_sanitized acc) field obfuscated_value) (acc_removed acc)
            (acc_obfuscated acc ++ [field]) (acc_quantized acc) (acc_applied acc) r).

Fixpoint sanitize_loop (cfg : Config) (risk_threshold : Q) (analysis : Analysis)
    (items : Metadata) (acc : Acc) : option Acc :=
  match items with
  | [] => Some acc
  | kv :: items' =>
      match sanitize_field cfg risk_threshold analysis acc kv with
      | Some acc' => sanitize_loop cfg risk_threshold analysis items' acc'
      | None => None
      end
  end.

(** [sanitize_metadata(metadata, risk_threshold)]: the sanitized map, the
    report and the random source after the call; [None] when the call
    raises. *)
Definition sanitize_metadata_with (cfg : Config) (risk_threshold : Q)
    (metadata : Metadata) (r : Rng) : option (Metadata * Outcome * Rng) :=
  if negb (METADATA_SANITIZATION_ENABLED cfg) then Some (metadata, Disabled, r)
  else
    let analysis := analyze_metadata metadata in
    match sanitize_loop cfg risk_threshold analysis metadata
            (mkAcc [] [] [] [] false r) with
    | Some acc =>
        let sanitized_metadata := acc_sanitized acc in
        Some (sanitized_metadata,
              Sanitized
                (mkReport (Z.of_nat (length metadata))
                   (Z.of_nat (length sanitized_metadata))
                   (acc_removed acc) (acc_obfuscated acc) (acc_quantized acc)
                   (a_risk_score analysis) (acc_applied acc)
                   (_calculate_final_risk_score sanitized_metadata)),
              acc_rng acc)
    | None => None
    end.

(** The call with the default threshold. *)
Definition sanitize_metadata (cfg : Config) (metadata : Metadata) (r : Rng)
    : option (Metadata * Outcome * Rng) :=
  sanitize_metadata_with cfg (SENSITIVE_FIELD_THRESHOLD cfg) metadata r.

(** The sanitized map of a result. *)
Definition sanitized_of (res : option (Metadata * Outcome * Rng)) : option Metadata :=
  match res with
  | Some (m, _, _) => Some m
  | None => None
  end.



End Sanitizer.

(* ===================================================================== *)
(** * services/forensic_resistant_audit.py: the audit log *)
(* ===================================================================== *)

Module Audit.
Import Py.

(** A value [json.dumps] accepts (floats apart). *)
Unset Elimination Schemes.
Inductive json : Type :=
| JNull
| JBool (b : bool)
| JInt (z : Z)
| JStr (s : string)
| JList (l : list json)
| JDict (items : list (string * json)).
Set Elimination Schemes.

Definition quote : ascii := "034"%char.
Definition backslash : ascii := "092"%char.
Definition newline : ascii := "010"%char.
Definition carriage_return : ascii := "013"%char.
Definition bar : ascii := "|"%char.

Definition digit_char (d : Z) : ascii := ascii_of_nat (48 + Z.to_nat (d mod 10)).

Fixpoint digits (fuel : nat) (n : Z) (acc : text) : text :=
  match fuel with
  | O => acc
  | S fuel' =>
      let acc' := digit_char n :: acc in
      if n <? 10 then acc' else digits fuel' (n / 10) acc'
  end.

(** [str(z)] for an integer. *)
Definition str_of_int (z : Z) : text :=
  if z <? 0 then "-"%char :: digits (S (Z.to_nat (Z.log2 (- z)))) (- z) []
  else digits (S (Z.to_nat (Z.log2 z))) z [].

Definition hex_char (n : nat) : ascii :=
  nth n (text_of "0123456789abcdef") "0"%char.

(** The replacement [json] writes for one character of a string
    ([ensure_ascii=False]): quote, backslash and the control characters are
    escaped, everything else is copied. *)
Definition escape_char (c : ascii) : text :=
  let n := nat_of_ascii c in
  if (n =? 34)%nat then [backslash; quote]
  else if (n =? 92)%nat then [backslash; backslash]
  else if (n =? 10)%nat then [backslash; "n"%char]
  else if (n =? 13)%nat then [backslash; "r"%char]
  else if (n =? 9)%nat then [backslash; "t"%char]
  else if (n =? 8)%nat then [backslash; "b"%char]
  else if (n =? 12)%nat then [backslash; "f"%char]
  else if (n <? 32)%nat then
    [backslash; "u"%char; "0"%char; "0"%char; hex_char (n / 16); hex_char (n mod 16)]
  else [c].

Definition encode_basestring (s : string) : text :=
  quote :: flat_map escape_char (text_of s) ++ [quote].

Fixpoint join (sep : text) (parts : list text) : text :=
  match parts with
  | [] => []
  | [p] => p
  | p :: ps => p ++ sep ++ join sep ps
  end.

(** [json.dumps(value, separators=(',', ':'), ensure_ascii=False)] *)
Fixpoint dumps (j : json) : text :=
  match j with
  | JNull => text_of "null"
  | JBool true => text_of "true"
  | JBool false => text_of "false"
  | JInt z => str_of_int z
  | JStr s => encode_basestring s
  | JList l => "["%char :: join [","%char] (map dumps l) ++ ["]"%char]
  | JDict items =>
      "{"%char ::
        join [","%char]
          (map (fun kv => match kv with
                          | (k, v) => encode_basestring k ++ ":"%char :: dumps v
                          end) items)
        ++ ["}"%char]
  end.

(** A log entry is a dictionary. *)
Definition Entry := list (string * json).

Record Config : Type := mkConfig {
  AUDIT_LOG_MAX_SIZE : Z;
  AUDIT_LOG_ROTATION_COUNT : Z;
  ENABLE_TAMPER_DETECTION : bool
}.

Definition default_config : Config := mkConfig 10485760 5 true.

(** The writer's state and the files it owns: index 0 is the active log at
    [AUDIT_LOG_PATH], index [i] the rotated file with suffix [.i]. A file
    that does not exist has no binding. *)
Record State : Type := mkState {
  _log_size : Z;
  _tamper_key : list byte;
  files : gmap nat text
}.

(** [str.encode('utf-8')] of a text. *)
Definition encode (t : text) : list byte := map byte_of_ascii t.

Definition _calculate_checksum (cfg : Config) (self : State) (data : text) : text :=
  if negb (ENABLE_TAMPER_DETECTION cfg) then []
  else
    let hmac := Hashlib.pbkdf2_hmac_sha256 (encode data) (_tamper_key self) 1000 in
    take 16 (text_of (Hashlib.hex hmac)).

(** [os.rename(src, dst)] when [src] exists. *)
Definition rename (src dst : nat) (fs : gmap nat text) : gmap nat text :=
  match fs !! src with
  | Some content => <[dst := content]> (delete src fs)
  | None => fs
  end.

Definition _rotate_log (cfg : Config) (self : State) : State :=
  let indices := rev (seq 1 (Z.to_nat (AUDIT_LOG_ROTATION_COUNT cfg - 1))) in
  let fs := fold_left (fun fs i => rename i (S i) fs) indices (files self) in
  let fs := rename 0 1 fs in
  mkState 0 (_tamper_key self) fs.

(** The line [_write_log_entry] appends for [entry], without the final
    newline. *)
Definition log_line (cfg : Config) (self : State) (entry : Entry) : text :=
  let json_data := dumps (JDict entry) in
  if ENABLE_TAMPER_DETECTION cfg
  then json_data ++ bar :: _calculate_checksum cfg self json_data
  else json_data.

Definition _write_log_entry (cfg : Config) (entry : Entry) (self : State) : State :=
  let json_data := log_line cfg self entry in
  let content := default [] (files self !! 0%nat) in
  let self := mkState (_log_size self + Z.of_nat (length json_data)) (_tamper_key self)
                (<[0%nat := content ++ json_data ++ [newline]]> (files self)) in
  if AUDIT_LOG_MAX_SIZE cfg <? _log_size self then _rotate_log cfg self else self.

(** Reading a text file line by line: a line ends at a line feed, a
    carriage return or the pair of them, each read as one line feed. *)
Fixpoint readlines (s : text) : list text :=
  match s with
  | [] => []
  | c :: s' =>
      if Ascii.eqb c newline then [newline] :: readlines s'
      else if Ascii.eqb c carriage_return then
        match s' with
        | c' :: s'' =>
            if Ascii.eqb c' newline then [newline] :: readlines s''
            else [newline] :: readlines s'
        | [] => [[newline]]
        end
      else
        match readlines s' with
        | [] => [[c]]
        | l :: ls => (c :: l) :: ls
        end
  end.

(** [line.rsplit("|", 1)] when the line holds a bar. *)
Fixpoint rsplit_bar (s : text) : option (text * text) :=
  match s with
  | [] => None
  | c :: s' =>
      match rsplit_bar s' with
      | Some (a, b) => Some (c :: a, b)
      | None => if Ascii.eqb c bar then Some ([], s') else None
      end
  end.

Definition text_eqb (a b : text) : bool := bool_decide (a = b).

(** The loop of [verify_log_integrity]: (valid, invalid) after the lines. *)
Definition verify_line (cfg : Config) (self : State) (counts : Z * Z) (line : text) : Z * Z :=
  let line := strip line in
  match line with
  | [] => counts
  | _ =>
      match rsplit_bar line with
      | Some (json_data, checksum) =>
          let expected_checksum := _calculate_checksum cfg self json_data in
          if text_eqb checksum expected_checksum then (fst counts + 1, snd counts)
          else (fst counts, snd counts + 1)
      | None => (fst counts + 1, snd counts)
      end
  end.

Inductive Status : Type := verified | tampered | disabled | error.

Record Integrity : Type := mkIntegrity {
  status : Status;
  valid_entries : Z;
  invalid_entries : Z;
  total_entries : Z
}.

Definition verify_log_integrity (cfg : Config) (self : State) : Integrity :=
  if negb (ENABLE_TAMPER_DETECTION cfg) then mkIntegrity disabled 0 0 0
  else
    match files self !! 0%nat with
    | None => mkIntegrity error 0 0 0
    | Some content =>
        let '(valid_entries, invalid_entries) :=
          fold_left (verify_line cfg self) (readlines content) (0, 0) in
        mkIntegrity (if invalid_entries =? 0 then verified else tampered)
          valid_entries invalid_entries (valid_entries + invalid_entries)
    end.







(** [s.endswith(suffix)] *)
Fixpoint endswith (s suffix : string) : bool :=
  String.eqb s suffix ||
  match s with
  | EmptyString => false
  | String _ s' => endswith s' suffix
  end.

(** [key in fields] *)
Definition mem (key : string) (fields : list string) : bool :=
  existsb (String.eqb key) fields.

(** [d[k] = v] and [d.get(k)] on a dictionary in insertion order. *)
Fixpoint dict_set (d : Entry) (k : string) (v : json) : Entry :=
  match d with
  | [] => [(k, v)]
  | (k', v') :: d' =>
      if String.eqb k' k then (k, v) :: d' else (k', v') :: dict_set d' k v
  end.

Fixpoint dict_get (d : Entry) (k : string) : option json :=
  match d with
  | [] => None
  | (k', v') :: d' => if String.eqb k' k then Some v' else dict_get d' k
  end.

Definition _opaque_hash (data : string) : string :=
  if String.eqb data EmptyString then "null"
  else String.substring 0 16 (Hashlib.sha256_hexdigest (Hashlib.encode data)).

Definition safe_fields : list string :=
  [ "action"; "policy"; "risk"; "reason"; "event_type";
    "key_id"; "ttl"; "status"; "admin_action" ].

Definition hashed_fields : list string := [ "token"; "user_id"; "client_ip"; "device_id" ].

(** The keys [_sanitize_event] can write: its three own keys, the safe
    fields, and every key ending in "_hash" or "_id". *)
Definition allowed_key (k : string) : bool :=
  mem k ["ts"; "event_id"; "event_type"]%string || mem k safe_fields
  || endswith k "_hash" || endswith k "_id".

Section Events.

(** [str(value)] of a list or a dictionary is left to the caller. *)
Variable repr : json -> string.

Definition py_str (value : json) : string :=
  match value with
  | JNull => "None"
  | JBool true => "True"
  | JBool false => "False"
  | JInt z => to_string (str_of_int z)
  | JStr s => s
  | _ => repr value
  end.

(** One iteration of the loop of [_sanitize_event]. *)
Definition sanitize_item (sanitized : Entry) (kv : string * json) : Entry :=
  let '(key, value) := kv in
  if mem key safe_fields then dict_set sanitized key value
  else if endswith key "_hash" || endswith key "_id" then dict_set sanitized key value
  else if mem key hashed_fields then
    dict_set sanitized (key +:+ "_hash") (JStr (_opaque_hash (py_str value)))
  else sanitized.

(** [_sanitize_event]; [ts] is [int(time.time())] and [event_id] what
    [_generate_event_id] returned. *)
Definition _sanitize_event (ts : Z) (event_id : string) (event : Entry) : Entry :=
  let sanitized :=
    [ ("ts", JInt ts); ("event_id", JStr event_id);
      ("event_type", default (JStr "unknown") (dict_get event "event_type")) ] in
  fold_left sanitize_item event sanitized.

Definition log_message_event (cfg : Config) (ts : Z) (event_id : string)
    (event_type : string) (kwargs : Entry) (self : State) : State :=
  let event := ("event_type", JStr event_type) :: kwargs in
  _write_log_entry cfg (_sanitize_event ts event_id event) self.

Definition log_security_event (cfg : Config) (ts : Z) (event_id : string)
    (event_type : string) (kwargs : Entry) (self : State) : State :=
  let event := ("event_type", JStr ("security_" +:+ event_type)) :: kwargs in
  _write_log_entry cfg (_sanitize_event ts event_id event) self.

Definition log_admin_event (cfg : Config) (ts : Z) (event_id : string)
    (event_type : string) (kwargs : Entry) (self : State) : State :=
  let event := ("event_type", JStr ("admin_" +:+ event_type)) :: kwargs in
  _write_log_entry cfg (_sanitize_event ts event_id event) self.

End Events.

End Audit.

(* ===================================================================== *)
(** * services/storage.py: the store without the forensic modules *)
(* ===================================================================== *)

(** [EphemeralStorage] when [FORENSIC_PROTECTION_AVAILABLE] is false: a
    dictionary of entries holding immutable [bytes]. *)
Module EphemeralStorage.

Record Entry : Type := mkEntry {
  ciphertext : list byte;
  expire_at : Q;
  read : bool
}.

Abbreviation Store := (gmap string Entry).

(** [_secure_wipe_bytes(b)] zeroes a [bytearray] copy of [b] and drops it:
    the copy after the loop. The argument itself is never written. *)
Definition _secure_wipe_bytes (b : list byte) : list byte :=
  fold_left (fun ba i => <[i := x00]> ba) (seq 0 (length b)) b.

(** [_delete_internal]: the entry is popped; the wipe works on a copy. *)
Definition _delete_internal (token : string) (st : Store) : Store :=
  delete token st.

Definition put (now : Q) (token : string) (ciphertext : list byte) (ttl_seconds : Z)
    (st : Store) : Store :=
  let expire_at := (now + inject_Z ttl_seconds)%Q in
  <[token := mkEntry ciphertext expire_at false]> st.

Definition get (now : Q) (token : string) (st : Store) : option Entry * Store :=
  match st !! token with
  | None => (None, st)
  | Some entry =>
      if Py.Qltb (expire_at entry) now then (None, _delete_internal token st)
      else (Some (mkEntry (ciphertext entry) (expire_at entry) (read entry)), st)
  end.

Definition mark_read_and_delete (token : string) (st : Store) : bool * Store :=
  match st !! token with
  | None => (false, st)
  | Some _ => (true, _delete_internal token st)
  end.

Definition ttl_remaining (now : Q) (token : string) (st : Store) : option Z * Store :=
  match st !! token with
  | None => (None, st)
  | Some entry =>
      let remaining := Storage.remaining_seconds (expire_at entry) now in
      if remaining =? 0 then (None, _delete_internal token st)
      else (Some remaining, st)
  end.

(** One iteration of [_cleanup_loop] at clock reading [now]. *)
Definition _cleanup_tick (now : Q) (st : Store) : Store :=
  let to_delete :=
    map fst (List.filter (fun kv => Qle_bool (expire_at (snd kv)) now) (map_to_list st)) in
  fold_left (fun s token => _delete_internal token s) to_delete st.

End EphemeralStorage.

(* ===================================================================== *)
(** * services/storage.py: the store with the forensic modules *)
(* ===================================================================== *)

(** [EphemeralStorage] when [FORENSIC_PROTECTION_AVAILABLE] is true: every
    call goes to the forensic store and is logged by the audit writer. *)
Module ForensicEphemeralStorage.

Record State : Type := mkState {
  _storage : Storage.Store;
  _audit : Audit.State
}.

Section Facade.

Variable SECURE_DELETE_PASSES : Z.
Variable str_of_time : Q -> string.
Variable repr : Audit.json -> string.
Variable cfg : Audit.Config.

(** [put]; [ts] and [event_id] are the time stamp and the event id the
    audit writer draws. *)
Definition put (now now_created now_id : Q) (ts : Z) (event_id : string)
    (token : string) (ciphertext : Storage.bytes) (ttl_seconds : Z) (st : State) : State :=
  let storage :=
    Storage.put str_of_time now now_created now_id token ciphertext ttl_seconds
      (_storage st) in
  let audit :=
    Audit.log_message_event repr cfg ts event_id "message_stored"
      [ ("token_hash", Audit.JStr (Audit._opaque_hash token));
        ("ttl", Audit.JInt ttl_seconds);
        ("message_size", Audit.JInt (Z.of_nat (length ciphertext))) ]
      (_audit st) in
  mkState storage audit.

Definition get (now : Q) (ts : Z) (event_id : string) (token : string) (st : State)
    : option Storage.Fetched * State :=
  let '(result, storage) := Storage.get now token (_storage st) in
  match result with
  | Some fetched =>
      let audit :=
        Audit.log_message_event repr cfg ts event_id "message_accessed"
          [ ("token_hash", Audit.JStr (Audit._opaque_hash token));
            ("forensic_id", Audit.JStr (Storage.f_forensic_id fetched)) ]
          (_audit st) in
      (result, mkState storage audit)
  | None => (result, mkState storage (_audit st))
  end.

Definition mark_read_and_delete (ts : Z) (event_id : string) (token : string) (st : State)
    : bool * State :=
  let '(result, storage) := Storage.mark_read_and_delete token (_storage st) in
  if result then
    let audit :=
      Audit.log_message_event repr cfg ts event_id "message_deleted"
        [ ("token_hash", Audit.JStr (Audit._opaque_hash token));
          ("action", Audit.JStr "read_and_delete") ]
        (_audit st) in
    (result, mkState storage audit)
  else (result, mkState storage (_audit st)).

Definition force_secure_cleanup (ts : Z) (event_id : string) (st : State) : Z * State :=
  let '(deleted_count, storage) :=
    Storage.force_secure_cleanup SECURE_DELETE_PASSES (_storage st) in
  let audit :=
    Audit.log_admin_event repr cfg ts event_id "force_cleanup"
      [ ("deleted_count", Audit.JInt deleted_count) ] (_audit st) in
  (deleted_count, mkState storage audit).

End Facade.

End ForensicEphemeralStorage.

(* ===================================================================== *)
(** * Concrete inputs of the scenarios *)
(* ===================================================================== *)

Module Scenarios.

(** An adapter that has never been trained, with an empty buffer. *)
Definition fresh_adapter : MlAdapter.Adapter unit unit :=
  MlAdapter.mkAdapter None None [] 10000 200 false 0 0.



(** One exception per day, shadow mode on or off. *)
Definition quota_one_config (shadow : bool) : Policy.Config :=
  Policy.mkConfig 70 40 shadow 1 1 86400.

(** An exception-flagged submission of risk 10 by one actor. *)
Definition flagged_call (now : Q) : Policy.Call :=
  Policy.mkCall now 10 "t1" (Some (Policy.mkSummary true None None)) None (Some "alice").

(** A store just started, a clock text and two payloads. *)
Definition zero_entropy : Storage.Entropy := Storage.mkEntropy (fun _ => x00) 0.
Definition clock_text (now : Q) : string := "0.0".
Definition hello : list byte := Hashlib.encode "hello".
Definition world : list byte := Hashlib.encode "world".

(** [put("t1", b"hello", 2)] at time 0 on the empty store. *)
Definition store_t1 : Storage.Store :=
  Storage.put clock_text 0 0 0 "t1" hello 2 (Storage.empty_store zero_entropy).

(** The entry that call recorded. *)
Definition entry_t1 : Storage.Entry :=
  match Storage._store store_t1 !! "t1" with
  | Some entry => entry
  | None => Storage.mkEntry 1 0 false 0 0 EmptyString
  end.

(** The metadata of the sanitization scenario. *)
Definition metadata_s6 : Sanitizer.Metadata :=
  [ ("user_id", Sanitizer.VStr "u123"); ("email", Sanitizer.VStr "a@b.c");
    ("padded_size", Sanitizer.VInt 2048); ("timestamp", Sanitizer.VInt 1700000000) ].





(** A random source whose every raw draw is 7. *)
Definition sevens : Sanitizer.Rng := Sanitizer.mkRng (fun _ => 7) 0.

End Scenarios.


(* ===================================================================== *)
(** * Properties *)
(* ===================================================================== *)

(** ** Rationals and floats *)

Lemma Qltb_lt (x y : Q) : Py.Qltb x y = true <-> (x < y)%Q.
Proof. unfold Py.Qltb, Qlt. apply Z.ltb_lt. Qed.

Lemma Qltb_ge (x y : Q) : Py.Qltb x y = false <-> (y <= x)%Q.
Proof. unfold Py.Qltb, Qle. rewrite Z.ltb_ge. reflexivity. Qed.

Lemma Qle_bool_false (x y : Q) : Qle_bool x y = false <-> (y < x)%Q.
Proof.
  split; intros H.
  - destruct (Qlt_le_dec y x) as [Hlt | Hle]; [exact Hlt |].
    apply Qle_bool_iff in Hle. congruence.
  - destruct (Qle_bool x y) eqn:E; [| reflexivity].
    apply Qle_bool_iff in E. lra.
Qed.

(** Truncation of a rational between 0 and 100 stays between 0 and 100. *)
Lemma py_int_clamped (x : Py.pyfloat) (z : Z) :
  Py.py_int (Py.py_max (Py.of_Z 0) (Py.py_min (Py.of_Z 100) x)) = Some z ->
  0 <= z <= 100.
Proof.
  unfold Py.py_max, Py.py_min, Py.fgt.
  destruct x as [q | | |]; cbn -[Z.quot Py.Qltb].
  - destruct (Py.Qltb q (inject_Z 100)) eqn:Hhi.
    + cbn -[Z.quot Py.Qltb].
      destruct (Py.Qltb (inject_Z 0) q) eqn:Hlo; cbn -[Z.quot]; intros [= <-].
      * apply Qltb_lt in Hhi, Hlo. destruct q as [n d].
        unfold Qlt in *; cbn in *.
        assert (0 < n) by lia.
        rewrite Z.quot_div_nonneg by lia.
        split; [apply Z.div_pos; lia |].
        assert (n / Z.pos d < 100); [| lia].
        apply Z.div_lt_upper_bound; lia.
      * vm_compute; split; discriminate.
    + cbn. intros [= <-]. vm_compute; split; discriminate.
  - intros [= <-]. vm_compute; split; discriminate.
  - intros [= <-]. vm_compute; split; discriminate.
  - intros [= <-]. vm_compute; split; discriminate.
Qed.

(** ** The anomaly scorer *)

Section ScorerFacts.
Import Py MlAdapter.
Variables Model Scaler : Type.
Variable transform : Scaler -> list pyfloat -> option (list pyfloat).
Variable decision_function : Model -> list pyfloat -> option pyfloat.
Variable PROM_AVAILABLE : bool.

Definition score_of := MlAdapter.score transform decision_function PROM_AVAILABLE.

Lemma heuristic_range (v : list pyobj) : 0 <= _heuristic_score v <= 100.
Proof.
  unfold _heuristic_score.
  destruct (component v 0 (of_Z 0)), (component v 1 (of_Z 0)),
    (component v 2 (of_Z 1)), (component v 3 (of_Z 0));
    lia.
Qed.

Lemma heuristic_matches_spec (p i d c : pyfloat) :
  _heuristic_score [Num p; Num i; Num d; Num c] = heuristic_spec p i d c.
Proof.
  unfold _heuristic_score, heuristic_spec, clamp, size_penalty, interval_penalty,
    dest_penalty, device_penalty, component.
  cbn [nth_error float].
  change (50 * 1024) with 51200. change (10 * 1024) with 10240.
  change (2 * 1024) with 2048.
  destruct (fgt p (of_Z 51200)), (fgt p (of_Z 10240)), (fgt p (of_Z 2048)),
    (flt i (of_Z 1)), (flt i (of_Z 5)), (fge d (of_Z 10)), (fge d (of_Z 3)),
    (truthy c); reflexivity.
Qed.

Lemma score_range (self : Adapter Model Scaler) (v : list pyobj) :
  0 <= fst (score_of self v) <= 100.
Proof.
  unfold score_of, MlAdapter.score.
  pose proof (heuristic_range v) as Hh.
  destruct (floats v) as [vec |]; [| cbn; lia].
  destruct PROM_AVAILABLE; cbn [_trained _model _scaler inc_score_calls].
  all: destruct (_trained self); [| exact Hh].
  all: destruct (_model self) as [m |]; [| exact Hh].
  all: destruct (decision_function m _) as [df |]; [| exact Hh].
  all: destruct (py_int _) as [z |] eqn:Hz; [| exact Hh].
  all: cbn [fst]; eapply py_int_clamped; exact Hz.
Qed.

(** [score] leaves everything but the call counter as it was. *)
Lemma score_frame (self : Adapter Model Scaler) (v : list pyobj) :
  let self' := snd (score_of self v) in
  _buffer self' = _buffer self /\ _model self' = _model self /\
  _scaler self' = _scaler self /\ _trained self' = _trained self /\
  _max_buffer self' = _max_buffer self /\ _min_samples self' = _min_samples self /\
  OBSERVATIONS self' = OBSERVATIONS self.
Proof.
  cbv zeta. unfold score_of, MlAdapter.score.
  destruct PROM_AVAILABLE; cbn [_trained _model _scaler inc_score_calls].
  all: repeat match goal with
         | |- context [match ?x with _ => _ end] => destruct x eqn:?
         end.
  all: cbn; repeat split; congruence.
Qed.

(** The result is a function of the vector and the model state alone. *)
Lemma score_depends_on_model_only (self self' : Adapter Model Scaler) (v : list pyobj) :
  _model self = _model self' -> _scaler self = _scaler self' ->
  _trained self = _trained self' ->
  fst (score_of self v) = fst (score_of self' v).
Proof.
  intros Hm Hs Ht. unfold score_of, MlAdapter.score.
  destruct (floats v) as [vec |].
  2: { destruct PROM_AVAILABLE; reflexivity. }
  destruct PROM_AVAILABLE; cbn [_trained _model _scaler inc_score_calls];
    rewrite <- Hm, <- Hs, <- Ht.
  all: destruct (_trained self); [| reflexivity].
  all: destruct (_model self) as [m |]; [| reflexivity].
  all: destruct (decision_function m _) as [df |]; [| reflexivity].
  all: destruct (py_int _) as [z |]; reflexivity.
Qed.

Lemma score_untrained (self : Adapter Model Scaler) (v : list pyobj) :
  _trained self = false \/ _model self = None ->
  fst (score_of self v) = match floats v with Some _ => _heuristic_score v | None => 0 end.
Proof.
  intros Hu. unfold score_of, MlAdapter.score.
  destruct (floats v) as [vec |].
  2: { destruct PROM_AVAILABLE; reflexivity. }
  destruct PROM_AVAILABLE; cbn [_trained _model _scaler inc_score_calls].
  all: destruct Hu as [-> | ->]; [reflexivity |].
  all: destruct (_trained self); reflexivity.
Qed.

End ScorerFacts.

(** C3. For every vector the score is an integer between 0 and 100; the call
    changes neither the buffer nor the model (only the call counter moves)
    and its result is a function of the vector and the model state alone.
    When the scorer is untrained the score is the heuristic: start at 70,
    subtract 35/20/10 by padded-size bracket, 30/10 by interval bracket,
    30/12 by destination-count bracket, 30 on a device change, and clamp to
    [0,100]; so the score of [2048, 0.5, 3, 1] is 0. *)
Theorem C3_score_range_pure_heuristic :
  forall (Model Scaler : Type)
    (transform : Scaler -> list Py.pyfloat -> option (list Py.pyfloat))
    (decision_function : Model -> list Py.pyfloat -> option Py.pyfloat)
    (PROM_AVAILABLE : bool) (self : MlAdapter.Adapter Model Scaler),
    (forall v,
        let r := MlAdapter.score transform decision_function PROM_AVAILABLE self v in
        0 <= fst r <= 100 /\
        MlAdapter._buffer (snd r) = MlAdapter._buffer self /\
        MlAdapter._model (snd r) = MlAdapter._model self /\
        MlAdapter._scaler (snd r) = MlAdapter._scaler self /\
        MlAdapter._trained (snd r) = MlAdapter._trained self) /\
    (forall self' v,
        MlAdapter._model self = MlAdapter._model self' ->
        MlAdapter._scaler self = MlAdapter._scaler self' ->
        MlAdapter._trained self = MlAdapter._trained self' ->
        fst (MlAdapter.score transform decision_function PROM_AVAILABLE self v)
        = fst (MlAdapter.score transform decision_function PROM_AVAILABLE self' v)) /\
    (MlAdapter._trained self = false \/ MlAdapter._model self = None ->
     (forall p i d c,
         fst (MlAdapter.score transform decision_function PROM_AVAILABLE self
                [Py.Num p; Py.Num i; Py.Num d; Py.Num c])
         = MlAdapter.heuristic_spec p i d c) /\
     fst (MlAdapter.score transform decision_function PROM_AVAILABLE self
            [Py.Num (Py.of_Z 2048); Py.Num (Py.Fin (1 # 2)); Py.Num (Py.of_Z 3);
             Py.Num (Py.of_Z 1)]) = 0).
Proof.
  intros Model Scaler transform decision_function PROM self.
  split; [| split].
  - intros v r. subst r. split.
    + apply score_range.
    + pose proof (score_frame Model Scaler transform decision_function PROM self v) as H.
      cbv zeta in H. unfold score_of in H. tauto.
  - intros self' v Hm Hs Ht.
    apply (score_depends_on_model_only Model Scaler transform decision_function PROM);
      assumption.
  - intros Hu. split.
    + intros p i d c.
      pose proof (score_untrained Model Scaler transform decision_function PROM self
                    [Py.Num p; Py.Num i; Py.Num d; Py.Num c] Hu) as H.
      unfold score_of in H. rewrite H. cbn [Py.floats Py.float].
      apply heuristic_matches_spec.
    + pose proof (score_untrained Model Scaler transform decision_function PROM self
                    [Py.Num (Py.of_Z 2048); Py.Num (Py.Fin (1 # 2)); Py.Num (Py.of_Z 3);
                     Py.Num (Py.of_Z 1)] Hu) as H.
      unfold score_of in H. rewrite H. reflexivity.
Qed.

Lemma C3_witness_untrained_scenario :
  fst (MlAdapter.score (fun (_ : unit) v => Some v) (fun (_ : unit) _ => None) false
         Scenarios.fresh_adapter
         [Py.Num (Py.of_Z 2048); Py.Num (Py.Fin (1 # 2)); Py.Num (Py.of_Z 3);
          Py.Num (Py.of_Z 1)]) = 0.
Proof.
  apply (C3_score_range_pure_heuristic unit unit (fun _ v => Some v) (fun _ _ => None)
           false Scenarios.fresh_adapter).
  left. reflexivity.
Defined.

(** C8, as the claim states it, fails: a vector of two components holding
    NaN and an infinity is appended to the buffer. *)
Lemma C8_counterexample_nan_appended :
  MlAdapter._buffer
    (MlAdapter.add_observation false Scenarios.fresh_adapter [Py.Num Py.NaN; Py.Num Py.PInf])
  = [[Py.NaN; Py.PInf]].
Proof. reflexivity. Qed.

(** C8, amended. [add_observation] converts every component to a float and
    appends the vector whatever its arity and whether or not its values are
    finite; a vector with a component that does not convert is skipped and
    nothing changes. While the buffer stays within capacity the vector is
    added at the end; when a non-empty buffer would exceed capacity its
    oldest vector is dropped and the new one is still the last. *)
Theorem C8_add_observation_appends_unvalidated :
  forall (Model Scaler : Type) (PROM_AVAILABLE : bool)
    (self : MlAdapter.Adapter Model Scaler) (vector : list Py.pyobj),
    (Py.floats vector = None ->
     MlAdapter.add_observation PROM_AVAILABLE self vector = self) /\
    (forall vec, Py.floats vector = Some vec ->
       let buffer := MlAdapter._buffer self in
       let buffer' := MlAdapter._buffer
                        (MlAdapter.add_observation PROM_AVAILABLE self vector) in
       (Z.of_nat (length buffer) < MlAdapter._max_buffer self ->
        buffer' = buffer ++ [vec]) /\
       (MlAdapter._max_buffer self <= Z.of_nat (length buffer) -> buffer <> [] ->
        buffer' = tail buffer ++ [vec] /\ length buffer' = length buffer)).
Proof.
  intros Model Scaler PROM self vector. split.
  - intros Hnone. unfold MlAdapter.add_observation. rewrite Hnone. reflexivity.
  - intros vec Hvec buffer buffer'. subst buffer buffer'.
    unfold MlAdapter.add_observation. rewrite Hvec.
    rewrite length_app. cbn [length].
    split.
    + intros Hlt.
      destruct (_ <? _) eqn:E; [apply Z.ltb_lt in E; lia |].
      destruct PROM; reflexivity.
    + intros Hge Hne.
      destruct (_ <? _) eqn:E; [| apply Z.ltb_ge in E; lia].
      destruct (MlAdapter._buffer self) as [| x b] eqn:Hb; [congruence |].
      destruct PROM; cbn; rewrite ?Hb; cbn; rewrite ?length_app; cbn;
        (split; [reflexivity | lia]).
Qed.

Lemma C8_witness_short_vector :
  MlAdapter._buffer
    (MlAdapter.add_observation false Scenarios.fresh_adapter [Py.Num Py.NaN])
  = [] ++ [[Py.NaN]].
Proof.
  refine (proj1 (proj2 (C8_add_observation_appends_unvalidated unit unit false
                          Scenarios.fresh_adapter [Py.Num Py.NaN]) [Py.NaN] eq_refl) _).
  vm_compute. reflexivity.
Defined.


(** ** The policy engine *)

Section PolicyFacts.
Import Policy.








Lemma decide_action_fields (cfg : Config) (now : Q) (risk : Z) (token : string)
    (summary : option MetadataSummary) (client_ip actor : option string) (st : State) :
  let d := fst (decide_action cfg now risk token summary client_ip actor st) in
  policy d = raw_action cfg now risk token summary actor st /\
  enforced d = negb (SHADOW_MODE cfg) && _should_enforce_canary cfg token /\
  action d = (if enforced d then policy d else allow).
Proof.
  cbv zeta. unfold decide_action, raw_action.
  destruct (apply_exception _ _ _ _ _ _ _) as [[ra re] em].
  cbn [fst snd policy enforced action].
  destruct (SHADOW_MODE cfg), (_should_enforce_canary cfg token); cbn; auto.
Qed.


End PolicyFacts.




(** ** The exception quota *)

Lemma filter_since_twice (l : list Q) (ws0 ws : Q) :
  (ws0 <= ws)%Q ->
  List.filter (fun ts => Qle_bool ws ts) (List.filter (fun ts => Qle_bool ws0 ts) l)
  = List.filter (fun ts => Qle_bool ws ts) l.
Proof.
  intros Hle. induction l as [| x l IH]; [reflexivity |].
  cbn [List.filter].
  destruct (Qle_bool ws0 x) eqn:E0; cbn [List.filter]; rewrite IH; [reflexivity |].
  destruct (Qle_bool ws x) eqn:E; [| reflexivity].
  apply Qle_bool_iff in E. apply Qle_bool_false in E0. lra.
Qed.

Section QuotaFacts.
Import Policy.
Variable cfg : Config.

Definition ledger (st : State) (k : string) : list Q :=
  default [] (_exception_events st !! k).

Lemma within_quota_iff (now : Q) (key : string) (m : gmap string (list Q)) :
  fst (_within_exception_quota cfg now key m) = true <->
  Z.of_nat (length (recent_exceptions cfg now key m)) < EXCEPTION_QUOTA cfg.
Proof.
  unfold _within_exception_quota, recent_exceptions.
  destruct (_ <=? _) eqn:E; cbn [fst].
  - apply Z.leb_le in E. split; [discriminate | lia].
  - apply Z.leb_gt in E. split; [intros _; exact E | reflexivity].
Qed.

Lemma within_quota_ledger (now : Q) (key k : string) (m : gmap string (list Q)) :
  default [] (snd (_within_exception_quota cfg now key m) !! k)
  = if decide (key = k)
    then recent_exceptions cfg now key m
         ++ (if fst (_within_exception_quota cfg now key m) then [now] else [])
    else default [] (m !! k).
Proof.
  unfold _within_exception_quota, recent_exceptions.
  destruct (_ <=? _); cbn [fst snd]; destruct (decide (key = k)) as [-> | Hne].
  - rewrite lookup_insert_eq. cbn. rewrite app_nil_r. reflexivity.
  - rewrite lookup_insert_ne by exact Hne. reflexivity.
  - rewrite lookup_insert_eq. reflexivity.
  - rewrite lookup_insert_ne by exact Hne. reflexivity.
Qed.

Lemma threshold_action_not_pending (risk : Z) :
  fst (threshold_action cfg risk) <> pending_approval.
Proof.
  unfold threshold_action.
  destruct (_ <=? _); [discriminate |]. destruct (_ <=? _); discriminate.
Qed.

(** What one served submission does to the ledger and to the policy
    field. *)
Lemma call_effect (c : Call) (st : State) :
  let d := fst (call cfg c st) in
  let st' := snd (call cfg c st) in
  if flagged c then
    let r := _within_exception_quota cfg (c_now c) (call_key c) (_exception_events st) in
    _exception_events st' = snd r /\
    (policy d = pending_approval -> fst r = true) /\
    (fst r = false -> policy d = block /\ reason d = "exception quota exceeded; blocked")
  else
    _exception_events st' = _exception_events st /\ policy d <> pending_approval.
Proof.
  cbv zeta. unfold call, decide_action, apply_exception, flagged, call_key.
  pose proof (threshold_action_not_pending (c_risk c)) as Hth.
  destruct (threshold_action cfg (c_risk c)) as [ta tr]. cbn [fst snd] in *.
  destruct (c_summary c) as [m |]; [destruct (exception_flag m) |].
  - destruct (_within_exception_quota _ _ _ _) as [ok em]. cbn [fst snd].
    destruct ok.
    + destruct (action_eqb ta block); cbn; (split; [reflexivity |]);
        (split; [reflexivity | discriminate]).
    + cbn. split; [reflexivity |]. split; [discriminate | auto].
  - cbn. auto.
  - cbn. auto.
Qed.

Lemma run_cons (c : Call) (cs : list Call) (st : State) :
  fst (run cfg (c :: cs) st) = fst (call cfg c st) :: fst (run cfg cs (snd (call cfg c st))).
Proof.
  cbn [run]. destruct (call cfg c st) as [d st']. cbn [fst snd].
  destruct (run cfg cs st') as [ds st'']. reflexivity.
Qed.

Variable k : string.
Variable a : Q.

(** Every one of the [n] downgrades counted in the window is still on the
    ledger for any window start a later call can use. *)
Definition visible (T : Q) (n : nat) (l : list Q) : Prop :=
  forall ws : Q,
    (T - inject_Z (EXCEPTION_WINDOW_SEC cfg) <= ws)%Q -> (ws <= a)%Q ->
    (n <= length (List.filter (fun ts => Qle_bool ws ts) l))%nat.

Lemma visible_later (T t : Q) (n : nat) (l : list Q) :
  (T <= t)%Q -> visible T n l -> visible t n l.
Proof. intros Hle Hv ws H1 H2. apply Hv; lra. Qed.

Lemma step_invariant (c : Call) (st : State) (T : Q) (n : nat) :
  (T <= c_now c)%Q ->
  visible T n (ledger st k) ->
  Z.of_nat n <= Z.max 0 (EXCEPTION_QUOTA cfg) ->
  let g := if downgraded_in_window cfg k a (c, fst (call cfg c st)) then 1%nat else 0%nat in
  visible (c_now c) (n + g) (ledger (snd (call cfg c st)) k) /\
  Z.of_nat (n + g) <= Z.max 0 (EXCEPTION_QUOTA cfg).
Proof.
  intros HT Hvis Hn. cbv zeta.
  pose proof (call_effect c st) as Heff. cbv zeta in Heff.
  unfold downgraded_in_window. cbn [fst snd].
  destruct (flagged c) eqn:Hflag.
  2: { destruct Heff as [Hev _]. cbn [andb]. rewrite Nat.add_0_r.
       split; [| exact Hn]. unfold ledger. rewrite Hev.
       eapply visible_later; eassumption. }
  destruct Heff as (Hev & Hpend & Hdeny).
  cbn [andb].
  destruct (String.eqb (call_key c) k) eqn:Hkey.
  2: { cbn [andb]. rewrite Nat.add_0_r. split; [| exact Hn].
       apply String.eqb_neq in Hkey.
       unfold ledger. rewrite Hev, within_quota_ledger.
       destruct (decide (call_key c = k)); [contradiction |].
       eapply visible_later; eassumption. }
  apply String.eqb_eq in Hkey.
  assert (Hled : ledger (snd (call cfg c st)) k
                 = recent_exceptions cfg (c_now c) k (_exception_events st)
                   ++ (if fst (_within_exception_quota cfg (c_now c) k (_exception_events st))
                       then [c_now c] else [])).
  { unfold ledger. rewrite Hev, within_quota_ledger, Hkey.
    destruct (decide (k = k)); [reflexivity | contradiction]. }
  rewrite Hkey in Hpend, Hdeny.
  assert (Hrecent : forall ws,
             (c_now c - inject_Z (EXCEPTION_WINDOW_SEC cfg) <= ws)%Q -> (ws <= a)%Q ->
             (n <= length (List.filter (fun ts => Qle_bool ws ts)
                             (recent_exceptions cfg (c_now c) k (_exception_events st))))%nat).
  { intros ws H1 H2. unfold recent_exceptions.
    rewrite filter_since_twice by exact H1. apply Hvis; lra. }
  cbn [andb].
  destruct (action_eqb (policy (fst (call cfg c st))) pending_approval) eqn:Hact;
    cbn [andb].
  2: { rewrite Nat.add_0_r. split; [| exact Hn].
       rewrite Hled. intros ws H1 H2.
       rewrite List.filter_app, length_app. specialize (Hrecent ws H1 H2). lia. }
  assert (Hp : policy (fst (call cfg c st)) = pending_approval).
  { destruct (policy (fst (call cfg c st))); cbn in Hact; congruence. }
  specialize (Hpend Hp).
  destruct (Qle_bool a (c_now c)) eqn:Hlo; cbn [andb].
  2: { rewrite Nat.add_0_r. split; [| exact Hn].
       rewrite Hled. intros ws H1 H2.
       rewrite List.filter_app, length_app. specialize (Hrecent ws H1 H2). lia. }
  destruct (Qle_bool (c_now c) (a + inject_Z (EXCEPTION_WINDOW_SEC cfg))) eqn:Hhi.
  2: { rewrite Nat.add_0_r. split; [| exact Hn].
       rewrite Hled. intros ws H1 H2.
       rewrite List.filter_app, length_app. specialize (Hrecent ws H1 H2). lia. }
  apply Qle_bool_iff in Hlo, Hhi.
  split.
  - rewrite Hled, Hpend. intros ws H1 H2.
    rewrite List.filter_app, length_app. cbn [List.filter].
    assert (Qle_bool ws (c_now c) = true) as -> by (apply Qle_bool_iff; lra).
    specialize (Hrecent ws H1 H2). cbn [length]. lia.
  - apply within_quota_iff in Hpend.
    assert (n <= length (recent_exceptions cfg (c_now c) k (_exception_events st)))%nat.
    { specialize (Hrecent (c_now c - inject_Z (EXCEPTION_WINDOW_SEC cfg))%Q).
      unfold recent_exceptions in *.
      rewrite filter_since_twice in Hrecent by lra.
      apply Hrecent; lra. }
    lia.
Qed.

Lemma Forall_times (t : Q) (cs : list Call) :
  Forall (fun t' => (t <= t')%Q) (map c_now cs) ->
  Forall (fun c' => (t <= c_now c')%Q) cs.
Proof.
  induction cs as [| c cs IH]; intros H; [constructor |].
  cbn [map] in H. inversion H; subst. constructor; auto.
Qed.

Lemma run_invariant (cs : list Call) :
  forall (st : State) (T : Q) (n : nat),
    Forall (fun c => (T <= c_now c)%Q) cs ->
    nondecreasing (map c_now cs) ->
    visible T n (ledger st k) ->
    Z.of_nat n <= Z.max 0 (EXCEPTION_QUOTA cfg) ->
    Z.of_nat (n + length (List.filter (downgraded_in_window cfg k a)
                            (combine cs (fst (run cfg cs st)))))
    <= Z.max 0 (EXCEPTION_QUOTA cfg).
Proof.
  induction cs as [| c cs IH]; intros st T n Hall Hsorted Hvis Hn.
  - cbn. rewrite Nat.add_0_r. exact Hn.
  - rewrite run_cons. cbn [combine List.filter].
    inversion Hall as [| ? ? HT _]; subst.
    cbn [map nondecreasing] in Hsorted. destruct Hsorted as [Hnext Hsorted].
    pose proof (step_invariant c st T n HT Hvis Hn) as Hstep. cbv zeta in Hstep.
    destruct Hstep as [Hvis' Hn'].
    assert (Hall' : Forall (fun c' => (c_now c <= c_now c')%Q) cs).
    { apply Forall_times. exact Hnext. }
    specialize (IH (snd (call cfg c st)) (c_now c) _ Hall' Hsorted Hvis' Hn').
    destruct (downgraded_in_window cfg k a (c, fst (call cfg c st)));
      cbn [length]; lia.
Qed.

(** At most [EXCEPTION_QUOTA] downgrades per key in any window. *)
Lemma downgrades_bounded (cs : list Call) (st : State) :
  nondecreasing (map c_now cs) ->
  Z.of_nat (length (List.filter (downgraded_in_window cfg k a)
                      (combine cs (fst (run cfg cs st)))))
  <= Z.max 0 (EXCEPTION_QUOTA cfg).
Proof.
  intros Hsorted.
  destruct cs as [| c cs]; [cbn; lia |].
  apply (run_invariant (c :: cs) st (c_now c) 0%nat).
  - cbn [map nondecreasing] in Hsorted. destruct Hsorted as [Hnext _].
    constructor; [lra |]. apply Forall_times. exact Hnext.
  - exact Hsorted.
  - intros ws _ _. lia.
  - lia.
Qed.

(** Over quota, the submission is decided block. *)
Lemma over_quota_blocks (c : Call) (st : State) :
  flagged c = true ->
  EXCEPTION_QUOTA cfg
  <= Z.of_nat (length (recent_exceptions cfg (c_now c) (call_key c) (_exception_events st))) ->
  let d := fst (call cfg c st) in
  policy d = block /\ reason d = "exception quota exceeded; blocked" /\
  action d = (if enforced d then block else allow).
Proof.
  intros Hflag Hover. cbv zeta.
  pose proof (call_effect c st) as Heff. cbv zeta in Heff. rewrite Hflag in Heff.
  destruct Heff as (_ & _ & Hdeny).
  destruct (fst (_within_exception_quota cfg (c_now c) (call_key c) (_exception_events st)))
    eqn:E.
  { apply within_quota_iff in E. lia. }
  destruct (Hdeny eq_refl) as [Hp Hr]. split; [exact Hp |]. split; [exact Hr |].
  pose proof (decide_action_fields cfg (c_now c) (c_risk c) (c_token c) (c_summary c)
                (c_client_ip c) (c_actor c) st) as Ha.
  cbv zeta in Ha. destruct Ha as (_ & _ & Ha).
  unfold call in *. rewrite Ha, Hp. reflexivity.
Qed.

End QuotaFacts.

(** C5, as the claim states it, fails: with shadow mode on and a quota of
    one, the second exception-flagged submission of an actor is over quota
    and decided block, yet the action returned is allow. *)
Lemma C5_counterexample_shadow_action_allow :
  map Policy.action
    (fst (Policy.run (Scenarios.quota_one_config true)
            [Scenarios.flagged_call 0; Scenarios.flagged_call 1] Policy.initial_state))
  = [Policy.allow; Policy.allow]
  /\ map Policy.policy
    (fst (Policy.run (Scenarios.quota_one_config true)
            [Scenarios.flagged_call 0; Scenarios.flagged_call 1] Policy.initial_state))
  = [Policy.pending_approval; Policy.block].
Proof. vm_compute. split; reflexivity. Qed.

(** C5, amended. For every actor (or token when no actor is given), a call is
    within quota iff strictly fewer than [EXCEPTION_QUOTA] exception
    timestamps are recorded within the last [EXCEPTION_WINDOW_SEC] seconds;
    so, over any served sequence whose clock readings never go back, at most
    [EXCEPTION_QUOTA] exception-flagged submissions of one key are
    downgraded from block to pending approval within any window of that
    length; and a flagged submission that finds the quota used up is decided
    block: its policy field is block, and its action is block when the
    decision is enforced, allow when it is not (shadow mode, canary). *)
Theorem C5_exception_quota :
  forall cfg : Policy.Config,
    (forall now key events_map,
        fst (Policy._within_exception_quota cfg now key events_map) = true <->
        Z.of_nat (length (Policy.recent_exceptions cfg now key events_map))
        < Policy.EXCEPTION_QUOTA cfg) /\
    (forall key a cs st,
        Policy.nondecreasing (map Policy.c_now cs) ->
        Z.of_nat (length (List.filter (Policy.downgraded_in_window cfg key a)
                            (combine cs (fst (Policy.run cfg cs st)))))
        <= Z.max 0 (Policy.EXCEPTION_QUOTA cfg)) /\
    (forall c st,
        Policy.flagged c = true ->
        Policy.EXCEPTION_QUOTA cfg
        <= Z.of_nat (length (Policy.recent_exceptions cfg (Policy.c_now c)
                               (Policy.call_key c) (Policy._exception_events st))) ->
        let d := fst (Policy.call cfg c st) in
        Policy.policy d = Policy.block /\
        Policy.reason d = "exception quota exceeded; blocked" /\
        Policy.action d = (if Policy.enforced d then Policy.block else Policy.allow)).
Proof.
  intros cfg. split; [| split].
  - apply within_quota_iff.
  - intros key a cs st. apply downgrades_bounded.
  - intros c st. apply over_quota_blocks.
Qed.

Lemma C5_witness_second_exception_blocked :
  Policy.action
    (fst (Policy.call (Scenarios.quota_one_config false) (Scenarios.flagged_call 1)
            (snd (Policy.call (Scenarios.quota_one_config false)
                    (Scenarios.flagged_call 0) Policy.initial_state))))
  = Policy.block.
Proof.
  pose proof (proj2 (proj2 (C5_exception_quota (Scenarios.quota_one_config false)))
                (Scenarios.flagged_call 1)
                (snd (Policy.call (Scenarios.quota_one_config false)
                        (Scenarios.flagged_call 0) Policy.initial_state))) as H.
  cbv zeta in H.
  assert (Hflag : Policy.flagged (Scenarios.flagged_call 1) = true) by reflexivity.
  assert (Hover : Policy.EXCEPTION_QUOTA (Scenarios.quota_one_config false)
                  <= Z.of_nat (length (Policy.recent_exceptions
                       (Scenarios.quota_one_config false)
                       (Policy.c_now (Scenarios.flagged_call 1))
                       (Policy.call_key (Scenarios.flagged_call 1))
                       (Policy._exception_events
                          (snd (Policy.call (Scenarios.quota_one_config false)
                                  (Scenarios.flagged_call 0) Policy.initial_state)))))).
  { vm_compute. discriminate. }
  destruct (H Hflag Hover) as (_ & _ & Ha).
  rewrite Ha. vm_compute. reflexivity.
Defined.

(** ** The ephemeral store *)

Section StoreFacts.
Import Storage.
Variable str_of_time : Q -> string.

Lemma alloc_fresh (data : bytes) (h : gmap loc bytes) :
  h !! fst (alloc data h) = None.
Proof.
  unfold alloc. cbn [fst]. apply not_elem_of_dom. apply is_fresh.
Qed.

Lemma alloc_lookup (data : bytes) (h : gmap loc bytes) :
  snd (alloc data h) !! fst (alloc data h) = Some data.
Proof. unfold alloc. cbn [fst snd]. apply lookup_insert_eq. Qed.

Lemma alloc_keeps (data : bytes) (h : gmap loc bytes) (l : loc) :
  is_Some (h !! l) -> snd (alloc data h) !! l = h !! l.
Proof.
  intros [x Hx]. unfold alloc. cbn [snd].
  apply lookup_insert_ne. intros Heq.
  pose proof (alloc_fresh data h) as Hf. unfold alloc in Hf. cbn [fst] in Hf.
  rewrite Heq in Hf. congruence.
Qed.

(** [put] records the entry for any time to live, over a buffer of its
    own that holds the payload. *)
Lemma put_records (now now_created now_id : Q) (token : string) (data : bytes)
    (ttl_seconds : Z) (st : Store) :
  exists entry,
    _store (put str_of_time now now_created now_id token data ttl_seconds st) !! token
    = Some entry /\
    expire_at entry = (now + inject_Z ttl_seconds)%Q /\
    read entry = false /\ access_count entry = 0 /\ created_at entry = now_created /\
    heap (put str_of_time now now_created now_id token data ttl_seconds st)
      !! ciphertext entry = Some data /\
    heap st !! ciphertext entry = None.
Proof.
  unfold put, secure_allocate, _generate_forensic_id, token_bytes.
  cbn [entropy heap _store _deletion_queue].
  pose proof (alloc_fresh
    (map (fun i => source (entropy st) (cursor (entropy st) + i)%nat) (seq 0 (length data)))
    (heap st)) as Hfresh.
  destruct (alloc _ (heap st)) as [l h] eqn:Ha.
  cbn [fst snd entropy heap _store _deletion_queue] in *.
  eexists. split; [apply lookup_insert_eq |].
  cbn [expire_at read access_count created_at ciphertext].
  repeat split; [apply lookup_insert_eq | exact Hfresh].
Qed.

Lemma put_queue (now now_created now_id : Q) (token : string) (data : bytes)
    (ttl_seconds : Z) (st : Store) :
  _deletion_queue (put str_of_time now now_created now_id token data ttl_seconds st)
  = _deletion_queue st.
Proof.
  unfold put, secure_allocate, _generate_forensic_id, token_bytes.
  cbn [entropy heap _store _deletion_queue].
  destruct (alloc _ (heap st)) as [l h]. reflexivity.
Qed.

(** A successful [get]: what it returns and what it leaves behind. *)
Lemma get_live (now : Q) (token : string) (st : Store) (entry : Entry) (data : bytes) :
  _store st !! token = Some entry ->
  (now <= expire_at entry)%Q ->
  heap st !! ciphertext entry = Some data ->
  exists f,
    get now token st
    = (Some f,
       mkStore (<[token := mkEntry (ciphertext entry) (expire_at entry) (read entry)
                              (created_at entry) (access_count entry + 1)
                              (forensic_id entry)]> (_store st))
         (_deletion_queue st) (<[f_ciphertext f := data]> (heap st)) (entropy st)) /\
    heap st !! f_ciphertext f = None /\
    f_expire_at f = expire_at entry /\ f_read f = read entry /\
    f_forensic_id f = forensic_id entry.
Proof.
  intros Hentry Hlive Hbuf. unfold get. rewrite Hentry. cbv beta iota.
  assert (Py.Qltb (expire_at entry) now = false) as -> by (apply Qltb_ge; exact Hlive).
  rewrite Hbuf. cbn [default].
  pose proof (alloc_fresh data (heap st)) as Hfresh.
  unfold alloc in *. cbn [fst] in Hfresh.
  exists (mkFetched (fresh (dom (heap st))) (expire_at entry) (read entry)
            (forensic_id entry)).
  split; [reflexivity |]. cbn. auto.
Qed.



(** [mark_read_and_delete] only queues the token: the entry stays in the
    map and a [get] before the next cleanup pass still returns it. *)
Lemma get_after_mark_read (now : Q) (token : string) (st : Store) (entry : Entry)
    (data : bytes) :
  _store st !! token = Some entry ->
  (now <= expire_at entry)%Q ->
  heap st !! ciphertext entry = Some data ->
  fst (mark_read_and_delete token st) = true /\
  fetched_bytes (get now token (snd (mark_read_and_delete token st))) = Some data.
Proof.
  intros Hentry Hlive Hbuf. unfold mark_read_and_delete. rewrite Hentry.
  cbn [fst snd]. split; [reflexivity |].
  assert (Hsame : _store (_queue_secure_deletion token st) = _store st
                  /\ heap (_queue_secure_deletion token st) = heap st).
  { unfold _queue_secure_deletion. destruct (bool_decide _); auto. }
  destruct Hsame as [Hs Hh].
  destruct (get_live now token (_queue_secure_deletion token st) entry data)
    as (f & Hget & _); [rewrite Hs; exact Hentry | exact Hlive | rewrite Hh; exact Hbuf |].
  unfold fetched_bytes. rewrite Hget. cbn [fst snd heap]. apply lookup_insert_eq.
Qed.

End StoreFacts.

(** C1, evaluated where the store departs from the claim. After
    [put("t1", b"hello", 2)] at time 0: a [get] at elapsed time 2 (the expiry
    instant) returns the payload; after [mark_read_and_delete("t1")] has
    returned true, a [get] at time 1 still returns the payload, the token
    being only queued; and a fresh [put] of the same token before the next
    cleanup pass is deleted by that pass, so that a [get] within the new
    time to live returns nothing. A [get] strictly after expiry returns
    nothing, as claimed. *)
Theorem C1_store_lifecycle_departures :
  Storage.fetched_bytes (Storage.get 2 "t1" Scenarios.store_t1) = Some Scenarios.hello
  /\ fst (Storage.get (5 # 2) "t1" Scenarios.store_t1) = None
  /\ fst (Storage.mark_read_and_delete "t1" Scenarios.store_t1) = true
  /\ Storage.fetched_bytes
       (Storage.get 1 "t1" (snd (Storage.mark_read_and_delete "t1" Scenarios.store_t1)))
     = Some Scenarios.hello
  /\ (let queued := snd (Storage.mark_read_and_delete "t1" Scenarios.store_t1) in
      let again := Storage.put Scenarios.clock_text 1 1 1 "t1" Scenarios.world 10 queued in
      Storage.fetched_bytes (Storage.get 2 "t1" again) = Some Scenarios.world
      /\ fst (Storage.get 2 "t1" (Storage._secure_cleanup_tick 3 (3 # 2) again)) = None).
Proof. vm_compute. repeat split; reflexivity. Qed.




(** C10. A [get] on an unexpired entry returns a new object holding a copy
    of the stored bytes: the object did not exist before, so it is not the
    stored buffer, and whatever a caller writes into it the store still
    holds the same bytes for the token. The call changes nothing in the
    store but the entry's [access_count], which grows by one: ciphertext,
    [expire_at], [read], [created_at] and [forensic_id] of the entry, the
    other entries, the deletion queue and every existing buffer are as
    before. *)
Theorem C10_get_returns_fresh_copy :
  forall (now : Q) (token : string) (st : Storage.Store) (entry : Storage.Entry)
    (data : Storage.bytes),
    Storage._store st !! token = Some entry ->
    (now <= Storage.expire_at entry)%Q ->
    Storage.heap st !! Storage.ciphertext entry = Some data ->
    exists f,
      let st' := snd (Storage.get now token st) in
      fst (Storage.get now token st) = Some f /\
      Storage.heap st !! Storage.f_ciphertext f = None /\
      Storage.f_ciphertext f <> Storage.ciphertext entry /\
      Storage.heap st' !! Storage.f_ciphertext f = Some data /\
      (forall new,
          Storage.stored_bytes token (Storage.overwrite (Storage.f_ciphertext f) new st')
          = Some data) /\
      Storage._store st' !! token
      = Some (Storage.mkEntry (Storage.ciphertext entry) (Storage.expire_at entry)
                (Storage.read entry) (Storage.created_at entry)
                (Storage.access_count entry + 1) (Storage.forensic_id entry)) /\
      (forall token', token' <> token ->
          Storage._store st' !! token' = Storage._store st !! token') /\
      Storage._deletion_queue st' = Storage._deletion_queue st /\
      (forall l, is_Some (Storage.heap st !! l) ->
          Storage.heap st' !! l = Storage.heap st !! l).
Proof.
  intros now token st entry data Hentry Hlive Hbuf.
  destruct (get_live now token st entry data Hentry Hlive Hbuf)
    as (f & Hget & Hfresh & _).
  assert (Hne : Storage.f_ciphertext f <> Storage.ciphertext entry).
  { intros Heq. rewrite Heq in Hfresh. congruence. }
  exists f. cbv zeta. rewrite Hget.
  cbn [fst snd Storage.heap Storage._store Storage._deletion_queue].
  split; [reflexivity |]. split; [exact Hfresh |]. split; [exact Hne |].
  split; [apply lookup_insert_eq |].
  split.
  { intros new. unfold Storage.stored_bytes, Storage.overwrite.
    cbn [Storage.heap Storage._store]. rewrite lookup_insert_eq.
    cbn [Storage.ciphertext]. rewrite !lookup_insert_ne by exact Hne. exact Hbuf. }
  split; [apply lookup_insert_eq |].
  split; [intros token' Hneq; apply lookup_insert_ne; congruence |].
  split; [reflexivity |].
  intros l [x Hx]. apply lookup_insert_ne. intros Heq. rewrite Heq in Hfresh. congruence.
Qed.

Lemma C10_witness_store_t1 :
  exists f,
    let st' := snd (Storage.get 1 "t1" Scenarios.store_t1) in
    fst (Storage.get 1 "t1" Scenarios.store_t1) = Some f /\
    Storage.heap Scenarios.store_t1 !! Storage.f_ciphertext f = None /\
    Storage.f_ciphertext f <> Storage.ciphertext Scenarios.entry_t1 /\
    Storage.heap st' !! Storage.f_ciphertext f = Some Scenarios.hello /\
    (forall new,
        Storage.stored_bytes "t1" (Storage.overwrite (Storage.f_ciphertext f) new st')
        = Some Scenarios.hello) /\
    Storage._store st' !! "t1"
    = Some (Storage.mkEntry (Storage.ciphertext Scenarios.entry_t1)
              (Storage.expire_at Scenarios.entry_t1)
              (Storage.read Scenarios.entry_t1) (Storage.created_at Scenarios.entry_t1)
              (Storage.access_count Scenarios.entry_t1 + 1)
              (Storage.forensic_id Scenarios.entry_t1)) /\
    (forall token', token' <> "t1" ->
        Storage._store st' !! token' = Storage._store Scenarios.store_t1 !! token') /\
    Storage._deletion_queue st' = Storage._deletion_queue Scenarios.store_t1 /\
    (forall l, is_Some (Storage.heap Scenarios.store_t1 !! l) ->
        Storage.heap st' !! l = Storage.heap Scenarios.store_t1 !! l).
Proof.
  apply (C10_get_returns_fresh_copy 1 "t1" Scenarios.store_t1 Scenarios.entry_t1
           Scenarios.hello).
  - vm_compute. reflexivity.
  - vm_compute. discriminate.
  - vm_compute. reflexivity.
Defined.

(** ** The metadata sanitizer *)

(** C7, as the claim states it, fails: the padded size 2048 becomes 2040,
    not 2050, and the timestamp is not floored to the minute (1699999980)
    but shifted by a random offset, here to 1700000002. *)
Lemma C7_counterexample_sanitized_values :
  Sanitizer.sanitized_of
    (Sanitizer.sanitize_metadata Sanitizer.default_config Scenarios.metadata_s6
       Scenarios.sevens)
  = Some [ ("padded_size", Sanitizer.VInt 2040); ("timestamp", Sanitizer.VInt 1700000002) ].
Proof. vm_compute. reflexivity. Qed.

(** C7, amended. Sanitizing the metadata of the scenario removes [user_id]
    and [email], quantizes [padded_size] to 2040 (the multiple of 10 at or
    below 2048) and, [timestamp] being a medium-sensitivity field,
    obfuscates it by a random integer offset between -5 and 4; the report
    has [sanitization_applied] true and a final risk of 0.2, which is at
    most 0.3. *)
Theorem C7_sanitize_scenario :
  forall r : Sanitizer.Rng,
  exists (noise : Z) (report : Sanitizer.Report),
    0 <= noise < 10 /\
    Sanitizer.sanitize_metadata Sanitizer.default_config Scenarios.metadata_s6 r
    = Some ([ ("padded_size", Sanitizer.VInt 2040);
              ("timestamp", Sanitizer.VInt (1700000000 + (noise - 5))) ],
            Sanitizer.Sanitized report,
            Sanitizer.mkRng (Sanitizer.draws r) (S (Sanitizer.next r))) /\
    Sanitizer.removed_fields report = ["user_id"; "email"] /\
    Sanitizer.quantized_fields report = ["padded_size"] /\
    Sanitizer.obfuscated_fields report = ["timestamp"] /\
    Sanitizer.sanitization_applied report = true /\
    (Sanitizer.final_risk_score report == 2 # 10)%Q /\
    (Sanitizer.final_risk_score report <= 3 # 10)%Q.
Proof.
  intros r.
  exists (Sanitizer.draws r (Sanitizer.next r) mod 10).
  eexists. split; [apply Z.mod_pos_bound; lia |].
  split.
  - lazy -[Z.modulo Z.add Z.sub]. reflexivity.
  - cbn. repeat split; try reflexivity. vm_compute. discriminate.
Qed.


Section SanitizerFacts.
Import Py Sanitizer.



Lemma any_in_false_contains (patterns : list string) (s p : string) :
  any_in patterns s = false -> In p patterns -> contains p s = false.
Proof.
  unfold any_in. intros Hany Hin.
  destruct (contains p s) eqn:E; [| reflexivity].
  assert (existsb (fun pattern => contains pattern s) patterns = true); [| congruence].
  apply existsb_exists. exists p. auto.
Qed.










End SanitizerFacts.



(** ** The audit log *)

Section JsonInduction.
Import Audit.
Variable P : json -> Prop.
Hypothesis Hnull : P JNull.
Hypothesis Hbool : forall b, P (JBool b).
Hypothesis Hint : forall z, P (JInt z).
Hypothesis Hstr : forall s, P (JStr s).
Hypothesis Hlist : forall l, Forall P l -> P (JList l).
Hypothesis Hdict : forall items, Forall (fun kv => P (snd kv)) items -> P (JDict items).

Fixpoint json_induction (j : json) : P j :=
  match j with
  | JNull => Hnull
  | JBool b => Hbool b
  | JInt z => Hint z
  | JStr s => Hstr s
  | JList l =>
      Hlist l
        ((fix go (l : list json) : Forall P l :=
            match l with
            | [] => @List.Forall_nil _ P
            | x :: l' => @List.Forall_cons _ P x l' (json_induction x) (go l')
            end) l)
  | JDict items =>
      Hdict items
        ((fix go (its : list (string * json)) : Forall (fun kv => P (snd kv)) its :=
            match its with
            | [] => @List.Forall_nil _ (fun kv => P (snd kv))
            | (k, v) :: its' =>
                @List.Forall_cons _ (fun kv => P (snd kv)) (k, v) its'
                  (json_induction v) (go its')
            end) items)
  end.
End JsonInduction.

Section AuditFacts.
Import Py Audit.

(** The key-stretching function is never unfolded in what follows. *)
Opaque Hashlib.pbkdf2_hmac_sha256.

(** A character that is not a control character. *)
Definition printable (c : ascii) : bool := (32 <=? nat_of_ascii c)%nat.

(** A character that can stand in a checksum: printable, no space, no
    bar. *)
Definition plain (c : ascii) : bool :=
  printable c && negb (is_space c) && negb (Ascii.eqb c bar).

Lemma forallb_app_true {A} (p : A -> bool) (l1 l2 : list A) :
  forallb p l1 = true -> forallb p l2 = true -> forallb p (l1 ++ l2) = true.
Proof. intros H1 H2. rewrite forallb_app, H1, H2. reflexivity. Qed.

Lemma digit_char_printable (d : Z) : printable (digit_char d) = true.
Proof.
  unfold printable, digit_char.
  pose proof (Z.mod_pos_bound d 10 ltac:(lia)) as Hb.
  rewrite nat_ascii_embedding by lia.
  apply Nat.leb_le. lia.
Qed.

Lemma digits_printable (fuel : nat) :
  forall n acc, forallb printable acc = true -> forallb printable (digits fuel n acc) = true.
Proof.
  induction fuel as [| fuel IH]; intros n acc Hacc; [exact Hacc |].
  cbn [digits].
  assert (Hacc' : forallb printable (digit_char n :: acc) = true).
  { cbn [forallb]. rewrite digit_char_printable, Hacc. reflexivity. }
  destruct (n <? 10); [exact Hacc' | apply IH; exact Hacc'].
Qed.

Lemma str_of_int_printable (z : Z) : forallb printable (str_of_int z) = true.
Proof.
  unfold str_of_int. destruct (z <? 0).
  - cbn [forallb]. rewrite digits_printable; reflexivity.
  - apply digits_printable. reflexivity.
Qed.

Lemma hex_char_printable (n : nat) : printable (hex_char n) = true.
Proof.
  unfold hex_char.
  do 17 (destruct n as [| n]; [reflexivity |]). destruct n; reflexivity.
Qed.

Lemma escape_char_printable (c : ascii) : forallb printable (escape_char c) = true.
Proof.
  unfold escape_char.
  repeat match goal with
         | |- context [if ?b then _ else _] => destruct b eqn:?; [try reflexivity |]
         end.
  - cbn [forallb]. rewrite !hex_char_printable. reflexivity.
  - cbn [forallb]. unfold printable.
    match goal with H : (_ <? 32)%nat = false |- _ => apply Nat.ltb_ge in H end.
    rewrite andb_true_r. apply Nat.leb_le. assumption.
Qed.

Lemma encode_basestring_printable (s : string) :
  forallb printable (encode_basestring s) = true.
Proof.
  unfold encode_basestring. cbn [forallb]. apply andb_true_iff. split; [reflexivity |].
  apply forallb_app_true; [| reflexivity].
  induction (text_of s) as [| c t IH]; [reflexivity |].
  cbn [flat_map]. apply forallb_app_true; [apply escape_char_printable | exact IH].
Qed.

Lemma join_printable (sep : text) (parts : list text) :
  forallb printable sep = true ->
  Forall (fun p => forallb printable p = true) parts ->
  forallb printable (join sep parts) = true.
Proof.
  intros Hsep Hparts. induction Hparts as [| p ps Hp Hps IH]; [reflexivity |].
  cbn [join]. destruct ps as [| p' ps']; [exact Hp |].
  apply forallb_app_true; [exact Hp |]. apply forallb_app_true; [exact Hsep | exact IH].
Qed.

Lemma dumps_printable (j : json) : forallb printable (dumps j) = true.
Proof.
  induction j using json_induction.
  - reflexivity.
  - destruct b; reflexivity.
  - apply str_of_int_printable.
  - apply encode_basestring_printable.
  - cbn [dumps forallb]. apply andb_true_iff. split; [reflexivity |].
    apply forallb_app_true; [| reflexivity].
    apply join_printable; [reflexivity |].
    apply Forall_map. exact H.
  - cbn [dumps forallb]. apply andb_true_iff. split; [reflexivity |].
    apply forallb_app_true; [| reflexivity].
    apply join_printable; [reflexivity |].
    apply Forall_map. eapply Forall_impl; [exact H |].
    intros [k v] Hv. cbn [snd] in Hv.
    apply forallb_app_true; [apply encode_basestring_printable |].
    cbn [forallb]. rewrite Hv. reflexivity.
Qed.

Lemma forallb_take {A} (p : A -> bool) (n : nat) (l : list A) :
  forallb p l = true -> forallb p (take n l) = true.
Proof.
  revert n. induction l as [| x l IH]; intros [| n] H; try reflexivity.
  cbn [take forallb] in *. apply andb_true_iff in H as [Hx Hl].
  rewrite Hx, IH by exact Hl. reflexivity.
Qed.

Lemma hex_digit_plain (z : Z) : plain (Hashlib.hex_digit z) = true.
Proof.
  unfold Hashlib.hex_digit.
  destruct (Z.to_nat z) as [| n]; [reflexivity |].
  do 16 (destruct n as [| n]; [reflexivity |]). destruct n; reflexivity.
Qed.

Lemma hex_plain (bs : list byte) : forallb plain (text_of (Hashlib.hex bs)) = true.
Proof.
  induction bs as [| b bs IH]; [reflexivity |].
  cbn [Hashlib.hex text_of String.list_ascii_of_string forallb].
  unfold text_of in IH. rewrite !hex_digit_plain, IH. reflexivity.
Qed.

Lemma checksum_plain (cfg : Config) (self : State) (data : text) :
  forallb plain (_calculate_checksum cfg self data) = true.
Proof.
  unfold _calculate_checksum. destruct (negb _); [reflexivity |].
  apply forallb_take. apply hex_plain.
Qed.



Lemma plain_printable (t : text) : forallb plain t = true -> forallb printable t = true.
Proof.
  induction t as [| c t IH]; [reflexivity |]. cbn [forallb]. intros H.
  apply andb_true_iff in H as [Hc Ht]. rewrite (IH Ht).
  unfold plain in Hc. apply andb_true_iff in Hc as [Hc _].
  apply andb_true_iff in Hc as [Hc _]. rewrite Hc. reflexivity.
Qed.

Lemma log_line_printable (cfg : Config) (self : State) (entry : Entry) :
  forallb printable (log_line cfg self entry) = true.
Proof.
  unfold log_line. destruct (ENABLE_TAMPER_DETECTION cfg); [| apply dumps_printable].
  apply forallb_app_true; [apply dumps_printable |].
  cbn [forallb]. apply andb_true_iff. split; [reflexivity |].
  apply plain_printable, checksum_plain.
Qed.

Lemma printable_not_break (c : ascii) :
  printable c = true -> Ascii.eqb c newline = false /\ Ascii.eqb c carriage_return = false.
Proof.
  intros Hc. split.
  - destruct (Ascii.eqb_spec c newline) as [-> |]; [discriminate | reflexivity].
  - destruct (Ascii.eqb_spec c carriage_return) as [-> |]; [discriminate | reflexivity].
Qed.

(** Reading back a line written without control characters. *)
Lemma readlines_line (l rest : text) :
  forallb printable l = true ->
  readlines (l ++ newline :: rest) = (l ++ [newline]) :: readlines rest.
Proof.
  induction l as [| c l IH]; intros Hl.
  - reflexivity.
  - cbn [forallb] in Hl. apply andb_true_iff in Hl as [Hc Hl].
    destruct (printable_not_break c Hc) as [Hn Hr].
    cbn [app readlines]. rewrite Hn, Hr, (IH Hl). reflexivity.
Qed.




















Transparent Hashlib.pbkdf2_hmac_sha256.

End AuditFacts.



(** * Further properties *)

(** ** The ephemeral store: queue, cleanup and deletion *)

Section StoreCleanupFacts.
Import Storage.
Variable SECURE_DELETE_PASSES : Z.

Lemma queue_frame (token : string) (st : Store) :
  _store (_queue_secure_deletion token st) = _store st /\
  heap (_queue_secure_deletion token st) = heap st /\
  entropy (_queue_secure_deletion token st) = entropy st.
Proof. unfold _queue_secure_deletion. destruct (bool_decide _); auto. Qed.

Lemma queue_elem (token : string) (st : Store) (t : string) :
  t ∈ _deletion_queue (_queue_secure_deletion token st)
  <-> t ∈ _deletion_queue st \/ t = token.
Proof.
  unfold _queue_secure_deletion. destruct (bool_decide _) eqn:E.
  - apply bool_decide_eq_true in E. split; [auto | intros [H | ->]; assumption].
  - cbn [_deletion_queue]. rewrite elem_of_app, list_elem_of_singleton. reflexivity.
Qed.

Lemma queue_nodup (token : string) (st : Store) :
  NoDup (_deletion_queue st) -> NoDup (_deletion_queue (_queue_secure_deletion token st)).
Proof.
  intros Hnd. unfold _queue_secure_deletion. destruct (bool_decide _) eqn:E; [exact Hnd |].
  apply bool_decide_eq_false in E. cbn [_deletion_queue].
  apply NoDup_app. split; [exact Hnd |]. split.
  - intros x Hx Hin. apply list_elem_of_singleton in Hin. subst. contradiction.
  - apply NoDup_singleton.
Qed.

Lemma queue_all_frame (tokens : list string) (st : Store) :
  _store (fold_left (fun s t => _queue_secure_deletion t s) tokens st) = _store st /\
  heap (fold_left (fun s t => _queue_secure_deletion t s) tokens st) = heap st /\
  entropy (fold_left (fun s t => _queue_secure_deletion t s) tokens st) = entropy st.
Proof.
  revert st. induction tokens as [| t tokens IH]; intros st; cbn [fold_left]; [auto |].
  destruct (IH (_queue_secure_deletion t st)) as (H1 & H2 & H3).
  destruct (queue_frame t st) as (G1 & G2 & G3).
  rewrite H1, H2, H3. auto.
Qed.

Lemma queue_all_elem (tokens : list string) (st : Store) (t : string) :
  t ∈ _deletion_queue (fold_left (fun s t => _queue_secure_deletion t s) tokens st)
  <-> t ∈ _deletion_queue st \/ t ∈ tokens.
Proof.
  revert st. induction tokens as [| t' tokens IH]; intros st; cbn [fold_left].
  - rewrite elem_of_nil. tauto.
  - rewrite IH, queue_elem, elem_of_cons. tauto.
Qed.

Lemma queue_all_nodup (tokens : list string) (st : Store) :
  NoDup (_deletion_queue st) ->
  NoDup (_deletion_queue (fold_left (fun s t => _queue_secure_deletion t s) tokens st)).
Proof.
  revert st. induction tokens as [| t tokens IH]; intros st Hnd; cbn [fold_left];
    [exact Hnd |].
  apply IH, queue_nodup, Hnd.
Qed.

Lemma token_bytes_length (n : nat) (e : Entropy) : length (fst (token_bytes n e)) = n.
Proof. unfold token_bytes. cbn [fst]. rewrite length_map, length_seq. reflexivity. Qed.

Lemma random_passes_length (n : nat) (k : list nat) (acc : bytes * Entropy) :
  length (fst acc) = n ->
  length (fst (fold_left (fun acc _ => token_bytes n (snd acc)) k acc)) = n.
Proof.
  revert acc. induction k as [| x k IH]; intros acc Hacc; cbn [fold_left]; [exact Hacc |].
  apply IH, token_bytes_length.
Qed.

(** What [secure_deallocate] does to a buffer, and that it does nothing
    else. *)
Lemma secure_deallocate_spec (l : loc) (passes : Z) (st : Store) :
  _store (secure_deallocate l passes st) = _store st /\
  _deletion_queue (secure_deallocate l passes st) = _deletion_queue st /\
  (forall l', l' <> l -> heap (secure_deallocate l passes st) !! l' = heap st !! l') /\
  (forall data, heap st !! l = Some data ->
     exists data', heap (secure_deallocate l passes st) !! l = Some data' /\
       length data' = length data /\
       (passes <= 0 -> data' = data) /\
       (passes = 1 -> data' = repeat x00 (length data)) /\
       (passes = 2 -> data' = repeat xff (length data))) /\
  (heap st !! l = None -> secure_deallocate l passes st = st).
Proof.
  unfold secure_deallocate.
  destruct (heap st !! l) as [data |] eqn:Hl.
  2: { repeat split; try reflexivity; try congruence. }
  destruct (token_bytes (length data) (entropy st)) as [rnd e] eqn:Hrnd.
  assert (Hrl : length rnd = length data).
  { pose proof (token_bytes_length (length data) (entropy st)) as H.
    rewrite Hrnd in H. exact H. }
  destruct (length data =? 0)%nat eqn:En.
  - apply Nat.eqb_eq in En. cbn [_store _deletion_queue heap].
    repeat split; try reflexivity; try congruence.
    intros d Hd. injection Hd as <-. exists data. rewrite Hl.
    destruct data; [| discriminate]. repeat split; reflexivity.
  - set (final := if passes <=? 0 then data
                  else if passes =? 1 then repeat x00 (length data)
                  else if passes =? 2 then repeat xff (length data) else rnd).
    assert (Hfl : length final = length data).
    { unfold final. destruct (passes <=? 0); [reflexivity |].
      destruct (passes =? 1); [apply repeat_length |].
      destruct (passes =? 2); [apply repeat_length | exact Hrl]. }
    destruct (3 <? passes) eqn:E3.
    + pose proof (random_passes_length (length data) (seq 0 (Z.to_nat (passes - 3)))
                    (final, e) Hfl) as Hlen.
      destruct (fold_left _ _ (final, e)) as [final' e'].
      cbn [_store _deletion_queue heap fst] in *.
      split; [reflexivity |]. split; [reflexivity |].
      split; [intros l' Hne; apply lookup_insert_ne; congruence |].
      split; [| congruence].
      intros d Hd. injection Hd as <-. exists final'.
      rewrite lookup_insert_eq. apply Z.ltb_lt in E3.
      repeat split; try exact Hlen; intros; lia.
    + cbn [_store _deletion_queue heap].
      split; [reflexivity |]. split; [reflexivity |].
      split; [intros l' Hne; apply lookup_insert_ne; congruence |].
      split; [| congruence].
      intros d Hd. injection Hd as <-. exists final.
      rewrite lookup_insert_eq.
      split; [reflexivity |]. split; [exact Hfl |].
      unfold final. repeat split.
      * intros Hle. apply Z.leb_le in Hle. rewrite Hle. reflexivity.
      * intros ->. reflexivity.
      * intros ->. reflexivity.
Qed.

(** [_secure_delete_entry] on a token of the store. *)
Lemma secure_delete_spec (token : string) (st : Store) :
  _store (_secure_delete_entry SECURE_DELETE_PASSES token st) = delete token (_store st) /\
  _deletion_queue (_secure_delete_entry SECURE_DELETE_PASSES token st)
  = _deletion_queue st /\
  (forall l, is_Some (heap (_secure_delete_entry SECURE_DELETE_PASSES token st) !! l)
             <-> is_Some (heap st !! l)) /\
  (forall l entry, _store st !! token = Some entry -> l <> ciphertext entry ->
     heap (_secure_delete_entry SECURE_DELETE_PASSES token st) !! l = heap st !! l) /\
  (_store st !! token = None ->
     _secure_delete_entry SECURE_DELETE_PASSES token st = st).
Proof.
  unfold _secure_delete_entry.
  destruct (_store st !! token) as [entry |] eqn:He.
  2: { split; [symmetry; apply delete_id; exact He |].
       repeat split; try reflexivity; try tauto; congruence. }
  set (st0 := mkStore (delete token (_store st)) (_deletion_queue st) (heap st) (entropy st)).
  set (st1 := secure_deallocate (ciphertext entry) SECURE_DELETE_PASSES st0).
  destruct (secure_deallocate_spec (ciphertext entry) SECURE_DELETE_PASSES st0)
    as (A1 & A2 & A3 & A4 & A5).
  destruct (secure_deallocate_spec (ciphertext entry) SECURE_DELETE_PASSES st1)
    as (B1 & B2 & B3 & B4 & B5).
  fold st1 in A1, A2, A3, A4, A5.
  split; [rewrite B1, A1; reflexivity |].
  split; [rewrite B2, A2; reflexivity |].
  split.
  { intros l. destruct (decide (l = ciphertext entry)) as [-> | Hne].
    - destruct (heap st !! ciphertext entry) as [d |] eqn:Hd.
      + destruct (A4 d Hd) as (d1 & Hd1 & _).
        destruct (B4 d1 Hd1) as (d2 & Hd2 & _).
        rewrite Hd2. split; eauto.
      + assert (Hs1 : st1 = st0) by (apply A5; exact Hd).
        rewrite B5 by (rewrite Hs1; exact Hd). rewrite Hs1. cbn [heap st0].
        rewrite Hd. tauto.
    - rewrite B3, A3 by exact Hne. reflexivity. }
  split; [| congruence].
  intros l entry' Heq Hne. injection Heq as <-.
  rewrite B3, A3 by exact Hne. reflexivity.
Qed.

Lemma secure_delete_all (tokens : list string) (st : Store) :
  (forall t, _store (fold_left (fun s t => _secure_delete_entry SECURE_DELETE_PASSES t s)
                       tokens st) !! t
             = if bool_decide (t ∈ tokens) then None else _store st !! t) /\
  _deletion_queue (fold_left (fun s t => _secure_delete_entry SECURE_DELETE_PASSES t s)
                     tokens st) = _deletion_queue st /\
  (forall l, is_Some (heap (fold_left
                              (fun s t => _secure_delete_entry SECURE_DELETE_PASSES t s)
                              tokens st) !! l)
             <-> is_Some (heap st !! l)).
Proof.
  revert st. induction tokens as [| t' tokens IH]; intros st; cbn [fold_left].
  - split; [intros t; rewrite bool_decide_eq_false_2 by apply not_elem_of_nil; reflexivity |].
    split; [reflexivity | tauto].
  - destruct (IH (_secure_delete_entry SECURE_DELETE_PASSES t' st)) as (H1 & H2 & H3).
    destruct (secure_delete_spec t' st) as (G1 & G2 & G3 & _).
    split.
    { intros t. rewrite H1, G1.
      destruct (decide (t = t')) as [-> | Hne].
      - rewrite lookup_delete_eq.
        rewrite (bool_decide_eq_true_2 (t' ∈ t' :: tokens)) by apply list_elem_of_here.
        destruct (bool_decide _); reflexivity.
      - rewrite lookup_delete_ne by congruence.
        destruct (bool_decide (t ∈ tokens)) eqn:E.
        + apply bool_decide_eq_true in E.
          rewrite bool_decide_eq_true_2 by (apply list_elem_of_further; exact E).
          reflexivity.
        + apply bool_decide_eq_false in E.
          rewrite bool_decide_eq_false_2; [reflexivity |].
          intros Hin. apply elem_of_cons in Hin. tauto. }
    split; [rewrite H2, G2; reflexivity |].
    intros l. rewrite H3, G3. reflexivity.
Qed.

Lemma expired_tokens_elem (now : Q) (st : Store) (t : string) :
  t ∈ expired_tokens now st
  <-> exists entry, _store st !! t = Some entry /\ (expire_at entry <= now)%Q.
Proof.
  unfold expired_tokens. rewrite list_elem_of_fmap. split.
  - intros [[t' entry] [-> Hin]]. cbn [fst].
    apply list_elem_of_In, filter_In in Hin. destruct Hin as [Hin Hle].
    apply list_elem_of_In, elem_of_map_to_list in Hin. cbn [snd] in Hle.
    exists entry. split; [exact Hin |]. apply Qle_bool_iff. exact Hle.
  - intros [entry [Hin Hle]]. exists (t, entry). split; [reflexivity |].
    apply list_elem_of_In, filter_In. split.
    + apply list_elem_of_In, elem_of_map_to_list. exact Hin.
    + cbn [snd]. apply Qle_bool_iff. exact Hle.
Qed.

(** One pass of the cleanup loop. *)
Lemma cleanup_tick_spec (now : Q) (st : Store) :
  (forall t, _store (_secure_cleanup_tick SECURE_DELETE_PASSES now st) !! t
             = if bool_decide (t ∈ _deletion_queue st) then None else _store st !! t) /\
  (forall t, t ∈ _deletion_queue (_secure_cleanup_tick SECURE_DELETE_PASSES now st)
             <-> exists entry,
                   _store (_secure_cleanup_tick SECURE_DELETE_PASSES now st) !! t
                   = Some entry /\ (expire_at entry <= now)%Q) /\
  NoDup (_deletion_queue (_secure_cleanup_tick SECURE_DELETE_PASSES now st)) /\
  (forall l, is_Some (heap (_secure_cleanup_tick SECURE_DELETE_PASSES now st) !! l)
             <-> is_Some (heap st !! l)).
Proof.
  unfold _secure_cleanup_tick.
  set (st0 := mkStore (_store st) [] (heap st) (entropy st)).
  set (st1 := fold_left (fun s t => _secure_delete_entry SECURE_DELETE_PASSES t s)
                (_deletion_queue st) st0).
  destruct (secure_delete_all (_deletion_queue st) st0) as (H1 & H2 & H3).
  fold st1 in H1, H2, H3. cbn [st0 _store _deletion_queue heap] in H1, H2, H3.
  destruct (queue_all_frame (expired_tokens now st1) st1) as (F1 & F2 & _).
  split; [intros t; rewrite F1; apply H1 |].
  split.
  { intros t. rewrite queue_all_elem, F1, H2, elem_of_nil, expired_tokens_elem. tauto. }
  split.
  { apply queue_all_nodup. rewrite H2. apply NoDup_nil_2. }
  intros l. rewrite F2. apply H3.
Qed.

Lemma drain_spec (q : list string) :
  forall (st : Store) (deleted : Z),
    _deletion_queue st = q ->
    fst (drain SECURE_DELETE_PASSES (length q) st deleted) = deleted + Z.of_nat (length q) /\
    _deletion_queue (snd (drain SECURE_DELETE_PASSES (length q) st deleted)) = [] /\
    (forall t, _store (snd (drain SECURE_DELETE_PASSES (length q) st deleted)) !! t
               = if bool_decide (t ∈ q) then None else _store st !! t) /\
    (forall l, is_Some (heap (snd (drain SECURE_DELETE_PASSES (length q) st deleted)) !! l)
               <-> is_Some (heap st !! l)).
Proof.
  induction q as [| token q IH]; intros st deleted Hq.
  - cbn [length drain fst snd]. rewrite Hq.
    split; [cbn; lia |]. split; [reflexivity |].
    split; [| tauto].
    intros t. rewrite bool_decide_eq_false_2 by apply not_elem_of_nil. reflexivity.
  - cbn [length drain]. rewrite Hq.
    set (st0 := mkStore (_store st) q (heap st) (entropy st)).
    destruct (secure_delete_spec token st0) as (G1 & G2 & G3 & _).
    destruct (IH (_secure_delete_entry SECURE_DELETE_PASSES token st0) (deleted + 1) G2)
      as (H1 & H2 & H3 & H4).
    split; [rewrite H1; lia |]. split; [exact H2 |].
    split.
    { intros t. rewrite H3, G1. cbn [st0 _store].
      destruct (decide (t = token)) as [-> | Hne].
      - rewrite lookup_delete_eq.
        rewrite (bool_decide_eq_true_2 (token ∈ token :: q)) by apply list_elem_of_here.
        destruct (bool_decide _); reflexivity.
      - rewrite lookup_delete_ne by congruence.
        destruct (bool_decide (t ∈ q)) eqn:E.
        + apply bool_decide_eq_true in E.
          rewrite bool_decide_eq_true_2 by (apply list_elem_of_further; exact E).
          reflexivity.
        + apply bool_decide_eq_false in E.
          rewrite bool_decide_eq_false_2; [reflexivity |].
          intros Hin. apply elem_of_cons in Hin. tauto. }
    intros l. rewrite H4, G3. reflexivity.
Qed.

Lemma force_cleanup_spec (st : Store) :
  _store (snd (force_secure_cleanup SECURE_DELETE_PASSES st)) = ∅ /\
  _deletion_queue (snd (force_secure_cleanup SECURE_DELETE_PASSES st)) = [] /\
  (forall l, is_Some (heap (snd (force_secure_cleanup SECURE_DELETE_PASSES st)) !! l)
             <-> is_Some (heap st !! l)) /\
  fst (force_secure_cleanup SECURE_DELETE_PASSES st)
  = Z.of_nat (length (_deletion_queue
       (fold_left (fun s t => _queue_secure_deletion t s)
          (map fst (map_to_list (_store st))) st))).
Proof.
  unfold force_secure_cleanup.
  set (st1 := fold_left (fun s t => _queue_secure_deletion t s)
                (map fst (map_to_list (_store st))) st).
  destruct (queue_all_frame (map fst (map_to_list (_store st))) st) as (F1 & F2 & _).
  fold st1 in F1, F2.
  destruct (drain_spec (_deletion_queue st1) st1 0 eq_refl) as (H1 & H2 & H3 & H4).
  split.
  { apply map_eq. intros t. rewrite H3, lookup_empty.
    destruct (bool_decide _) eqn:E; [reflexivity |].
    apply bool_decide_eq_false in E. rewrite F1.
    destruct (_store st !! t) as [entry |] eqn:Ht; [| reflexivity].
    exfalso. apply E. unfold st1. apply queue_all_elem. right.
    apply list_elem_of_fmap. exists (t, entry). split; [reflexivity |].
    apply elem_of_map_to_list. exact Ht. }
  split; [exact H2 |].
  split; [intros l; rewrite H4, F2; reflexivity |].
  rewrite H1. lia.
Qed.

End StoreCleanupFacts.

Section StoreInvariantFacts.
Import Storage.
Variable SECURE_DELETE_PASSES : Z.
Variable str_of_time : Q -> string.

(** Every entry owns a buffer of the heap, no two entries share one, and
    the deletion queue holds no token twice. *)
Definition well_formed (st : Store) : Prop :=
  NoDup (_deletion_queue st) /\
  (forall t entry, _store st !! t = Some entry -> is_Some (heap st !! ciphertext entry)) /\
  (forall t1 t2 e1 e2, t1 <> t2 -> _store st !! t1 = Some e1 -> _store st !! t2 = Some e2 ->
     ciphertext e1 <> ciphertext e2).

Lemma well_formed_shrink (st st' : Store) :
  well_formed st ->
  NoDup (_deletion_queue st') ->
  (forall t entry, _store st' !! t = Some entry -> _store st !! t = Some entry) ->
  (forall l, is_Some (heap st !! l) -> is_Some (heap st' !! l)) ->
  well_formed st'.
Proof.
  intros (Hq & Hb & Hd) Hq' Hsub Hheap. split; [exact Hq' |]. split.
  - intros t entry Ht. apply Hheap, (Hb t). apply Hsub, Ht.
  - intros t1 t2 e1 e2 Hne H1 H2. apply (Hd t1 t2); auto.
Qed.

Lemma put_well_formed (now now_created now_id : Q) (token : string) (data : bytes)
    (ttl_seconds : Z) (st : Store) :
  well_formed st ->
  well_formed (put str_of_time now now_created now_id token data ttl_seconds st).
Proof.
  intros (Hq & Hb & Hd).
  unfold well_formed, put, secure_allocate, _generate_forensic_id, token_bytes in *.
  cbn [entropy heap _store _deletion_queue] in *.
  pose proof (alloc_fresh
    (map (fun i => source (entropy st) (cursor (entropy st) + i)%nat) (seq 0 (length data)))
    (heap st)) as Hfresh.
  destruct (alloc _ (heap st)) as [l h] eqn:Ha.
  assert (Hh : h = <[l := map (fun i => source (entropy st) (cursor (entropy st) + i)%nat)
                            (seq 0 (length data))]> (heap st)).
  { unfold alloc in Ha. injection Ha as <- <-. reflexivity. }
  cbn [fst snd entropy heap _store _deletion_queue] in *.
  split; [exact Hq |]. split.
  - intros t entry Ht. destruct (decide (t = token)) as [-> | Hne].
    + rewrite lookup_insert_eq in Ht. injection Ht as <-. cbn [ciphertext].
      rewrite lookup_insert_eq. eauto.
    + rewrite lookup_insert_ne in Ht by congruence.
      destruct (Hb t entry Ht) as [x Hx].
      assert (ciphertext entry <> l) by (intros Heq; rewrite Heq in Hx; congruence).
      rewrite lookup_insert_ne by congruence. subst h.
      rewrite lookup_insert_ne by congruence. eauto.
  - intros t1 t2 e1 e2 Hne H1 H2.
    destruct (decide (t1 = token)) as [-> | Hn1];
      destruct (decide (t2 = token)) as [-> | Hn2]; try congruence.
    + rewrite lookup_insert_eq in H1. injection H1 as <-. cbn [ciphertext].
      rewrite lookup_insert_ne in H2 by congruence.
      destruct (Hb t2 e2 H2) as [x Hx]. intros Heq. rewrite Heq in Hfresh. congruence.
    + rewrite lookup_insert_eq in H2. injection H2 as <-. cbn [ciphertext].
      rewrite lookup_insert_ne in H1 by congruence.
      destruct (Hb t1 e1 H1) as [x Hx]. intros Heq. rewrite <- Heq in Hfresh. congruence.
    + rewrite lookup_insert_ne in H1, H2 by congruence. apply (Hd t1 t2); auto.
Qed.

Lemma queue_well_formed (token : string) (st : Store) :
  well_formed st -> well_formed (_queue_secure_deletion token st).
Proof.
  intros Hwf. destruct (queue_frame token st) as (F1 & F2 & _).
  apply (well_formed_shrink st); [exact Hwf | apply queue_nodup, Hwf | |].
  - intros t entry. rewrite F1. auto.
  - intros l. rewrite F2. auto.
Qed.

Lemma get_well_formed (now : Q) (token : string) (st : Store) :
  well_formed st -> well_formed (snd (get now token st)).
Proof.
  intros Hwf. unfold get.
  destruct (_store st !! token) as [entry |] eqn:He; [| exact Hwf].
  destruct (Py.Qltb (expire_at entry) now); [apply queue_well_formed, Hwf |].
  destruct Hwf as (Hq & Hb & Hd).
  pose proof (alloc_fresh (default [] (heap st !! ciphertext entry)) (heap st)) as Hfresh.
  unfold alloc in *. cbn [fst snd _store _deletion_queue heap] in *.
  unfold well_formed. cbn [_store _deletion_queue heap].
  split; [exact Hq |]. split.
  - intros t e Ht. destruct (decide (t = token)) as [-> | Hne].
    + rewrite lookup_insert_eq in Ht. injection Ht as <-. cbn [ciphertext].
      destruct (Hb token entry He) as [x Hx].
      rewrite lookup_insert_ne by (intros Heq; rewrite Heq in Hfresh; congruence). eauto.
    + rewrite lookup_insert_ne in Ht by congruence.
      destruct (Hb t e Ht) as [x Hx].
      rewrite lookup_insert_ne by (intros Heq; rewrite Heq in Hfresh; congruence). eauto.
  - intros t1 t2 e1 e2 Hne H1 H2.
    destruct (decide (t1 = token)) as [-> | Hn1];
      destruct (decide (t2 = token)) as [-> | Hn2]; try congruence.
    + rewrite lookup_insert_eq in H1. injection H1 as <-. cbn [ciphertext].
      rewrite lookup_insert_ne in H2 by congruence. apply (Hd token t2); auto.
    + rewrite lookup_insert_eq in H2. injection H2 as <-. cbn [ciphertext].
      rewrite lookup_insert_ne in H1 by congruence. apply (Hd t1 token); auto.
    + rewrite lookup_insert_ne in H1, H2 by congruence. apply (Hd t1 t2); auto.
Qed.

Lemma apply_op_well_formed (op : Op) (st : Store) :
  well_formed st -> well_formed (apply_op SECURE_DELETE_PASSES str_of_time op st).
Proof.
  intros Hwf. destruct op as [now nc ni token data ttl | now token | token | now token
                             | now |]; cbn [apply_op].
  - apply put_well_formed, Hwf.
  - apply get_well_formed, Hwf.
  - unfold mark_read_and_delete. destruct (_store st !! token); cbn [snd];
      [apply queue_well_formed, Hwf | exact Hwf].
  - unfold ttl_remaining. destruct (_store st !! token); cbn [snd]; [| exact Hwf].
    destruct (_ =? 0); cbn [snd]; [apply queue_well_formed, Hwf | exact Hwf].
  - destruct (cleanup_tick_spec SECURE_DELETE_PASSES now st) as (H1 & _ & H3 & H4).
    apply (well_formed_shrink st); [exact Hwf | exact H3 | |].
    + intros t entry. rewrite H1. destruct (bool_decide _); [discriminate | auto].
    + intros l. apply H4.
  - destruct (force_cleanup_spec SECURE_DELETE_PASSES st) as (H1 & H2 & H3 & _).
    apply (well_formed_shrink st); [exact Hwf | rewrite H2; apply NoDup_nil_2 | |].
    + intros t entry. rewrite H1, lookup_empty. discriminate.
    + intros l. apply H3.
Qed.

Lemma serve_well_formed (ops : list Op) (st : Store) :
  well_formed st -> well_formed (serve SECURE_DELETE_PASSES str_of_time ops st).
Proof.
  revert st. induction ops as [| op ops IH]; intros st Hwf; [exact Hwf |].
  unfold serve. cbn [fold_left]. apply IH, apply_op_well_formed, Hwf.
Qed.


End StoreInvariantFacts.

(** X1. A [get] that finds no entry, or one past its expiry, returns
    nothing and touches neither the entries nor the buffers: a missing
    token changes nothing at all, and an expired one is only added to the
    deletion queue, the entry staying in the map until the cleanup thread
    takes it. *)
Theorem X1_get_miss_only_queues :
  forall (now : Q) (token : string) (st : Storage.Store),
    (fst (Storage.get now token st) = None <->
     Storage._store st !! token = None \/
     exists entry, Storage._store st !! token = Some entry /\
                   (Storage.expire_at entry < now)%Q) /\
    (Storage._store st !! token = None -> snd (Storage.get now token st) = st) /\
    (forall entry, Storage._store st !! token = Some entry ->
       (Storage.expire_at entry < now)%Q ->
       let st' := snd (Storage.get now token st) in
       Storage._store st' = Storage._store st /\ Storage.heap st' = Storage.heap st /\
       forall t, t ∈ Storage._deletion_queue st'
                 <-> t ∈ Storage._deletion_queue st \/ t = token).
Proof.
  intros now token st. split; [| split].
  - unfold Storage.get. destruct (Storage._store st !! token) as [entry |] eqn:He.
    + destruct (Py.Qltb (Storage.expire_at entry) now) eqn:E.
      * cbn [fst]. apply Qltb_lt in E. split; [| reflexivity].
        intros _. right. exists entry. auto.
      * apply Qltb_ge in E. destruct (Storage.alloc _ _). cbn [fst].
        split; [discriminate |].
        intros [H | (e & H & Hlt)]; [discriminate |].
        injection H as <-. lra.
    + cbn [fst]. tauto.
  - intros Hnone. unfold Storage.get. rewrite Hnone. reflexivity.
  - intros entry He Hlt. cbv zeta. unfold Storage.get. rewrite He. cbv beta iota.
    assert (Py.Qltb (Storage.expire_at entry) now = true) as -> by (apply Qltb_lt; exact Hlt).
    cbn [snd]. destruct (queue_frame token st) as (F1 & F2 & _).
    split; [exact F1 |]. split; [exact F2 |].
    intros t. apply queue_elem.
Qed.

Lemma X1_witness_expired_t1 :
  let st' := snd (Storage.get 3 "t1" Scenarios.store_t1) in
  Storage._store st' = Storage._store Scenarios.store_t1 /\
  Storage.heap st' = Storage.heap Scenarios.store_t1 /\
  forall t, t ∈ Storage._deletion_queue st'
            <-> t ∈ Storage._deletion_queue Scenarios.store_t1 \/ t = "t1".
Proof.
  apply (proj2 (proj2 (X1_get_miss_only_queues 3 "t1" Scenarios.store_t1))
           Scenarios.entry_t1).
  - vm_compute. reflexivity.
  - vm_compute. reflexivity.
Defined.



(** X3. [put] over a token that is already stored neither queues the old
    entry for secure deletion nor overwrites its buffer: the deletion queue
    is as before, the replaced buffer still holds its bytes, and the new
    entry lives in a buffer of its own. *)
Theorem X3_put_replaces_without_wiping :
  forall (str_of_time : Q -> string) (now now_created now_id : Q) (token : string)
    (data : Storage.bytes) (ttl_seconds : Z) (st : Storage.Store)
    (old : Storage.Entry) (old_data : Storage.bytes),
    Storage._store st !! token = Some old ->
    Storage.heap st !! Storage.ciphertext old = Some old_data ->
    let st' := Storage.put str_of_time now now_created now_id token data ttl_seconds st in
    Storage._deletion_queue st' = Storage._deletion_queue st /\
    Storage.heap st' !! Storage.ciphertext old = Some old_data /\
    exists entry, Storage._store st' !! token = Some entry /\
                  Storage.ciphertext entry <> Storage.ciphertext old /\
                  Storage.heap st' !! Storage.ciphertext entry = Some data.
Proof.
  intros str_of_time now now_created now_id token data ttl st old old_data Hold Hbuf.
  cbv zeta.
  split; [apply put_queue |].
  destruct (put_records str_of_time now now_created now_id token data ttl st)
    as (entry & Hentry & _ & _ & _ & _ & Hnew & Hfresh).
  assert (Hne : Storage.ciphertext entry <> Storage.ciphertext old).
  { intros Heq. rewrite Heq in Hfresh. congruence. }
  split; [| exists entry; auto].
  revert Hentry Hne.
  unfold Storage.put, Storage.secure_allocate, Storage._generate_forensic_id,
    Storage.token_bytes, Storage.alloc.
  cbn [Storage.entropy Storage.heap Storage._store Storage._deletion_queue fst snd].
  rewrite lookup_insert_eq. intros Heq Hne. injection Heq as <-.
  cbn [Storage.ciphertext] in Hne.
  rewrite !lookup_insert_ne by congruence. exact Hbuf.
Qed.

Lemma X3_witness_replace_t1 :
  let st' := Storage.put Scenarios.clock_text 1 1 1 "t1" Scenarios.world 10
               Scenarios.store_t1 in
  Storage._deletion_queue st' = Storage._deletion_queue Scenarios.store_t1 /\
  Storage.heap st' !! Storage.ciphertext Scenarios.entry_t1 = Some Scenarios.hello /\
  exists entry, Storage._store st' !! "t1" = Some entry /\
                Storage.ciphertext entry <> Storage.ciphertext Scenarios.entry_t1 /\
                Storage.heap st' !! Storage.ciphertext entry = Some Scenarios.world.
Proof.
  apply (X3_put_replaces_without_wiping Scenarios.clock_text 1 1 1 "t1" Scenarios.world 10
           Scenarios.store_t1 Scenarios.entry_t1 Scenarios.hello).
  - vm_compute. reflexivity.
  - vm_compute. reflexivity.
Defined.



(** X5. Invariant of the store under any sequence of calls (put, get,
    mark_read_and_delete, ttl_remaining, cleanup passes, forced cleanup)
    served one at a time from the empty store: the deletion queue never
    holds a token twice, every entry has its buffer, and no two entries
    share a buffer, so that overwriting one entry's buffer on deletion never
    touches the bytes of another entry. *)
Theorem X5_store_invariant :
  forall (SECURE_DELETE_PASSES : Z) (str_of_time : Q -> string) (e : Storage.Entropy)
    (ops : list Storage.Op),
    let st := Storage.serve SECURE_DELETE_PASSES str_of_time ops (Storage.empty_store e) in
    NoDup (Storage._deletion_queue st) /\
    (forall t entry, Storage._store st !! t = Some entry ->
       is_Some (Storage.heap st !! Storage.ciphertext entry)) /\
    (forall t1 t2 e1 e2, t1 <> t2 ->
       Storage._store st !! t1 = Some e1 -> Storage._store st !! t2 = Some e2 ->
       Storage.ciphertext e1 <> Storage.ciphertext e2).
Proof.
  intros passes str_of_time e ops.
  apply (serve_well_formed passes str_of_time ops (Storage.empty_store e)).
  split; [apply NoDup_nil_2 |]. split.
  - intros t entry H. cbn in H. rewrite lookup_empty in H. discriminate.
  - intros t1 t2 e1 e2 _ H. cbn in H. rewrite lookup_empty in H. discriminate.
Qed.

(** X6. [_secure_delete_entry] removes the token's entry and leaves every
    other entry and the queue alone; the entry's buffer keeps its length
    and is overwritten in place (all zeros with one pass configured, all
    0xFF with two, untouched with none), and no other buffer changes: the
    copies [get] handed out earlier keep the bytes. *)
Theorem X6_secure_delete_entry :
  forall (SECURE_DELETE_PASSES : Z) (token : string) (st : Storage.Store)
    (entry : Storage.Entry) (data : Storage.bytes),
    Storage._store st !! token = Some entry ->
    Storage.heap st !! Storage.ciphertext entry = Some data ->
    let st' := Storage._secure_delete_entry SECURE_DELETE_PASSES token st in
    Storage._store st' = delete token (Storage._store st) /\
    Storage._deletion_queue st' = Storage._deletion_queue st /\
    (forall l, l <> Storage.ciphertext entry ->
       Storage.heap st' !! l = Storage.heap st !! l) /\
    exists data', Storage.heap st' !! Storage.ciphertext entry = Some data' /\
      length data' = length data /\
      (SECURE_DELETE_PASSES <= 0 -> data' = data) /\
      (SECURE_DELETE_PASSES = 1 -> data' = repeat x00 (length data)) /\
      (SECURE_DELETE_PASSES = 2 -> data' = repeat xff (length data)).
Proof.
  intros passes token st entry data He Hd. cbv zeta.
  destruct (secure_delete_spec passes token st) as (H1 & H2 & _ & H4 & _).
  split; [exact H1 |]. split; [exact H2 |].
  split; [intros l Hne; apply (H4 l entry He Hne) |].
  unfold Storage._secure_delete_entry. rewrite He.
  set (st0 := Storage.mkStore (delete token (Storage._store st))
                (Storage._deletion_queue st) (Storage.heap st) (Storage.entropy st)).
  destruct (secure_deallocate_spec (Storage.ciphertext entry) passes st0)
    as (_ & _ & _ & A4 & _).
  destruct (A4 data Hd) as (d1 & Hd1 & L1 & Z1 & O1 & T1).
  destruct (secure_deallocate_spec (Storage.ciphertext entry) passes
              (Storage.secure_deallocate (Storage.ciphertext entry) passes st0))
    as (_ & _ & _ & B4 & _).
  destruct (B4 d1 Hd1) as (d2 & Hd2 & L2 & Z2 & O2 & T2).
  exists d2. split; [exact Hd2 |]. split; [congruence |].
  split; [intros H; rewrite (Z2 H); apply Z1, H |].
  split; intros H; [rewrite (O2 H) | rewrite (T2 H)]; congruence.
Qed.

Lemma X6_witness_one_pass :
  let st' := Storage._secure_delete_entry 1 "t1" Scenarios.store_t1 in
  Storage._store st' = delete "t1" (Storage._store Scenarios.store_t1) /\
  Storage._deletion_queue st' = Storage._deletion_queue Scenarios.store_t1 /\
  (forall l, l <> Storage.ciphertext Scenarios.entry_t1 ->
     Storage.heap st' !! l = Storage.heap Scenarios.store_t1 !! l) /\
  exists data', Storage.heap st' !! Storage.ciphertext Scenarios.entry_t1 = Some data' /\
    length data' = length Scenarios.hello /\
    (1 <= 0 -> data' = Scenarios.hello) /\
    (1 = 1 -> data' = repeat x00 (length Scenarios.hello)) /\
    (1 = 2 -> data' = repeat xff (length Scenarios.hello)).
Proof.
  apply (X6_secure_delete_entry 1 "t1" Scenarios.store_t1 Scenarios.entry_t1
           Scenarios.hello).
  - vm_compute. reflexivity.
  - vm_compute. reflexivity.
Defined.

(** X7. One pass of the cleanup loop deletes exactly the queued tokens and
    then queues exactly the remaining entries whose expiry is at or before
    the clock reading, each once. So an expired entry that was not queued
    survives the pass that finds it, and whatever is left after a second
    pass had not expired at the first one. *)
Theorem X7_cleanup_pass :
  forall (SECURE_DELETE_PASSES : Z) (now now' : Q) (st : Storage.Store),
    let st1 := Storage._secure_cleanup_tick SECURE_DELETE_PASSES now st in
    let st2 := Storage._secure_cleanup_tick SECURE_DELETE_PASSES now' st1 in
    (forall t, Storage._store st1 !! t
               = if bool_decide (t ∈ Storage._deletion_queue st) then None
                 else Storage._store st !! t) /\
    (forall t, t ∈ Storage._deletion_queue st1
               <-> exists entry, Storage._store st1 !! t = Some entry /\
                                 (Storage.expire_at entry <= now)%Q) /\
    NoDup (Storage._deletion_queue st1) /\
    (forall t entry, Storage._store st2 !! t = Some entry ->
       (now < Storage.expire_at entry)%Q).
Proof.
  intros passes now now' st. cbv zeta.
  destruct (cleanup_tick_spec passes now st) as (H1 & H2 & H3 & _).
  destruct (cleanup_tick_spec passes now'
              (Storage._secure_cleanup_tick passes now st)) as (G1 & _).
  split; [exact H1 |]. split; [exact H2 |]. split; [exact H3 |].
  intros t entry Ht. rewrite G1 in Ht.
  destruct (bool_decide _) eqn:E; [discriminate |].
  apply bool_decide_eq_false in E.
  apply Qnot_le_lt. intros Hle. apply E. apply H2. exists entry. auto.
Qed.

(** X8. [force_secure_cleanup] leaves the store and the deletion queue
    empty, and returns the number of tokens it drained: the stored tokens
    and the tokens that were already queued, each counted once, so the count
    is at least the number of entries deleted and exceeds it when the queue
    held tokens no longer stored. *)
Theorem X8_force_secure_cleanup :
  forall (SECURE_DELETE_PASSES : Z) (st : Storage.Store),
    NoDup (Storage._deletion_queue st) ->
    let r := Storage.force_secure_cleanup SECURE_DELETE_PASSES st in
    Storage._store (snd r) = ∅ /\
    Storage._deletion_queue (snd r) = [] /\
    Z.of_nat (size (Storage._store st)) <= fst r /\
    fst r <= Z.of_nat (size (Storage._store st))
             + Z.of_nat (length (Storage._deletion_queue st)) /\
    (Storage._deletion_queue st = [] -> fst r = Z.of_nat (size (Storage._store st))).
Proof.
  intros passes st Hnd. cbv zeta.
  destruct (force_cleanup_spec passes st) as (H1 & H2 & _ & H4).
  split; [exact H1 |]. split; [exact H2 |].
  rewrite H4.
  set (keys := map fst (map_to_list (Storage._store st))).
  set (q := Storage._deletion_queue
              (fold_left (fun s t => Storage._queue_secure_deletion t s) keys st)).
  assert (Hkeys : NoDup keys) by apply NoDup_fst_map_to_list.
  assert (Hlen : length keys = size (Storage._store st)).
  { unfold keys. rewrite length_map. apply length_map_to_list. }
  assert (Hq : NoDup q) by (apply queue_all_nodup, Hnd).
  assert (Hel : forall t, t ∈ q <-> t ∈ Storage._deletion_queue st \/ t ∈ keys)
    by (intros t; apply queue_all_elem).
  assert (Hlow : (length keys <= length q)%nat).
  { apply submseteq_length, NoDup_submseteq; [exact Hkeys |].
    intros t Ht. apply Hel. auto. }
  assert (Hup : (length q <= length (Storage._deletion_queue st ++ keys))%nat).
  { apply submseteq_length, NoDup_submseteq; [exact Hq |].
    intros t Ht. apply elem_of_app, Hel, Ht. }
  rewrite length_app in Hup.
  split; [lia |]. split; [lia |].
  intros Hempty. rewrite Hempty in Hup. cbn [length] in Hup. lia.
Qed.

Lemma X8_witness_store_t1 :
  let r := Storage.force_secure_cleanup 3 Scenarios.store_t1 in
  Storage._store (snd r) = ∅ /\
  Storage._deletion_queue (snd r) = [] /\
  Z.of_nat (size (Storage._store Scenarios.store_t1)) <= fst r /\
  fst r <= Z.of_nat (size (Storage._store Scenarios.store_t1))
           + Z.of_nat (length (Storage._deletion_queue Scenarios.store_t1)) /\
  (Storage._deletion_queue Scenarios.store_t1 = [] ->
   fst r = Z.of_nat (size (Storage._store Scenarios.store_t1))).
Proof.
  apply (X8_force_secure_cleanup 3 Scenarios.store_t1).
  vm_compute. apply NoDup_nil_2.
Defined.

(** ** The store without the forensic modules *)

Section FallbackFacts.
Import EphemeralStorage.

Lemma delete_all_lookup (tokens : list string) (st : Store) (t : string) :
  fold_left (fun s token => _delete_internal token s) tokens st !! t
  = if bool_decide (t ∈ tokens) then None else st !! t.
Proof.
  revert st. induction tokens as [| t' tokens IH]; intros st; cbn [fold_left].
  - rewrite bool_decide_eq_false_2 by apply not_elem_of_nil. reflexivity.
  - rewrite IH. unfold _delete_internal.
    destruct (decide (t = t')) as [-> | Hne].
    + rewrite lookup_delete_eq.
      rewrite (bool_decide_eq_true_2 (t' ∈ t' :: tokens)) by apply list_elem_of_here.
      destruct (bool_decide _); reflexivity.
    + rewrite lookup_delete_ne by congruence.
      destruct (bool_decide (t ∈ tokens)) eqn:E.
      * apply bool_decide_eq_true in E.
        rewrite bool_decide_eq_true_2 by (apply list_elem_of_further; exact E).
        reflexivity.
      * apply bool_decide_eq_false in E.
        rewrite bool_decide_eq_false_2; [reflexivity |].
        intros Hin. apply elem_of_cons in Hin. tauto.
Qed.

End FallbackFacts.



(** X10. One pass of the fallback store's cleanup loop removes exactly the
    entries whose expiry is at or before the clock reading and leaves the
    others as they are; wiping works on a copy, so no stored bytes
    change. *)
Theorem X10_fallback_cleanup_pass :
  forall (now : Q) (st : EphemeralStorage.Store) (t : string),
    EphemeralStorage._cleanup_tick now st !! t
    = match st !! t with
      | Some entry =>
          if Qle_bool (EphemeralStorage.expire_at entry) now then None else Some entry
      | None => None
      end.
Proof.
  intros now st t. unfold EphemeralStorage._cleanup_tick.
  rewrite delete_all_lookup.
  destruct (bool_decide _) eqn:E.
  - apply bool_decide_eq_true in E. apply list_elem_of_fmap in E.
    destruct E as [[t' entry] [Heq Hin]]. cbn [fst] in Heq. subst t'.
    apply list_elem_of_In, filter_In in Hin. destruct Hin as [Hin Hle].
    apply list_elem_of_In, elem_of_map_to_list in Hin. cbn [snd] in Hle.
    rewrite Hin, Hle. reflexivity.
  - apply bool_decide_eq_false in E.
    destruct (st !! t) as [entry |] eqn:Ht; [| reflexivity].
    destruct (Qle_bool (EphemeralStorage.expire_at entry) now) eqn:Hle; [| reflexivity].
    exfalso. apply E. apply list_elem_of_fmap. exists (t, entry). split; [reflexivity |].
    apply list_elem_of_In, filter_In. split; [| exact Hle].
    apply list_elem_of_In, elem_of_map_to_list. exact Ht.
Qed.

(** ** The policy engine: thresholds, audit trail and ledger *)

Section PolicyRunFacts.
Import Policy.
Variable cfg : Config.

Lemma run_snd_cons (c : Call) (cs : list Call) (st : State) :
  snd (run cfg (c :: cs) st) = snd (run cfg cs (snd (call cfg c st))).
Proof.
  cbn [run]. destruct (call cfg c st) as [d st']. cbn [fst snd].
  destruct (run cfg cs st') as [ds st'']. reflexivity.
Qed.

Lemma unflagged_policy (c : Call) (st : State) :
  flagged c = false ->
  policy (fst (call cfg c st)) = fst (threshold_action cfg (c_risk c)).
Proof.
  intros Hf. unfold call, decide_action, apply_exception, flagged in *.
  destruct (c_summary c) as [m |]; [rewrite Hf |]; reflexivity.
Qed.

(** The record one call appends. *)
Lemma call_audit (c : Call) (st : State) :
  exists ev,
    audit_log (snd (call cfg c st)) = audit_log st ++ [ev] /\
    ev_ts ev = int_of_time (c_now c) /\
    ev_token_hash ev = token_hash (fst (call cfg c st)) /\
    ev_action ev = action (fst (call cfg c st)) /\
    ev_policy ev = policy (fst (call cfg c st)) /\
    ev_reason ev = reason (fst (call cfg c st)) /\
    ev_risk ev = c_risk c.
Proof.
  unfold call, decide_action.
  destruct (apply_exception _ _ _ _ _ _ _) as [[ra re] em].
  cbn [fst snd record_audit audit_log _exception_events].
  eexists. split; [reflexivity |]. cbn. auto 10.
Qed.

Lemma ledger_step (c : Call) (st : State) (key : string) :
  Z.of_nat (length (default [] (_exception_events st !! key)))
  <= Z.max 0 (EXCEPTION_QUOTA cfg) ->
  Z.of_nat (length (default [] (_exception_events (snd (call cfg c st)) !! key)))
  <= Z.max 0 (EXCEPTION_QUOTA cfg).
Proof.
  intros Hb. pose proof (call_effect cfg c st) as He. cbv zeta in He.
  destruct (flagged c).
  - destruct He as (-> & _).
    rewrite within_quota_ledger.
    destruct (decide (call_key c = key)) as [Heq | Hne]; [subst key | exact Hb].
    pose proof (within_quota_iff cfg (c_now c) (call_key c) (_exception_events st)) as Hq.
    rewrite length_app.
    destruct (fst (_within_exception_quota cfg (c_now c) (call_key c)
                     (_exception_events st))).
    + cbv iota. cbn [length]. assert (H : true = true) by reflexivity.
      apply Hq in H. lia.
    + cbv iota. cbn [length]. unfold recent_exceptions.
      pose proof (List.filter_length_le
                    (fun ts => Qle_bool (c_now c - inject_Z (EXCEPTION_WINDOW_SEC cfg))%Q ts)
                    (default [] (_exception_events st !! call_key c))) as Hl.
      lia.
  - destruct He as (-> & _). exact Hb.
Qed.

End PolicyRunFacts.

(** X11. Without the exception flag the policy of a decision is the
    threshold action: allow exactly from the allow threshold on, block
    exactly below both thresholds, require_reauth in between and never
    pending_approval; and it is monotone in the risk score: a higher score
    keeps an allow and never turns a non-block into a block, whatever the
    token, the clock and the state. *)
Theorem X11_policy_monotone_in_risk :
  forall (cfg : Policy.Config) (c1 c2 : Policy.Call) (st1 st2 : Policy.State),
    Policy.flagged c1 = false -> Policy.flagged c2 = false ->
    Policy.c_risk c1 <= Policy.c_risk c2 ->
    let p1 := Policy.policy (fst (Policy.call cfg c1 st1)) in
    let p2 := Policy.policy (fst (Policy.call cfg c2 st2)) in
    (p1 = Policy.allow <-> Policy.THRESH_ALLOW cfg <= Policy.c_risk c1) /\
    (p1 = Policy.block <-> Policy.c_risk c1 < Policy.THRESH_ALLOW cfg
                           /\ Policy.c_risk c1 < Policy.THRESH_REAUTH cfg) /\
    p1 <> Policy.pending_approval /\
    (p1 = Policy.allow -> p2 = Policy.allow) /\
    (p2 = Policy.block -> p1 = Policy.block).
Proof.
  intros cfg c1 c2 st1 st2 Hf1 Hf2 Hle. cbv zeta.
  rewrite (unflagged_policy cfg c1 st1 Hf1), (unflagged_policy cfg c2 st2 Hf2).
  unfold Policy.threshold_action.
  destruct (Policy.THRESH_ALLOW cfg <=? Policy.c_risk c1) eqn:A1;
    destruct (Policy.THRESH_REAUTH cfg <=? Policy.c_risk c1) eqn:R1;
    destruct (Policy.THRESH_ALLOW cfg <=? Policy.c_risk c2) eqn:A2;
    destruct (Policy.THRESH_REAUTH cfg <=? Policy.c_risk c2) eqn:R2;
    cbn [fst];
    rewrite ?Z.leb_le, ?Z.leb_gt in *;
    repeat split; try discriminate; try reflexivity; try lia;
    try (intros; lia); try (intros [? ?]; lia); intros; discriminate.
Qed.

Lemma X11_witness_risk_10_50 :
  let p1 := Policy.policy (fst (Policy.call Policy.default_config
              (Policy.mkCall 0 10 "t1" None None None) Policy.initial_state)) in
  let p2 := Policy.policy (fst (Policy.call Policy.default_config
              (Policy.mkCall 0 50 "t2" None None None) Policy.initial_state)) in
  (p1 = Policy.allow <-> Policy.THRESH_ALLOW Policy.default_config <= 10) /\
  (p1 = Policy.block <-> 10 < Policy.THRESH_ALLOW Policy.default_config
                         /\ 10 < Policy.THRESH_REAUTH Policy.default_config) /\
  p1 <> Policy.pending_approval /\
  (p1 = Policy.allow -> p2 = Policy.allow) /\
  (p2 = Policy.block -> p1 = Policy.block).
Proof.
  apply (X11_policy_monotone_in_risk Policy.default_config
           (Policy.mkCall 0 10 "t1" None None None)
           (Policy.mkCall 0 50 "t2" None None None)
           Policy.initial_state Policy.initial_state).
  - reflexivity.
  - reflexivity.
  - vm_compute. discriminate.
Defined.

(** X12. The audit trail mirrors the decisions: serving a sequence of
    submissions appends exactly one record per decision, in order, and each
    record carries the token hash, action, policy and reason of the
    decision that was returned. *)
Theorem X12_audit_trail_mirrors_decisions :
  forall (cfg : Policy.Config) (cs : list Policy.Call) (st : Policy.State),
    let r := Policy.run cfg cs st in
    map (fun ev => (Policy.ev_token_hash ev, Policy.ev_action ev, Policy.ev_policy ev,
                    Policy.ev_reason ev)) (Policy.audit_log (snd r))
    = map (fun ev => (Policy.ev_token_hash ev, Policy.ev_action ev, Policy.ev_policy ev,
                      Policy.ev_reason ev)) (Policy.audit_log st)
      ++ map (fun d => (Policy.token_hash d, Policy.action d, Policy.policy d,
                        Policy.reason d)) (fst r) /\
    map Policy.ev_risk (Policy.audit_log (snd r))
    = map Policy.ev_risk (Policy.audit_log st) ++ map Policy.c_risk cs /\
    map Policy.ev_ts (Policy.audit_log (snd r))
    = map Policy.ev_ts (Policy.audit_log st)
      ++ map (fun c => Policy.int_of_time (Policy.c_now c)) cs.
Proof.
  intros cfg cs. cbv zeta.
  induction cs as [| c cs IH]; intros st.
  - cbn [Policy.run fst snd map]. rewrite !app_nil_r. auto.
  - rewrite run_snd_cons, run_cons.
    destruct (IH (snd (Policy.call cfg c st))) as (H1 & H2 & H3).
    destruct (call_audit cfg c st) as (ev & Hlog & Hts & Hth & Ha & Hp & Hr & Hrisk).
    rewrite H1, H2, H3, Hlog, !map_app. cbn [map].
    rewrite Hts, Hth, Ha, Hp, Hr, Hrisk, <- !app_assoc. cbn [app]. auto.
Qed.

(** X13. The exception ledger stays small and is touched only by flagged
    submissions: starting from the empty ledger, after any sequence of
    submissions every key holds at most [EXCEPTION_QUOTA] timestamps, and a
    submission without the exception flag leaves the ledger as it was. *)
Theorem X13_exception_ledger_bounded :
  forall (cfg : Policy.Config) (cs : list Policy.Call) (key : string),
    Z.of_nat (length (default []
       (Policy._exception_events (snd (Policy.run cfg cs Policy.initial_state)) !! key)))
    <= Z.max 0 (Policy.EXCEPTION_QUOTA cfg) /\
    (forall c st, Policy.flagged c = false ->
       Policy._exception_events (snd (Policy.call cfg c st))
       = Policy._exception_events st).
Proof.
  intros cfg cs key. split.
  - assert (H : forall st,
              Z.of_nat (length (default [] (Policy._exception_events st !! key)))
              <= Z.max 0 (Policy.EXCEPTION_QUOTA cfg) ->
              Z.of_nat (length (default []
                 (Policy._exception_events (snd (Policy.run cfg cs st)) !! key)))
              <= Z.max 0 (Policy.EXCEPTION_QUOTA cfg)).
    { induction cs as [| c cs IH]; intros st Hb; [exact Hb |].
      rewrite run_snd_cons. apply IH, ledger_step, Hb. }
    apply H. cbn. rewrite lookup_empty. cbn. lia.
  - intros c st Hf. pose proof (call_effect cfg c st) as He. cbv zeta in He.
    rewrite Hf in He. apply He.
Qed.

(** ** The anomaly scorer: buffer, trained scores and retraining *)

Section AdapterFacts.
Import Py MlAdapter.
Variables Model Scaler : Type.
Variable PROM_AVAILABLE : bool.

Lemma add_observation_frame (self : Adapter Model Scaler) (v : list pyobj) :
  _max_buffer (add_observation PROM_AVAILABLE self v) = _max_buffer self /\
  _model (add_observation PROM_AVAILABLE self v) = _model self /\
  _scaler (add_observation PROM_AVAILABLE self v) = _scaler self /\
  _trained (add_observation PROM_AVAILABLE self v) = _trained self.
Proof.
  unfold add_observation. destruct (floats v); [| auto].
  destruct PROM_AVAILABLE; cbn; auto.
Qed.

Lemma add_observation_capacity (self : Adapter Model Scaler) (v : list pyobj) :
  0 <= _max_buffer self ->
  Z.of_nat (length (_buffer self)) <= _max_buffer self ->
  Z.of_nat (length (_buffer (add_observation PROM_AVAILABLE self v))) <= _max_buffer self.
Proof.
  intros H0 Hb. unfold add_observation. destruct (floats v) as [vec |]; [| exact Hb].
  assert (Hbuf : Z.of_nat (length (if _max_buffer self
                                      <? Z.of_nat (length (_buffer self ++ [vec]))
                                   then tail (_buffer self ++ [vec])
                                   else _buffer self ++ [vec])) <= _max_buffer self).
  { destruct (_ <? _) eqn:E.
    - destruct (_buffer self) as [| x b]; cbn [app tail length] in *; [lia |].
      rewrite length_app. cbn [length]. rewrite length_app in E. cbn [length] in E.
      apply Z.ltb_lt in E. lia.
    - apply Z.ltb_ge in E. exact E. }
  destruct PROM_AVAILABLE; cbn [_buffer set_buffer inc_observations]; exact Hbuf.
Qed.

Lemma monotone_clamp (x y : Z) : x <= y -> clamp 0 100 x <= clamp 0 100 y.
Proof. unfold clamp. lia. Qed.

Lemma size_penalty_monotone (p p' : Q) :
  (p <= p')%Q -> size_penalty (Fin p) <= size_penalty (Fin p').
Proof.
  intros Hle. unfold size_penalty, fgt, flt, of_Z.
  destruct (Qltb (inject_Z 51200) p) eqn:A; destruct (Qltb (inject_Z 51200) p') eqn:A';
    destruct (Qltb (inject_Z 10240) p) eqn:B; destruct (Qltb (inject_Z 10240) p') eqn:B';
    destruct (Qltb (inject_Z 2048) p) eqn:C; destruct (Qltb (inject_Z 2048) p') eqn:C';
    try lia; exfalso;
    rewrite ?Qltb_lt, ?Qltb_ge in *; lra.
Qed.

Lemma interval_penalty_antitone (i i' : Q) :
  (i <= i')%Q -> interval_penalty (Fin i') <= interval_penalty (Fin i).
Proof.
  intros Hle. unfold interval_penalty, flt, of_Z.
  destruct (Qltb i (inject_Z 1)) eqn:A; destruct (Qltb i' (inject_Z 1)) eqn:A';
    destruct (Qltb i (inject_Z 5)) eqn:B; destruct (Qltb i' (inject_Z 5)) eqn:B';
    try lia; exfalso;
    rewrite ?Qltb_lt, ?Qltb_ge in *; lra.
Qed.

Lemma dest_penalty_monotone (d d' : Q) :
  (d <= d')%Q -> dest_penalty (Fin d) <= dest_penalty (Fin d').
Proof.
  intros Hle. unfold dest_penalty, fge, fle, of_Z.
  destruct (Qle_bool (inject_Z 10) d) eqn:A; destruct (Qle_bool (inject_Z 10) d') eqn:A';
    destruct (Qle_bool (inject_Z 3) d) eqn:B; destruct (Qle_bool (inject_Z 3) d') eqn:B';
    try lia; exfalso;
    rewrite ?Qle_bool_iff, ?Qle_bool_false in *; lra.
Qed.

End AdapterFacts.

(** X14. The observation buffer never outgrows its capacity: with a
    non-negative capacity and a buffer within it, any sequence of
    [add_observation] calls, accepted or skipped, leaves the buffer within
    the capacity and the model, the scaler and the trained flag
    untouched. *)
Theorem X14_buffer_within_capacity :
  forall (Model Scaler : Type) (PROM_AVAILABLE : bool)
    (self : MlAdapter.Adapter Model Scaler) (vectors : list (list Py.pyobj)),
    0 <= MlAdapter._max_buffer self ->
    Z.of_nat (length (MlAdapter._buffer self)) <= MlAdapter._max_buffer self ->
    let self' := fold_left (MlAdapter.add_observation PROM_AVAILABLE) vectors self in
    Z.of_nat (length (MlAdapter._buffer self')) <= MlAdapter._max_buffer self /\
    MlAdapter._max_buffer self' = MlAdapter._max_buffer self /\
    MlAdapter._model self' = MlAdapter._model self /\
    MlAdapter._scaler self' = MlAdapter._scaler self /\
    MlAdapter._trained self' = MlAdapter._trained self.
Proof.
  intros Model Scaler PROM self vectors. revert self. cbv zeta.
  induction vectors as [| v vectors IH]; intros self H0 Hb; cbn [fold_left]; [auto |].
  destruct (add_observation_frame Model Scaler PROM self v) as (F1 & F2 & F3 & F4).
  pose proof (add_observation_capacity Model Scaler PROM self v H0 Hb) as Hc.
  rewrite <- F1 in Hc, H0.
  destruct (IH _ H0 Hc) as (G1 & G2 & G3 & G4 & G5).
  rewrite <- F1, <- F2, <- F3, <- F4. auto.
Qed.

Lemma X14_witness_capacity_one :
  let self' := fold_left (MlAdapter.add_observation false)
                 [[Py.Num (Py.of_Z 1)]; [Py.NotNum]; [Py.Num (Py.of_Z 2)]]
                 (MlAdapter.mkAdapter (Model := unit) (Scaler := unit)
                    None None [] 1 200 false 0 0) in
  Z.of_nat (length (MlAdapter._buffer self')) <= 1 /\
  MlAdapter._max_buffer self' = 1 /\
  MlAdapter._model self' = None /\
  MlAdapter._scaler self' = None /\
  MlAdapter._trained self' = false.
Proof.
  apply (X14_buffer_within_capacity unit unit false
           (MlAdapter.mkAdapter None None [] 1 200 false 0 0)
           [[Py.Num (Py.of_Z 1)]; [Py.NotNum]; [Py.Num (Py.of_Z 2)]]).
  - vm_compute. discriminate.
  - vm_compute. discriminate.
Defined.



(** X16. The heuristic never rewards a more suspicious vector: on finite
    components the score does not grow when the padded size or the
    destination count grows, nor when the interval shrinks, and a device
    change never raises it. *)
Theorem X16_heuristic_monotone :
  forall (p p' i i' d d' c : Q),
    (p <= p')%Q -> (i' <= i)%Q -> (d <= d')%Q ->
    MlAdapter._heuristic_score
      [Py.Num (Py.Fin p'); Py.Num (Py.Fin i'); Py.Num (Py.Fin d'); Py.Num (Py.Fin c)]
    <= MlAdapter._heuristic_score
         [Py.Num (Py.Fin p); Py.Num (Py.Fin i); Py.Num (Py.Fin d); Py.Num (Py.Fin c)]
    /\ MlAdapter._heuristic_score
         [Py.Num (Py.Fin p); Py.Num (Py.Fin i); Py.Num (Py.Fin d); Py.Num (Py.Fin c)]
       <= MlAdapter._heuristic_score
            [Py.Num (Py.Fin p); Py.Num (Py.Fin i); Py.Num (Py.Fin d); Py.Num (Py.of_Z 0)].
Proof.
  intros p p' i i' d d' c Hp Hi Hd.
  rewrite !heuristic_matches_spec. unfold MlAdapter.heuristic_spec.
  pose proof (size_penalty_monotone p p' Hp).
  pose proof (interval_penalty_antitone i' i Hi).
  pose proof (dest_penalty_monotone d d' Hd).
  split; apply monotone_clamp; [lia |].
  unfold MlAdapter.device_penalty.
  destruct (Py.truthy (Py.Fin c)); vm_compute (Py.truthy (Py.of_Z 0)); cbv iota; lia.
Qed.

Lemma X16_witness_larger_payload :
  MlAdapter._heuristic_score
    [Py.Num (Py.Fin 60000); Py.Num (Py.Fin 2); Py.Num (Py.Fin 3); Py.Num (Py.Fin 0)]
  <= MlAdapter._heuristic_score
       [Py.Num (Py.Fin 100); Py.Num (Py.Fin 10); Py.Num (Py.Fin 1); Py.Num (Py.Fin 0)].
Proof.
  apply (proj1 (X16_heuristic_monotone 100 60000 10 2 1 3 0
                  ltac:(vm_compute; discriminate) ltac:(vm_compute; discriminate)
                  ltac:(vm_compute; discriminate))).
Defined.

(** X17. [force_retrain]: with fewer observations than the minimum it
    returns false and changes nothing; a true result leaves a trained
    adapter with a model and the same buffer; and with enough observations
    but rows of different lengths in the buffer, which [add_observation]
    accepts, building the training matrix raises and the exception leaves
    the call. *)
Theorem X17_force_retrain :
  forall (Model Scaler : Type) (SCALE_FEATURES : bool)
    (fit_transform : list (list Py.pyfloat) -> option (list (list Py.pyfloat) * Scaler))
    (fit : list (list Py.pyfloat) -> option Model)
    (self : MlAdapter.Adapter Model Scaler),
    let r := MlAdapter.force_retrain SCALE_FEATURES fit_transform fit self in
    (Z.of_nat (length (MlAdapter._buffer self)) < MlAdapter._min_samples self ->
     r = MlAdapter.Returns (false, self)) /\
    (forall self', r = MlAdapter.Returns (true, self') ->
       MlAdapter._trained self' = true /\ MlAdapter._model self' <> None /\
       MlAdapter._buffer self' = MlAdapter._buffer self /\
       MlAdapter._min_samples self <= Z.of_nat (length (MlAdapter._buffer self))) /\
    (forall self', r = MlAdapter.Returns (false, self') -> self' = self) /\
    (MlAdapter._min_samples self <= Z.of_nat (length (MlAdapter._buffer self)) ->
     (exists row row', row ∈ MlAdapter._buffer self /\ row' ∈ MlAdapter._buffer self /\
                       length row <> length row') ->
     r = MlAdapter.Raises).
Proof.
  intros Model Scaler SCALE fit_transform fit self. cbv zeta.
  unfold MlAdapter.force_retrain, MlAdapter._prepare_training_data, MlAdapter._train_model.
  destruct (_ <? _) eqn:E.
  - apply Z.ltb_lt in E. split; [reflexivity |].
    split; [intros self' H; discriminate |].
    split; [intros self' H; injection H as <-; reflexivity | intros H; lia].
  - apply Z.ltb_ge in E. split; [intros H; lia |].
    assert (Hragged : (exists row row', row ∈ MlAdapter._buffer self /\
                          row' ∈ MlAdapter._buffer self /\ length row <> length row') ->
                      MlAdapter.np_array (MlAdapter._buffer self) = None).
    { intros (row & row' & Hr & Hr' & Hne). unfold MlAdapter.np_array.
      destruct (MlAdapter._buffer self) as [| r0 rows]; [apply elem_of_nil in Hr; tauto |].
      destruct (forallb _ rows) eqn:Hall; [| reflexivity].
      exfalso. rewrite forallb_forall in Hall.
      assert (Hlen : forall x, x ∈ r0 :: rows -> length x = length r0).
      { intros x Hx. apply elem_of_cons in Hx. destruct Hx as [-> | Hx]; [reflexivity |].
        apply Nat.eqb_eq, Hall, list_elem_of_In, Hx. }
      rewrite (Hlen row Hr), (Hlen row' Hr') in Hne. congruence. }
    destruct (MlAdapter.np_array (MlAdapter._buffer self)) as [X |] eqn:HX.
    + assert (Hlast : (exists row row', row ∈ MlAdapter._buffer self /\
                          row' ∈ MlAdapter._buffer self /\ length row <> length row') ->
                      False) by (intros H; specialize (Hragged H); discriminate).
      destruct SCALE.
      * destruct (fit_transform X) as [[Xs scaler] |].
        -- destruct (fit Xs) as [model |].
           ++ split; [| split; [intros self' H; discriminate | intros _ H; tauto]].
              intros self' H. injection H as <-. cbn. repeat split; [discriminate | lia].
           ++ split; [intros self' H; discriminate |].
              split; [intros self' H; injection H as <-; reflexivity | intros _ H; tauto].
        -- split; [intros self' H; discriminate |].
           split; [intros self' H; discriminate | intros _ H; tauto].
      * destruct (fit X) as [model |].
        -- split; [| split; [intros self' H; discriminate | intros _ H; tauto]].
           intros self' H. injection H as <-. cbn. repeat split; [discriminate | lia].
        -- split; [intros self' H; discriminate |].
           split; [intros self' H; injection H as <-; reflexivity | intros _ H; tauto].
    + split; [intros self' H; discriminate |].
      split; [intros self' H; discriminate | reflexivity].
Qed.

Lemma X17_witness_ragged_buffer :
  MlAdapter.force_retrain (Model := unit) (Scaler := unit) false
    (fun _ => None) (fun _ => Some tt)
    (MlAdapter.mkAdapter None None [[Py.of_Z 1; Py.of_Z 2]; [Py.of_Z 3]] 10000 2 false 0 0)
  = MlAdapter.Raises.
Proof.
  apply (proj2 (proj2 (proj2 (X17_force_retrain unit unit false (fun _ => None)
                                (fun _ => Some tt)
                                (MlAdapter.mkAdapter None None
                                   [[Py.of_Z 1; Py.of_Z 2]; [Py.of_Z 3]]
                                   10000 2 false 0 0))))).
  - vm_compute. discriminate.
  - exists [Py.of_Z 1; Py.of_Z 2], [Py.of_Z 3]. cbn [MlAdapter._buffer].
    split; [apply list_elem_of_here |].
    split; [apply list_elem_of_further, list_elem_of_here |].
    cbn. discriminate.
Defined.

(** ** The metadata sanitizer: totality, surviving fields and the report *)

Section SanitizerLoopFacts.
Import Py Sanitizer.

Lemma dict_set_keys (d : Metadata) (k' : string) (v : pyval) (k : string) :
  In k (keys (dict_set d k' v)) <-> In k (keys d) \/ k = k'.
Proof.
  unfold keys. induction d as [| [k0 v0] d IH]; cbn [dict_set map fst In].
  - intuition congruence.
  - destruct (String.eqb k0 k') eqn:E; cbn [map fst In].
    + apply String.eqb_eq in E. subst. intuition congruence.
    + rewrite IH. tauto.
Qed.

Lemma dict_set_nodup (d : Metadata) (k : string) (v : pyval) :
  List.NoDup (keys d) -> List.NoDup (keys (dict_set d k v)).
Proof.
  unfold keys. induction d as [| [k0 v0] d IH]; cbn [dict_set map fst]; intros Hnd.
  - constructor; [intros [] | constructor].
  - inversion Hnd as [| ? ? Hnotin Hnd']; subst.
    destruct (String.eqb k0 k) eqn:E; cbn [map fst].
    + apply String.eqb_eq in E. subst. constructor; assumption.
    + constructor; [| auto].
      intros Hin. apply (dict_set_keys d k v k0) in Hin.
      apply String.eqb_neq in E. destruct Hin; [contradiction | congruence].
Qed.

Lemma dict_set_length (d : Metadata) (k : string) (v : pyval) :
  (length d <= length (dict_set d k v) <= S (length d))%nat.
Proof.
  induction d as [| [k0 v0] d IH]; cbn [dict_set length]; [lia |].
  destruct (String.eqb k0 k); cbn [length]; lia.
Qed.

(** Names that hold "time" are medium-risk names, so the low-risk branch
    never meets one and [_quantize_value] returns. *)
Lemma quantize_returns (field : string) (value : pyval) :
  any_in _medium_risk_fields (lower field) = false ->
  exists v', _quantize_value field value = Some v'.
Proof.
  intros Hmed.
  assert (Htime : contains "time" (lower field) = false).
  { apply (any_in_false_contains _ _ _ Hmed). cbn. auto 20. }
  assert (Hstamp : contains "timestamp" (lower field) = false).
  { apply (any_in_false_contains _ _ _ Hmed). cbn. auto 20. }
  destruct value as [s | z | f | b | repr]; cbn [_quantize_value]; eauto.
  - destruct (_ <=? 5)%nat; [eauto |]. destruct (_ <=? 20)%nat; eauto.
  - rewrite Htime, Hstamp. cbn [orb]. eauto.
Qed.

(** What one iteration of the loop does to the sanitized map and to the
    report lists. *)
Definition step_ok (acc acc' : Acc) (field : string) : Prop :=
  (length (acc_removed acc') + length (acc_obfuscated acc') + length (acc_quantized acc')
   = S (length (acc_removed acc) + length (acc_obfuscated acc) + length (acc_quantized acc)))%nat
  /\ (length (acc_sanitized acc') + length (acc_removed acc')
      <= S (length (acc_sanitized acc) + length (acc_removed acc)))%nat
  /\ (length (acc_removed acc) <= length (acc_removed acc'))%nat
  /\ (forall k, In k (keys (acc_sanitized acc')) ->
        In k (keys (acc_sanitized acc))
        \/ (k = field /\ any_in _sensitive_fields (lower k) = false))
  /\ (List.NoDup (keys (acc_sanitized acc)) -> List.NoDup (keys (acc_sanitized acc')))
  /\ (any_in _sensitive_fields (lower field) = true ->
        acc_sanitized acc' = acc_sanitized acc
        /\ acc_removed acc' = acc_removed acc ++ [field] /\ acc_applied acc' = true)
  /\ (acc_applied acc = true -> acc_applied acc' = true)
  /\ ((length (acc_removed acc) < length (acc_removed acc'))%nat -> acc_applied acc' = true).

Lemma sanitize_field_ok (cfg : Config) (thr : Q) (an : Analysis) (acc : Acc)
    (field : string) (value : pyval) :
  exists acc', sanitize_field cfg thr an acc (field, value) = Some acc'
               /\ step_ok acc acc' field.
Proof.
  unfold sanitize_field, step_ok.
  destruct (any_in _sensitive_fields (lower field)) eqn:Hhigh.
  { eexists. split; [reflexivity |].
    cbn [acc_sanitized acc_removed acc_obfuscated acc_quantized acc_applied].
    rewrite !length_app. cbn [length].
    repeat split; auto; try lia; try discriminate. }
  assert (Hset : forall v k, In k (keys (dict_set (acc_sanitized acc) field v)) ->
                   In k (keys (acc_sanitized acc))
                   \/ (k = field /\ any_in _sensitive_fields (lower k) = false)).
  { intros v k Hin. apply dict_set_keys in Hin. destruct Hin as [H | ->]; auto. }
  destruct (any_in _medium_risk_fields (lower field)) eqn:Hmed.
  { destruct (_obfuscate_value cfg field value (acc_rng acc)) as [v r].
    eexists. split; [reflexivity |].
    cbn [acc_sanitized acc_removed acc_obfuscated acc_quantized acc_applied].
    pose proof (dict_set_length (acc_sanitized acc) field v).
    rewrite !length_app. cbn [length].
    repeat split; auto; try lia; try discriminate;
      try apply Hset; try apply dict_set_nodup. }
  destruct (any_in _low_risk_fields (lower field)) eqn:Hlow.
  { destruct (quantize_returns field value Hmed) as [v Hq]. rewrite Hq.
    eexists. split; [reflexivity |].
    cbn [acc_sanitized acc_removed acc_obfuscated acc_quantized acc_applied].
    pose proof (dict_set_length (acc_sanitized acc) field v).
    rewrite !length_app. cbn [length].
    repeat split; auto; try lia; try discriminate;
      try apply Hset; try apply dict_set_nodup. }
  destruct (Qltb thr (a_risk_score an)).
  { eexists. split; [reflexivity |].
    cbn [acc_sanitized acc_removed acc_obfuscated acc_quantized acc_applied].
    rewrite !length_app. cbn [length].
    repeat split; auto; try lia; try discriminate. }
  destruct (_obfuscate_value cfg field value (acc_rng acc)) as [v r].
  eexists. split; [reflexivity |].
  cbn [acc_sanitized acc_removed acc_obfuscated acc_quantized acc_applied].
  pose proof (dict_set_length (acc_sanitized acc) field v).
  rewrite !length_app. cbn [length].
  repeat split; auto; try lia; try discriminate;
    try apply Hset; try apply dict_set_nodup.
Qed.

Lemma sanitize_loop_ok (cfg : Config) (thr : Q) (an : Analysis) (items : Metadata) :
  forall acc : Acc,
    exists acc',
      sanitize_loop cfg thr an items acc = Some acc' /\
      (length (acc_removed acc') + length (acc_obfuscated acc')
       + length (acc_quantized acc')
       = length items + (length (acc_removed acc) + length (acc_obfuscated acc)
                         + length (acc_quantized acc)))%nat /\
      (length (acc_sanitized acc') + length (acc_removed acc')
       <= length items + (length (acc_sanitized acc) + length (acc_removed acc)))%nat /\
      (length (acc_removed acc) <= length (acc_removed acc'))%nat /\
      (forall k, In k (keys (acc_sanitized acc')) ->
         In k (keys (acc_sanitized acc))
         \/ (In k (keys items) /\ any_in _sensitive_fields (lower k) = false)) /\
      (List.NoDup (keys (acc_sanitized acc)) -> List.NoDup (keys (acc_sanitized acc'))) /\
      (acc_applied acc = true -> acc_applied acc' = true) /\
      ((length (acc_removed acc) < length (acc_removed acc'))%nat ->
       acc_applied acc' = true).
Proof.
  induction items as [| [field value] items IH]; intros acc.
  - exists acc. cbn [sanitize_loop length]. repeat split; auto; lia.
  - cbn [sanitize_loop].
    destruct (sanitize_field_ok cfg thr an acc field value)
      as (acc1 & -> & S1 & S2 & S3 & S4 & S5 & _ & S7 & S8).
    destruct (IH acc1) as (acc' & Hloop & L1 & L2 & L3 & L4 & L5 & L6 & L7).
    exists acc'. split; [exact Hloop |]. cbn [length].
    split; [lia |]. split; [lia |]. split; [lia |].
    split.
    { intros k Hk. destruct (L4 k Hk) as [H | [H1 H2]].
      - destruct (S4 k H) as [H' | [-> H']]; [auto |].
        right. unfold keys. cbn [map fst In]. auto.
      - right. unfold keys in *. cbn [map fst In]. auto. }
    split; [auto |]. split; [auto |].
    intros Hlt.
    destruct (Nat.eq_dec (length (acc_removed acc)) (length (acc_removed acc1))) as [E | E].
    + apply L7. lia.
    + apply L6, S8. lia.
Qed.

Lemma Qmin_le_l (a b : Q) : (Qmin a b <= a)%Q.
Proof.
  unfold Qmin. destruct (Qltb b a) eqn:E; [apply Qltb_lt in E; lra | lra].
Qed.


Lemma Qmin_glb (a b c : Q) : (c <= a)%Q -> (c <= b)%Q -> (c <= Qmin a b)%Q.
Proof. intros Ha Hb. unfold Qmin. destruct (Qltb b a); assumption. Qed.




(** The analysis of a map sorts every field into one of three lists. *)
Lemma analyze_fold (m : Metadata) (a : Analysis) :
  let step (a : Analysis) (kv : string * pyval) : Analysis :=
    match _assess_field_risk (lower (fst kv)) (snd kv) with
    | high =>
        mkAnalysis (a_risk_score a + (8 # 10))%Q (a_sensitive_fields a ++ [fst kv])
          (a_medium_risk_fields a) (a_low_risk_fields a) true
    | medium =>
        mkAnalysis (a_risk_score a + (4 # 10))%Q (a_sensitive_fields a)
          (a_medium_risk_fields a ++ [fst kv]) (a_low_risk_fields a)
          (a_sanitization_required a)
    | low =>
        mkAnalysis (a_risk_score a + (1 # 10))%Q (a_sensitive_fields a)
          (a_medium_risk_fields a) (a_low_risk_fields a ++ [fst kv])
          (a_sanitization_required a)
    end in
  let a' := fold_left step m a in
  (length (a_sensitive_fields a') + length (a_medium_risk_fields a')
   + length (a_low_risk_fields a')
   = length m + (length (a_sensitive_fields a) + length (a_medium_risk_fields a)
                 + length (a_low_risk_fields a)))%nat /\
  (a_risk_score a <= a_risk_score a')%Q /\
  ((a_sanitization_required a = true <-> a_sensitive_fields a <> []) ->
   (a_sanitization_required a' = true <-> a_sensitive_fields a' <> [])) /\
  (forall k, In k (a_sensitive_fields a') ->
     In k (a_sensitive_fields a) \/ In k (keys m)).
Proof.
  cbv zeta. revert a. induction m as [| [k v] m IH]; intros a.
  - cbn [fold_left length]. repeat split; auto; try lra; tauto.
  - cbn [fold_left fst snd length].
    match goal with
    | |- context [fold_left _ m ?a1] => destruct (IH a1) as (H1 & H2 & H3 & H4)
    end.
    destruct (_assess_field_risk (lower k) v);
      cbn [a_sensitive_fields a_medium_risk_fields a_low_risk_fields a_risk_score
           a_sanitization_required] in *;
      rewrite ?length_app in H1; cbn [length] in H1.
    + split; [lia |]. split; [lra |]. split.
      * intros _. apply H3. split; [intros _ | reflexivity].
        intros Heq. apply (f_equal (@length string)) in Heq.
        rewrite length_app in Heq. cbn in Heq. lia.
      * intros k' Hin. destruct (H4 k' Hin) as [H | H].
        -- apply in_app_iff in H. destruct H as [H | [-> | []]]; [auto |].
           right. unfold keys. cbn. auto.
        -- right. unfold keys in *. cbn. auto.
    + split; [lia |]. split; [lra |]. split; [exact H3 |].
      intros k' Hin. destruct (H4 k' Hin) as [H | H]; [auto |].
      right. unfold keys in *. cbn. auto.
    + split; [lia |]. split; [lra |]. split; [exact H3 |].
      intros k' Hin. destruct (H4 k' Hin) as [H | H]; [auto |].
      right. unfold keys in *. cbn. auto.
Qed.

End SanitizerLoopFacts.




(** X20. [analyze_metadata] sorts every field of the map into exactly one of
    its three lists, keeps the risk score between 0 and 1, and asks for
    sanitization exactly when the list of sensitive fields is not empty;
    the sensitive fields it reports are fields of the map. *)
Theorem X20_analysis_partitions_fields :
  forall metadata : Sanitizer.Metadata,
    let a := Sanitizer.analyze_metadata metadata in
    (length (Sanitizer.a_sensitive_fields a) + length (Sanitizer.a_medium_risk_fields a)
     + length (Sanitizer.a_low_risk_fields a) = length metadata)%nat /\
    (0 <= Sanitizer.a_risk_score a <= 1)%Q /\
    (Sanitizer.a_sanitization_required a = true <-> Sanitizer.a_sensitive_fields a <> []) /\
    (forall k, In k (Sanitizer.a_sensitive_fields a) -> In k (Sanitizer.keys metadata)).
Proof.
  intros metadata. cbv zeta. unfold Sanitizer.analyze_metadata.
  destruct (analyze_fold metadata (Sanitizer.mkAnalysis 0 [] [] [] false))
    as (H1 & H2 & H3 & H4).
  cbn [Sanitizer.a_sensitive_fields Sanitizer.a_medium_risk_fields
       Sanitizer.a_low_risk_fields Sanitizer.a_risk_score
       Sanitizer.a_sanitization_required length] in *.
  split; [lia |]. split.
  - split; [apply Qmin_glb; lra | apply Qmin_le_l].
  - split.
    + apply H3. split; [discriminate | congruence].
    + intros k Hk. destruct (H4 k Hk) as [[] | H]. exact H.
Qed.

(** X21. The report accounts for every field once: with sanitization on,
    the removed, obfuscated and quantized lists together have as many
    entries as the input has fields, the sanitized map holds no more fields
    than were not removed, the report's risk score is the analysis score,
    and [sanitization_applied] is set whenever a field was removed. *)
Theorem X21_report_accounts_for_fields :
  forall (cfg : Sanitizer.Config) (risk_threshold : Q) (metadata : Sanitizer.Metadata)
    (r : Sanitizer.Rng),
    Sanitizer.METADATA_SANITIZATION_ENABLED cfg = true ->
    exists sanitized report r',
      Sanitizer.sanitize_metadata_with cfg risk_threshold metadata r
      = Some (sanitized, Sanitizer.Sanitized report, r') /\
      Sanitizer.original_fields report = Z.of_nat (length metadata) /\
      Sanitizer.sanitized_fields report = Z.of_nat (length sanitized) /\
      Z.of_nat (length (Sanitizer.removed_fields report))
      + Z.of_nat (length (Sanitizer.obfuscated_fields report))
      + Z.of_nat (length (Sanitizer.quantized_fields report))
      = Sanitizer.original_fields report /\
      Sanitizer.sanitized_fields report
      + Z.of_nat (length (Sanitizer.removed_fields report))
      <= Sanitizer.original_fields report /\
      (Sanitizer.risk_score report
       == Sanitizer.a_risk_score (Sanitizer.analyze_metadata metadata))%Q /\
      (Sanitizer.removed_fields report <> [] ->
       Sanitizer.sanitization_applied report = true).
Proof.
  intros cfg thr metadata r Hen.
  unfold Sanitizer.sanitize_metadata_with. rewrite Hen. cbn [negb].
  destruct (sanitize_loop_ok cfg thr (Sanitizer.analyze_metadata metadata) metadata
              (Sanitizer.mkAcc [] [] [] [] false r))
    as (acc & -> & L1 & L2 & _ & _ & _ & _ & L7).
  cbn [Sanitizer.acc_sanitized Sanitizer.acc_removed Sanitizer.acc_obfuscated
       Sanitizer.acc_quantized length] in *.
  do 3 eexists. split; [reflexivity |].
  cbn [Sanitizer.original_fields Sanitizer.sanitized_fields Sanitizer.removed_fields
       Sanitizer.obfuscated_fields Sanitizer.quantized_fields Sanitizer.risk_score
       Sanitizer.sanitization_applied].
  split; [reflexivity |]. split; [reflexivity |]. split; [lia |]. split; [lia |].
  split; [reflexivity |].
  intros Hne. apply L7. destruct (Sanitizer.acc_removed acc); [congruence | cbn; lia].
Qed.

Lemma X21_witness_scenario :
  exists sanitized report r',
    Sanitizer.sanitize_metadata_with Sanitizer.default_config (7 # 10)
      Scenarios.metadata_s6 Scenarios.sevens
    = Some (sanitized, Sanitizer.Sanitized report, r') /\
    Sanitizer.original_fields report = Z.of_nat (length Scenarios.metadata_s6) /\
    Sanitizer.sanitized_fields report = Z.of_nat (length sanitized) /\
    Z.of_nat (length (Sanitizer.removed_fields report))
    + Z.of_nat (length (Sanitizer.obfuscated_fields report))
    + Z.of_nat (length (Sanitizer.quantized_fields report))
    = Sanitizer.original_fields report /\
    Sanitizer.sanitized_fields report
    + Z.of_nat (length (Sanitizer.removed_fields report))
    <= Sanitizer.original_fields report /\
    (Sanitizer.risk_score report
     == Sanitizer.a_risk_score (Sanitizer.analyze_metadata Scenarios.metadata_s6))%Q /\
    (Sanitizer.removed_fields report <> [] ->
     Sanitizer.sanitization_applied report = true).
Proof.
  apply (X21_report_accounts_for_fields Sanitizer.default_config (7 # 10)
           Scenarios.metadata_s6 Scenarios.sevens).
  reflexivity.
Defined.

(** X22. What obfuscation and quantization do to a value. An integer is
    obfuscated to a value between 5 below and 4 above it, at the cost of one
    random draw; a string is obfuscated without touching the random source,
    so that its result depends on the field and the value alone; with
    obfuscation switched off every value is returned as it is. An integer
    is quantized to the multiple of 10 at or below it. *)
Theorem X22_value_obfuscation_and_quantization :
  forall (cfg : Sanitizer.Config) (field : string) (r : Sanitizer.Rng),
    (Sanitizer.ENABLE_METADATA_OBFUSCATION cfg = false ->
     forall value, Sanitizer._obfuscate_value cfg field value r = (value, r)) /\
    (Sanitizer.ENABLE_METADATA_OBFUSCATION cfg = true ->
     forall z, exists z',
       Sanitizer._obfuscate_value cfg field (Sanitizer.VInt z) r
       = (Sanitizer.VInt z', Sanitizer.mkRng (Sanitizer.draws r) (S (Sanitizer.next r)))
       /\ z - 5 <= z' <= z + 4) /\
    (forall s r', snd (Sanitizer._obfuscate_value cfg field (Sanitizer.VStr s) r) = r /\
                  fst (Sanitizer._obfuscate_value cfg field (Sanitizer.VStr s) r)
                  = fst (Sanitizer._obfuscate_value cfg field (Sanitizer.VStr s) r')) /\
    (forall z, exists q,
       Sanitizer._quantize_value field (Sanitizer.VInt z) = Some (Sanitizer.VInt q)
       /\ q mod 10 = 0 /\ q <= z < q + 10).
Proof.
  intros cfg field r. split; [| split; [| split]].
  - intros Hoff value. unfold Sanitizer._obfuscate_value. rewrite Hoff. reflexivity.
  - intros Hon z. unfold Sanitizer._obfuscate_value, Sanitizer.randbelow.
    rewrite Hon. cbn [negb].
    eexists. split; [reflexivity |].
    pose proof (Z.mod_pos_bound (Sanitizer.draws r (Sanitizer.next r)) 10 ltac:(lia)).
    lia.
  - intros s r'. unfold Sanitizer._obfuscate_value.
    destruct (negb _); cbn [fst snd]; auto.
  - intros z. eexists. split; [reflexivity |].
    split; [apply Z.mod_mul; lia |].
    pose proof (Z.mul_div_le z 10 ltac:(lia)).
    pose proof (Z.mul_succ_div_gt z 10 ltac:(lia)). lia.
Qed.

Lemma X22_witness_int_noise :
  exists z',
    Sanitizer._obfuscate_value Sanitizer.default_config "timestamp"
      (Sanitizer.VInt 1700000000) Scenarios.sevens
    = (Sanitizer.VInt z',
       Sanitizer.mkRng (Sanitizer.draws Scenarios.sevens) (S (Sanitizer.next Scenarios.sevens)))
    /\ 1700000000 - 5 <= z' <= 1700000000 + 4.
Proof.
  apply (proj1 (proj2 (X22_value_obfuscation_and_quantization Sanitizer.default_config
                         "timestamp" Scenarios.sevens)) eq_refl 1700000000).
Defined.

(** ** The audit log: rotation, verification and event sanitizing *)

Section AuditLogFacts.
Import Py Audit.

Opaque Hashlib.pbkdf2_hmac_sha256.

Lemma rename_other (src dst : nat) (fs : gmap nat text) (k : nat) :
  k <> src -> k <> dst -> rename src dst fs !! k = fs !! k.
Proof.
  intros H1 H2. unfold rename. destruct (fs !! src); [| reflexivity].
  rewrite lookup_insert_ne by congruence. apply lookup_delete_ne. congruence.
Qed.

Lemma rename_moves (src dst : nat) (fs : gmap nat text) (content : text) :
  src <> dst -> fs !! src = Some content ->
  rename src dst fs !! dst = Some content /\ rename src dst fs !! src = None.
Proof.
  intros Hne Hsrc. unfold rename. rewrite Hsrc. split.
  - apply lookup_insert_eq.
  - rewrite lookup_insert_ne by congruence. apply lookup_delete_eq.
Qed.

Lemma rename_missing (src dst : nat) (fs : gmap nat text) :
  fs !! src = None -> rename src dst fs = fs.
Proof. intros H. unfold rename. rewrite H. reflexivity. Qed.

Lemma rotate_fold_other (indices : list nat) (fs : gmap nat text) (k : nat) :
  Forall (fun i => i <> k /\ S i <> k) indices ->
  fold_left (fun fs i => rename i (S i) fs) indices fs !! k = fs !! k.
Proof.
  intros H. revert fs. induction H as [| i indices [H1 H2] _ IH]; intros fs;
    cbn [fold_left]; [reflexivity |].
  rewrite IH. apply rename_other; congruence.
Qed.

(** The rotated files move up by one. *)
Lemma rotate_fold_shift (n : nat) :
  forall (fs : gmap nat text) (i : nat) (content : text),
    (1 <= i <= n)%nat -> fs !! i = Some content ->
    fold_left (fun fs i => rename i (S i) fs) (rev (seq 1 n)) fs !! S i = Some content.
Proof.
  induction n as [| n IH]; intros fs i content Hi Hfs; [lia |].
  rewrite seq_S, rev_app_distr. cbn [rev app fold_left Nat.add].
  destruct (Nat.eq_dec i (S n)) as [-> | Hne].
  - rewrite rotate_fold_other.
    + apply (rename_moves (S n) (S (S n)) fs content); [lia | exact Hfs].
    + apply Forall_forall. intros j Hj. apply list_elem_of_In, in_rev, in_seq in Hj. lia.
  - apply IH; [lia |]. rewrite rename_other by lia. exact Hfs.
Qed.

Lemma rotate_log_spec (cfg : Config) (self : State) :
  _log_size (_rotate_log cfg self) = 0 /\
  _tamper_key (_rotate_log cfg self) = _tamper_key self /\
  files (_rotate_log cfg self) !! 0%nat = None /\
  (forall content, files self !! 0%nat = Some content ->
     files (_rotate_log cfg self) !! 1%nat = Some content) /\
  (forall i content,
     (1 <= i)%nat -> Z.of_nat i < AUDIT_LOG_ROTATION_COUNT cfg ->
     files self !! i = Some content ->
     files (_rotate_log cfg self) !! S i = Some content).
Proof.
  unfold _rotate_log. cbn [_log_size _tamper_key files].
  set (n := Z.to_nat (AUDIT_LOG_ROTATION_COUNT cfg - 1)).
  set (fs := fold_left (fun fs i => rename i (S i) fs) (rev (seq 1 n)) (files self)).
  assert (H0 : fs !! 0%nat = files self !! 0%nat).
  { apply rotate_fold_other, Forall_forall. intros j Hj.
    apply list_elem_of_In, in_rev, in_seq in Hj. lia. }
  split; [reflexivity |]. split; [reflexivity |].
  split.
  { destruct (fs !! 0%nat) as [c |] eqn:E.
    - apply (rename_moves 0 1 fs c); [lia | exact E].
    - rewrite rename_missing by exact E. exact E. }
  split.
  { intros content Hc. apply (rename_moves 0 1 fs content); [lia |].
    rewrite H0. exact Hc. }
  intros i content Hi Hcount Hfs.
  rewrite rename_other by lia.
  apply rotate_fold_shift; [unfold n; lia | exact Hfs].
Qed.

Lemma log_line_nonempty (cfg : Config) (self : State) (entry : Entry) :
  0 < Z.of_nat (length (log_line cfg self entry)).
Proof.
  unfold log_line. cbn [dumps].
  destruct (ENABLE_TAMPER_DETECTION cfg); cbn [app length]; lia.
Qed.

Lemma write_rotates (cfg : Config) (entry : Entry) (self : State) :
  AUDIT_LOG_MAX_SIZE cfg < _log_size self + Z.of_nat (length (log_line cfg self entry)) ->
  _write_log_entry cfg entry self
  = _rotate_log cfg
      (mkState (_log_size self + Z.of_nat (length (log_line cfg self entry)))
         (_tamper_key self)
         (<[0%nat := default [] (files self !! 0%nat)
                       ++ log_line cfg self entry ++ [newline]]> (files self))).
Proof.
  intros Hlt. unfold _write_log_entry. cbn [_log_size].
  destruct (_ <? _) eqn:E; [reflexivity |]. apply Z.ltb_ge in E. lia.
Qed.











Lemma audit_dict_set_keys (d : Entry) (k' : string) (v : json) (k : string) :
  In k (map fst (dict_set d k' v)) <-> In k (map fst d) \/ k = k'.
Proof.
  induction d as [| [k0 v0] d IH]; cbn [dict_set map fst In].
  - intuition congruence.
  - destruct (String.eqb k0 k') eqn:E; cbn [map fst In].
    + apply String.eqb_eq in E. subst. intuition congruence.
    + rewrite IH. tauto.
Qed.

Lemma audit_dict_get_set (d : Entry) (k' : string) (v : json) (k : string) :
  dict_get (dict_set d k' v) k = if String.eqb k' k then Some v else dict_get d k.
Proof.
  induction d as [| [k0 v0] d IH]; cbn [dict_set dict_get].
  - destruct (String.eqb k' k); reflexivity.
  - destruct (String.eqb k0 k') eqn:E; cbn [dict_get].
    + apply String.eqb_eq in E. subst. destruct (String.eqb k' k); reflexivity.
    + rewrite IH. destruct (String.eqb k' k) eqn:E'; [| reflexivity].
      apply String.eqb_eq in E'. subst. rewrite E. reflexivity.
Qed.

Lemma endswith_app (k suffix : string) : endswith (k +:+ suffix) suffix = true.
Proof.
  induction k as [| c k IH].
  - change (EmptyString +:+ suffix) with suffix.
    destruct suffix as [| c s]; [reflexivity |].
    cbn [endswith]. rewrite String.eqb_refl. reflexivity.
  - change (String c k +:+ suffix) with (String c (k +:+ suffix)).
    cbn [endswith]. rewrite IH. apply orb_true_r.
Qed.

Lemma sanitize_item_keys (repr : json -> string) (sanitized : Entry)
    (kv : string * json) (k : string) :
  In k (map fst (sanitize_item repr sanitized kv)) ->
  In k (map fst sanitized) \/ allowed_key k = true.
Proof.
  destruct kv as [key value]. unfold sanitize_item.
  destruct (mem key safe_fields) eqn:Hsafe.
  { intros H. apply audit_dict_set_keys in H. destruct H as [H | ->]; [auto |].
    right. unfold allowed_key. rewrite Hsafe. rewrite orb_true_r. reflexivity. }
  destruct (endswith key "_hash" || endswith key "_id") eqn:Hsuf.
  { intros H. apply audit_dict_set_keys in H. destruct H as [H | ->]; [auto |].
    right. unfold allowed_key. apply orb_true_iff in Hsuf. destruct Hsuf as [-> | ->];
      rewrite ?orb_true_r; reflexivity. }
  destruct (mem key hashed_fields).
  { intros H. apply audit_dict_set_keys in H. destruct H as [H | ->]; [auto |].
    right. unfold allowed_key. rewrite endswith_app. rewrite orb_true_r. reflexivity. }
  auto.
Qed.

Lemma sanitize_fold_keys (repr : json -> string) (event : Entry) :
  forall (sanitized : Entry) (k : string),
    In k (map fst (fold_left (sanitize_item repr) event sanitized)) ->
    In k (map fst sanitized) \/ allowed_key k = true.
Proof.
  induction event as [| kv event IH]; intros sanitized k; cbn [fold_left]; [auto |].
  intros H. destruct (IH _ _ H) as [H' | H']; [| auto].
  apply (sanitize_item_keys repr sanitized kv k H').
Qed.

(** A key ending in "_id" that is also on the list of fields to hash is
    copied before the hashing branch is reached. *)
Lemma sanitize_item_get (repr : json -> string) (sanitized : Entry)
    (kv : string * json) (k : string) :
  endswith k "_id" = true -> endswith k "_hash" = false ->
  dict_get (sanitize_item repr sanitized kv) k
  = if String.eqb (fst kv) k then Some (snd kv) else dict_get sanitized k.
Proof.
  intros Hid Hhash. destruct kv as [key value]. unfold sanitize_item. cbn [fst snd].
  destruct (mem key safe_fields); [apply audit_dict_get_set |].
  destruct (endswith key "_hash" || endswith key "_id") eqn:Hsuf;
    [apply audit_dict_get_set |].
  assert (Hkey : String.eqb key k = false).
  { destruct (String.eqb_spec key k) as [-> |]; [| reflexivity].
    rewrite Hid, orb_true_r in Hsuf. discriminate. }
  rewrite Hkey.
  destruct (mem key hashed_fields); [| reflexivity].
  rewrite audit_dict_get_set.
  destruct (String.eqb_spec (key +:+ "_hash") k) as [<- |]; [| reflexivity].
  rewrite endswith_app in Hhash. discriminate.
Qed.

Lemma sanitize_fold_get (repr : json -> string) (event : Entry) (k : string) (v : json) :
  endswith k "_id" = true -> endswith k "_hash" = false ->
  List.NoDup (map fst event) ->
  dict_get event k = Some v ->
  forall sanitized, dict_get (fold_left (sanitize_item repr) event sanitized) k = Some v.
Proof.
  intros Hid Hhash.
  assert (Hkeep : forall event sanitized,
            ~ In k (map fst event) ->
            dict_get (fold_left (sanitize_item repr) event sanitized) k
            = dict_get sanitized k).
  { induction event0 as [| [k0 v0] event0 IH]; intros sanitized Hnot; cbn [fold_left];
      [reflexivity |].
    cbn [map fst In] in Hnot. rewrite IH by tauto.
    rewrite (sanitize_item_get repr sanitized (k0, v0) k Hid Hhash). cbn [fst snd].
    destruct (String.eqb_spec k0 k); [tauto | reflexivity]. }
  induction event as [| [k0 v0] event IH]; intros Hnd Hget sanitized; [discriminate |].
  cbn [map fst] in Hnd. inversion Hnd as [| ? ? Hnotin Hnd']; subst.
  cbn [fold_left]. cbn [dict_get] in Hget.
  destruct (String.eqb k0 k) eqn:E.
  - apply String.eqb_eq in E. subst k0. injection Hget as ->.
    rewrite Hkeep by exact Hnotin.
    rewrite (sanitize_item_get repr sanitized (k, v) k Hid Hhash). cbn [fst snd].
    rewrite String.eqb_refl. reflexivity.
  - apply IH; assumption.
Qed.

Transparent Hashlib.pbkdf2_hmac_sha256.

End AuditLogFacts.

(** X23. Log rotation. [_rotate_log] resets the size counter, keeps the
    tamper key, moves the active log to suffix .1 and every rotated file
    below the rotation count up by one, and leaves no active log: until the
    next record is written, verification reports an error. A write that
    takes the size counter past the limit ends in such a rotation, the
    record just written going to suffix .1 with the rest. *)
Theorem X23_log_rotation :
  forall (cfg : Audit.Config) (self : Audit.State),
    let self' := Audit._rotate_log cfg self in
    Audit._log_size self' = 0 /\
    Audit._tamper_key self' = Audit._tamper_key self /\
    Audit.files self' !! 0%nat = None /\
    (forall content, Audit.files self !! 0%nat = Some content ->
       Audit.files self' !! 1%nat = Some content) /\
    (forall i content,
       (1 <= i)%nat -> Z.of_nat i < Audit.AUDIT_LOG_ROTATION_COUNT cfg ->
       Audit.files self !! i = Some content ->
       Audit.files self' !! S i = Some content) /\
    (Audit.ENABLE_TAMPER_DETECTION cfg = true ->
     Audit.verify_log_integrity cfg self' = Audit.mkIntegrity Audit.error 0 0 0) /\
    (forall entry,
       Audit.AUDIT_LOG_MAX_SIZE cfg
       < Audit._log_size self + Z.of_nat (length (Audit.log_line cfg self entry)) ->
       Audit._log_size (Audit._write_log_entry cfg entry self) = 0 /\
       Audit.files (Audit._write_log_entry cfg entry self) !! 0%nat = None /\
       Audit.files (Audit._write_log_entry cfg entry self) !! 1%nat
       = Some (default [] (Audit.files self !! 0%nat)
               ++ Audit.log_line cfg self entry ++ [Audit.newline])).
Proof.
  intros cfg self self'. subst self'.
  destruct (rotate_log_spec cfg self) as (H1 & H2 & H3 & H4 & H5).
  split; [exact H1 |]. split; [exact H2 |]. split; [exact H3 |].
  split; [exact H4 |]. split; [exact H5 |].
  split.
  - intros Hen. unfold Audit.verify_log_integrity. rewrite Hen, H3. reflexivity.
  - intros entry Hlt. rewrite (write_rotates cfg entry self Hlt).
    match goal with
    | |- context [Audit._rotate_log cfg ?s] =>
        destruct (rotate_log_spec cfg s) as (G1 & _ & G3 & G4 & _)
    end.
    split; [exact G1 |]. split; [exact G3 |].
    apply G4. cbn [Audit.files]. apply lookup_insert_eq.
Qed.





(** X26. A record is one line: whatever strings an entry holds, the line
    written for it has no character below the space, in particular no line
    feed and no carriage return, so that the reader gets it back as exactly
    one line. *)
Theorem X26_record_is_one_line :
  forall (cfg : Audit.Config) (self : Audit.State) (entry : Audit.Entry),
    (forall c, In c (Audit.log_line cfg self entry) -> (32 <= nat_of_ascii c)%nat) /\
    Audit.readlines (Audit.log_line cfg self entry ++ [Audit.newline])
    = [Audit.log_line cfg self entry ++ [Audit.newline]].
Proof.
  intros cfg self entry.
  pose proof (log_line_printable cfg self entry) as Hp.
  split.
  - intros c Hc. rewrite forallb_forall in Hp. specialize (Hp c Hc).
    apply Nat.leb_le. exact Hp.
  - apply (readlines_line (Audit.log_line cfg self entry) [] Hp).
Qed.

(** X27. What [_sanitize_event] lets through. Every key of the sanitized
    event is one of ts, event_id and event_type, a safe field, or a key
    ending in "_hash" or "_id"; so token and client_ip never appear under
    their own names, and fields such as message_size or deleted_count are
    dropped. But user_id and device_id end in "_id": they are copied as
    they are, the branch that would hash them being out of their reach. *)
Theorem X27_sanitize_event_keys :
  forall (repr : Audit.json -> string) (ts : Z) (event_id : string) (event : Audit.Entry),
    let sanitized := Audit._sanitize_event repr ts event_id event in
    (forall k, In k (map fst sanitized) -> Audit.allowed_key k = true) /\
    ~ In "token"%string (map fst sanitized) /\
    ~ In "client_ip"%string (map fst sanitized) /\
    ~ In "message_size"%string (map fst sanitized) /\
    ~ In "deleted_count"%string (map fst sanitized) /\
    (List.NoDup (map fst event) ->
     forall k value, k = "user_id"%string \/ k = "device_id"%string ->
       Audit.dict_get event k = Some value ->
       Audit.dict_get sanitized k = Some value).
Proof.
  intros repr ts event_id event sanitized. subst sanitized.
  assert (Hkeys : forall k, In k (map fst (Audit._sanitize_event repr ts event_id event)) ->
                            Audit.allowed_key k = true).
  { intros k Hk. unfold Audit._sanitize_event in Hk.
    apply sanitize_fold_keys in Hk. destruct Hk as [Hk | Hk]; [| exact Hk].
    cbn [map fst In] in Hk.
    destruct Hk as [<- | [<- | [<- | []]]]; reflexivity. }
  split; [exact Hkeys |].
  split; [intros H; apply Hkeys in H; vm_compute in H; discriminate |].
  split; [intros H; apply Hkeys in H; vm_compute in H; discriminate |].
  split; [intros H; apply Hkeys in H; vm_compute in H; discriminate |].
  split; [intros H; apply Hkeys in H; vm_compute in H; discriminate |].
  intros Hnd k value Hk Hget. unfold Audit._sanitize_event.
  apply sanitize_fold_get; try assumption.
  - destruct Hk as [-> | ->]; reflexivity.
  - destruct Hk as [-> | ->]; reflexivity.
Qed.

Lemma X27_witness_user_id_in_clear :
  Audit.dict_get
    (Audit._sanitize_event (fun _ => EmptyString) 0 "e1"
       [ ("event_type", Audit.JStr "login"); ("user_id", Audit.JStr "alice");
         ("token", Audit.JStr "t1") ])
    "user_id"
  = Some (Audit.JStr "alice").
Proof.
  refine (proj2 (proj2 (proj2 (proj2 (proj2
    (X27_sanitize_event_keys (fun _ => EmptyString) 0 "e1"
       [ ("event_type", Audit.JStr "login"); ("user_id", Audit.JStr "alice");
         ("token", Audit.JStr "t1") ]))))) _ "user_id"%string (Audit.JStr "alice")
    (or_introl eq_refl) eq_refl).
  repeat constructor; cbn; intuition discriminate.
Defined.

(** X28. The records the store writes to the audit log when the forensic
    modules are loaded. A [put] stores the ciphertext in the forensic store
    and logs the event type, the opaque hash of the token and the time to
    live: the message size it hands over is dropped by the sanitizer. A
    [get] that finds nothing logs nothing. A forced cleanup logs its event
    type alone: the count of deleted entries never reaches the log. *)
Theorem X28_facade_audit_records :
  forall (SECURE_DELETE_PASSES : Z) (str_of_time : Q -> string)
    (repr : Audit.json -> string) (cfg : Audit.Config)
    (now now_created now_id : Q) (ts : Z) (event_id token : string)
    (ciphertext : Storage.bytes) (ttl_seconds : Z) (st : ForensicEphemeralStorage.State),
    (let st' := ForensicEphemeralStorage.put str_of_time repr cfg now now_created now_id
                  ts event_id token ciphertext ttl_seconds st in
     ForensicEphemeralStorage._storage st'
     = Storage.put str_of_time now now_created now_id token ciphertext ttl_seconds
         (ForensicEphemeralStorage._storage st) /\
     ForensicEphemeralStorage._audit st'
     = Audit._write_log_entry cfg
         [ ("ts", Audit.JInt ts); ("event_id", Audit.JStr event_id);
           ("event_type", Audit.JStr "message_stored");
           ("token_hash", Audit.JStr (Audit._opaque_hash token));
           ("ttl", Audit.JInt ttl_seconds) ]
         (ForensicEphemeralStorage._audit st)) /\
    (fst (Storage.get now token (ForensicEphemeralStorage._storage st)) = None ->
     ForensicEphemeralStorage._audit
       (snd (ForensicEphemeralStorage.get repr cfg now ts event_id token st))
     = ForensicEphemeralStorage._audit st) /\
    ForensicEphemeralStorage._audit
      (snd (ForensicEphemeralStorage.force_secure_cleanup SECURE_DELETE_PASSES repr cfg
              ts event_id st))
    = Audit._write_log_entry cfg
        [ ("ts", Audit.JInt ts); ("event_id", Audit.JStr event_id);
          ("event_type", Audit.JStr "admin_force_cleanup") ]
        (ForensicEphemeralStorage._audit st).
Proof.
  intros passes str_of_time repr cfg now now_created now_id ts event_id token ciphertext
    ttl st.
  split; [| split].
  - intros st'. subst st'.
    unfold ForensicEphemeralStorage.put, Audit.log_message_event.
    cbn [ForensicEphemeralStorage._storage ForensicEphemeralStorage._audit].
    split; [reflexivity |]. f_equal; reflexivity.
  - intros Hmiss. unfold ForensicEphemeralStorage.get.
    destruct (Storage.get now token (ForensicEphemeralStorage._storage st))
      as [result storage].
    cbn [fst] in Hmiss. subst result. reflexivity.
  - unfold ForensicEphemeralStorage.force_secure_cleanup, Audit.log_admin_event.
    destruct (Storage.force_secure_cleanup passes (ForensicEphemeralStorage._storage st))
      as [deleted_count storage].
    cbn [snd ForensicEphemeralStorage._audit]. f_equal; reflexivity.
Qed.

(** ** Digests and the identifiers cut from them *)

Section DigestFacts.
Import Hashlib.

Lemma Z_to_be_length (n : nat) (z : Z) : length (Z_to_be n z) = n.
Proof.
  revert z. induction n as [| n IH]; intros z; cbn [Z_to_be]; [reflexivity |].
  rewrite length_app, IH. cbn [length]. lia.
Qed.

Lemma round_length (st : list Z) (kw : Z * Z) :
  length st = 8%nat -> length (round st kw) = 8%nat.
Proof.
  intros H. do 9 (destruct st as [| ? st]; try discriminate). reflexivity.
Qed.

Lemma rounds_length (kws : list (Z * Z)) (st : list Z) :
  length st = 8%nat -> length (fold_left round kws st) = 8%nat.
Proof.
  revert st. induction kws as [| kw kws IH]; intros st H; cbn [fold_left]; [exact H |].
  apply IH, round_length, H.
Qed.

Lemma zip_with_add_length (l1 l2 : list Z) :
  length (zip_with_add l1 l2) = Nat.min (length l1) (length l2).
Proof.
  revert l2. induction l1 as [| x l1 IH]; intros [| y l2]; cbn [zip_with_add length];
    try reflexivity.
  rewrite IH. reflexivity.
Qed.

Lemma compress_length (h : list Z) (blk : bytes) :
  length h = 8%nat -> length (compress h blk) = 8%nat.
Proof.
  intros H. unfold compress. rewrite zip_with_add_length, rounds_length by exact H.
  rewrite H. reflexivity.
Qed.

Lemma compress_all_length (blocks : list bytes) (h : list Z) :
  length h = 8%nat -> length (fold_left compress blocks h) = 8%nat.
Proof.
  revert h. induction blocks as [| b blocks IH]; intros h H; cbn [fold_left]; [exact H |].
  apply IH, compress_length, H.
Qed.

Lemma sha256_length (msg : bytes) : length (sha256 msg) = 32%nat.
Proof.
  unfold sha256.
  rewrite (flat_map_constant_length (c := 4)) by (intros; apply Z_to_be_length).
  rewrite compress_all_length by reflexivity. reflexivity.
Qed.

Lemma hex_length (bs : bytes) : String.length (hex bs) = (2 * length bs)%nat.
Proof.
  induction bs as [| b bs IH]; [reflexivity |].
  cbn [hex String.length length]. rewrite IH. lia.
Qed.

Lemma substring_length (n : nat) (s : string) :
  (n <= String.length s)%nat -> String.length (String.substring 0 n s) = n.
Proof.
  revert s. induction n as [| n IH]; intros s H.
  - destruct s; reflexivity.
  - destruct s as [| c s]; [cbn in H; lia |].
    cbn [String.substring String.length] in *. rewrite IH by lia. reflexivity.
Qed.

Lemma text_of_length (s : string) : length (Py.text_of s) = String.length s.
Proof.
  unfold Py.text_of. induction s as [| c s IH]; [reflexivity |].
  cbn [String.list_ascii_of_string length String.length]. rewrite IH. reflexivity.
Qed.

Lemma hmac_length (key msg : bytes) : length (hmac_sha256 key msg) = 32%nat.
Proof. unfold hmac_sha256. apply sha256_length. Qed.

Lemma xor_bytes_length (a b : bytes) :
  length (xor_bytes a b) = Nat.min (length a) (length b).
Proof. unfold xor_bytes. rewrite length_map. apply length_combine. Qed.

Lemma pbkdf2_loop_length (password : bytes) (n : nat) :
  forall u t, length t = 32%nat -> length (pbkdf2_loop password n u t) = 32%nat.
Proof.
  induction n as [| n IH]; intros u t H; cbn [pbkdf2_loop]; [exact H |].
  apply IH. rewrite xor_bytes_length, hmac_length, H. reflexivity.
Qed.

Lemma pbkdf2_length (password salt : bytes) (iterations : nat) :
  length (pbkdf2_hmac_sha256 password salt iterations) = 32%nat.
Proof. unfold pbkdf2_hmac_sha256. apply pbkdf2_loop_length, hmac_length. Qed.

Lemma hexdigest_length (msg : bytes) : String.length (sha256_hexdigest msg) = 64%nat.
Proof. unfold sha256_hexdigest. rewrite hex_length, sha256_length. reflexivity. Qed.

End DigestFacts.

(** X29. The identifiers written to logs and entries are cut from digests
    and have a fixed length whatever they are made from: the policy's
    token hash has 64 characters, the audit writer's opaque hash 16 (or the
    text "null" for an empty value), the line checksum 16 when tamper
    detection is on and none when it is off, the forensic id of a stored
    entry 16, and an obfuscated non-empty string is "obf_" followed by 8
    characters. *)
Theorem X29_identifiers_fixed_length :
  (forall val, String.length (Policy._opaque_id val) = 64%nat) /\
  (forall data,
     String.length (Audit._opaque_hash data)
     = if String.eqb data EmptyString then 4%nat else 16%nat) /\
  (forall cfg self data,
     length (Audit._calculate_checksum cfg self data)
     = if Audit.ENABLE_TAMPER_DETECTION cfg then 16%nat else 0%nat) /\
  (forall str_of_time now token st,
     String.length (fst (Storage._generate_forensic_id str_of_time now token st))
     = 16%nat) /\
  (forall cfg field c value,
     Sanitizer.ENABLE_METADATA_OBFUSCATION cfg = true ->
     exists h, Sanitizer._obfuscate_value_str cfg field (String c value)
               = Sanitizer.VStr ("obf_" +:+ h)
               /\ String.length h = 8%nat).
Proof.
  split; [| split; [| split; [| split]]].
  - intros val. apply hexdigest_length.
  - intros data. unfold Audit._opaque_hash.
    destruct (String.eqb data EmptyString); [reflexivity |].
    apply substring_length. rewrite hexdigest_length. lia.
  - intros cfg self data. unfold Audit._calculate_checksum.
    destruct (Audit.ENABLE_TAMPER_DETECTION cfg); cbn [negb]; [| reflexivity].
    rewrite length_take, text_of_length, hex_length, pbkdf2_length. reflexivity.
  - intros str_of_time now token st. unfold Storage._generate_forensic_id.
    destruct (Storage.token_bytes 8 (Storage.entropy st)) as [rnd e]. cbn [fst].
    apply substring_length. rewrite hexdigest_length. lia.
  - intros cfg field c value Hon. unfold Sanitizer._obfuscate_value_str.
    rewrite Hon. cbn [negb String.length Nat.ltb Nat.leb].
    eexists. split; [reflexivity |].
    apply substring_length. rewrite hexdigest_length. lia.
Qed.

(** ** Test vectors of the hash functions *)

Example sha256_abc :
  Hashlib.sha256_hexdigest (Hashlib.encode "abc")
  = "ba7816bf8f01cfea414140de5dae2223b00361a396177a9cb410ff61f20015ad".
Proof. vm_compute. reflexivity. Qed.

Example sha256_empty :
  Hashlib.sha256_hexdigest (Hashlib.encode "")
  = "e3b0c44298fc1c149afbf4c8996fb92427ae41e4649b934ca495991b7852b855".
Proof. vm_compute. reflexivity. Qed.

Example sha256_two_blocks :
  Hashlib.sha256_hexdigest (repeat "a"%byte 70)
  = "6bd5e5034855a11241f0dee8fc72850ffd9955b28347a86428b5fa19119f6ad0".
Proof. vm_compute. reflexivity. Qed.

Example hmac_sha256_fox :
  Hashlib.hex (Hashlib.hmac_sha256 (Hashlib.encode "key")
                 (Hashlib.encode "The quick brown fox jumps over the lazy dog"))
  = "f7bc83f430538424b13298e6aa6fb143ef4d59a14946175997479dbc2d1a3cd8".
Proof. vm_compute. reflexivity. Qed.

Example pbkdf2_two_iterations :
  Hashlib.hex (Hashlib.pbkdf2_hmac_sha256 (Hashlib.encode "password")
                 (Hashlib.encode "salt") 2)
  = "ae4d0c95af6b46d32d0adff928f06dd02a303f8ef3c251dfd6e2d85a95474c43".
Proof. vm_compute. reflexivity. Qed.

Example canary_prefix_alpha :
  Hashlib.be_to_Z (firstn 8 (Hashlib.sha256 (Hashlib.encode "alpha")))
  = 10291840798112322974
  /\ Policy.float_of_int 10291840798112322974 = 10291840798112323584.
Proof. vm_compute. split; reflexivity. Qed.
